(** * CivicTrack: the issue store, moderation counters and admin queries

    A shallow embedding of [server/storage.ts] (class [DatabaseStorage]),
    of the request handlers of [server/routes.ts] that drive it, and of the
    table declarations of [shared/schema.ts].

    The relational store is a record of tables; a table is the list of its
    rows in insertion order.  A nullable column is an [option]; SQL
    comparisons on it are three-valued.  The constraints that the schema
    declares (primary keys, [references], [notNull], [varchar] lengths, the
    range of [integer] and [decimal]) are checked by the statements that
    write the tables, and a violated one raises, as PostgreSQL does.
    No statement of the source runs inside a transaction: what a method
    wrote before it raised stays written.

    Values the database or the runtime draws by itself, [gen_random_uuid()]
    for a row id and [now()] / [new Date()] for a timestamp, are explicit
    arguments of the embedded method; a method reads the clock once.
    Requests are served one after the other.  The values a handler receives
    have the types its code expects of them (a text field is a string). *)

From Stdlib Require Import ZArith String List Reals Lra Lia.
From stdpp Require Import base decidable option list strings gmap sorting.

Set Warnings "-clear-no-such-hyp".

Close Scope R_scope.
Open Scope string_scope.
Open Scope list_scope.
Open Scope Z_scope.

(** ** SQL values and column types *)

(** [decimal(p, 8)]: a fixed-point number, held as its count of 1e-8 units. *)
Definition Decimal8 := Z.
Definition Timestamp := Z.

Inductive PgError :=
  | unique_violation
  | foreign_key_violation
  | string_data_right_truncation
  | numeric_value_out_of_range.

#[global] Instance PgError_eq_dec : EqDecision PgError.
Proof. solve_decision. Defined.

(** What a method of the server can throw. *)
Inductive Exn :=
  | ZodError
  | DatabaseError (e : PgError).

(** [varchar(n)]: a longer string is refused. *)
Definition varchar (n : nat) (v : option string) : bool :=
  match v with
  | Some s => bool_decide (String.length s ≤ n)%nat
  | None => true
  end.

(** [integer]: 32 bits, signed; arithmetic leaving the range raises. *)
Definition int4 (v : option Z) : bool :=
  match v with
  | Some n => bool_decide (-2147483648 ≤ n ≤ 2147483647)
  | None => true
  end.

(** [decimal(p, 8)]: [p - 8] digits before the point. *)
Definition decimal8 (p : Z) (v : Decimal8) : bool :=
  bool_decide (Z.abs v < 10 ^ p).

Arguments varchar : simpl never.
Arguments int4 : simpl never.
Arguments decimal8 : simpl never.

(** ** Rows *)

Module User.
Record t := mk {
  id : string;
  email : option string;
  firstName : option string;
  lastName : option string;
  profileImageUrl : option string;
  isAdmin : option bool;
  isBanned : option bool;
  createdAt : option Timestamp;
  updatedAt : option Timestamp }.

Definition set_isBanned (v : option bool) (r : t) : t :=
  mk (id r) (email r) (firstName r) (lastName r) (profileImageUrl r)
     (isAdmin r) v (createdAt r) (updatedAt r).
End User.

Module Issue.
Record t := mk {
  id : string;
  title : string;
  description : string;
  category : string;
  status : option string;
  latitude : Decimal8;
  longitude : Decimal8;
  address : option string;
  photos : option (list string);
  reporterId : option string;
  isAnonymous : option bool;
  isHidden : option bool;
  flagCount : option Z;
  reportCount : option Z;
  createdAt : option Timestamp;
  updatedAt : option Timestamp }.

Definition set_status (v : option string) (r : t) : t :=
  mk (id r) (title r) (description r) (category r) v (latitude r)
     (longitude r) (address r) (photos r) (reporterId r) (isAnonymous r)
     (isHidden r) (flagCount r) (reportCount r) (createdAt r) (updatedAt r).
Definition set_isHidden (v : option bool) (r : t) : t :=
  mk (id r) (title r) (description r) (category r) (status r) (latitude r)
     (longitude r) (address r) (photos r) (reporterId r) (isAnonymous r)
     v (flagCount r) (reportCount r) (createdAt r) (updatedAt r).
Definition set_flagCount (v : option Z) (r : t) : t :=
  mk (id r) (title r) (description r) (category r) (status r) (latitude r)
     (longitude r) (address r) (photos r) (reporterId r) (isAnonymous r)
     (isHidden r) v (reportCount r) (createdAt r) (updatedAt r).
Definition set_reportCount (v : option Z) (r : t) : t :=
  mk (id r) (title r) (description r) (category r) (status r) (latitude r)
     (longitude r) (address r) (photos r) (reporterId r) (isAnonymous r)
     (isHidden r) (flagCount r) v (createdAt r) (updatedAt r).
Definition set_updatedAt (v : option Timestamp) (r : t) : t :=
  mk (id r) (title r) (description r) (category r) (status r) (latitude r)
     (longitude r) (address r) (photos r) (reporterId r) (isAnonymous r)
     (isHidden r) (flagCount r) (reportCount r) (createdAt r) v.

(** A key of the object given to [set], with the value or the SQL
    expression assigned to the column; an expression reads the row as it
    is before the statement. *)
Inductive Assign :=
  | status_to (v : option string)
  | isHidden_to (v : option bool)
  | flagCount_to (e : t → option Z)
  | reportCount_to (e : t → option Z)
  | updatedAt_to (v : option Timestamp).

Definition assign (old : t) (a : Assign) (r : t) : t :=
  match a with
  | status_to v => set_status v r
  | isHidden_to v => set_isHidden v r
  | flagCount_to e => set_flagCount (e old) r
  | reportCount_to e => set_reportCount (e old) r
  | updatedAt_to v => set_updatedAt v r
  end.

(** [set({ k1: v1, ..., kn: vn })] on one row. *)
Definition set (values : list Assign) (r : t) : t :=
  foldl (λ acc a, assign r a acc) r values.

(** An assigned value has to fit the type of its column. *)
Definition assign_check (old : t) (a : Assign) : option PgError :=
  match a with
  | status_to v =>
    if varchar 20 v then None else Some string_data_right_truncation
  | flagCount_to e | reportCount_to e =>
    if int4 (e old) then None else Some numeric_value_out_of_range
  | isHidden_to _ | updatedAt_to _ => None
  end.

Definition set_check (values : list Assign) (r : t) : option PgError :=
  head (omap (assign_check r) values).

(** The column types of the [issues] table, for a row to insert. *)
Definition check (r : t) : option PgError :=
  if negb (varchar 255 (Some (title r)) && varchar 50 (Some (category r))
           && varchar 20 (status r))
  then Some string_data_right_truncation
  else if negb (decimal8 10 (latitude r) && decimal8 11 (longitude r)
                && int4 (flagCount r) && int4 (reportCount r))
  then Some numeric_value_out_of_range
  else None.
End Issue.

Module IssueStatusLog.
Record t := mk {
  id : string;
  issueId : string;
  oldStatus : option string;
  newStatus : string;
  changedBy : option string;
  notes : option string;
  createdAt : option Timestamp }.

Definition check (r : t) : option PgError :=
  if negb (varchar 20 (oldStatus r) && varchar 20 (Some (newStatus r)))
  then Some string_data_right_truncation
  else None.
End IssueStatusLog.

Module IssueFlag.
Record t := mk {
  id : string;
  issueId : string;
  flaggerId : string;
  reason : option string;
  createdAt : option Timestamp }.

Definition check (r : t) : option PgError :=
  if negb (varchar 100 (reason r))
  then Some string_data_right_truncation
  else None.
End IssueFlag.

Module IssueVote.
Record t := mk {
  id : string;
  issueId : string;
  voterId : string;
  createdAt : option Timestamp }.
End IssueVote.

(** ** The values objects of the insert schemas

    A key of an insert schema that has a column default may be left out
    ([None]: the default applies) or be given, and given as null when the
    column is nullable.  [insertIssueSchema] leaves out [id], [createdAt],
    [updatedAt], [flagCount], [reportCount] and [isHidden]; it keeps
    [status]. *)

Module InsertIssue.
Record t := mk {
  title : string;
  description : string;
  category : string;
  status : option (option string);
  latitude : Decimal8;
  longitude : Decimal8;
  address : option string;
  photos : option (list string);
  reporterId : option string;
  isAnonymous : option (option bool) }.
End InsertIssue.

Module InsertIssueStatusLog.
Record t := mk {
  issueId : string;
  oldStatus : option string;
  newStatus : string;
  changedBy : option string;
  notes : option string }.
End InsertIssueStatusLog.

Module InsertIssueFlag.
Record t := mk {
  issueId : string;
  flaggerId : string;
  reason : option string }.
End InsertIssueFlag.

Module InsertIssueVote.
Record t := mk {
  issueId : string;
  voterId : string }.
End InsertIssueVote.

(** ** The store *)

Record Store := mkStore {
  users : list User.t;
  issues : list Issue.t;
  issueFlags : list IssueFlag.t;
  issueVotes : list IssueVote.t;
  issueStatusLogs : list IssueStatusLog.t }.

Definition with_users (v : list User.t) (s : Store) : Store :=
  mkStore v (issues s) (issueFlags s) (issueVotes s) (issueStatusLogs s).
Definition with_issues (v : list Issue.t) (s : Store) : Store :=
  mkStore (users s) v (issueFlags s) (issueVotes s) (issueStatusLogs s).
Definition with_issueFlags (v : list IssueFlag.t) (s : Store) : Store :=
  mkStore (users s) (issues s) v (issueVotes s) (issueStatusLogs s).
Definition with_issueVotes (v : list IssueVote.t) (s : Store) : Store :=
  mkStore (users s) (issues s) (issueFlags s) v (issueStatusLogs s).
Definition with_issueStatusLogs (v : list IssueStatusLog.t) (s : Store) : Store :=
  mkStore (users s) (issues s) (issueFlags s) (issueVotes s) v.

Definition empty_store : Store := mkStore [] [] [] [] [].

(** ** Methods that read and write the store, and may throw *)

Inductive Outcome (A : Type) :=
  | Return (a : A)
  | Throw (e : Exn).
Arguments Return {A} a.
Arguments Throw {A} e.

Definition Db (A : Type) : Type := Store → Outcome A * Store.

Definition ret {A} (a : A) : Db A := λ s, (Return a, s).
Definition throw {A} (e : Exn) : Db A := λ s, (Throw e, s).
Definition bind {A B} (m : Db A) (k : A → Db B) : Db B :=
  λ s, match m s with
       | (Return a, s') => k a s'
       | (Throw e, s') => (Throw e, s')
       end.
Definition gets {A} (f : Store → A) : Db A := λ s, (Return (f s), s).
Definition modify (f : Store → Store) : Db unit := λ s, (Return tt, f s).

Notation "'let*' x ':=' m 'in' k" := (bind m (λ x, k))
  (at level 10, x name, m at level 100, k at level 200, only parsing).

(** The store a method leaves, and what it returned or threw. *)
Definition exec {A} (m : Db A) (s : Store) : Store := snd (m s).
Definition eval {A} (m : Db A) (s : Store) : Outcome A := fst (m s).

(** ** The query builder

    A condition maps a row to SQL's true, false or unknown ([None]);
    a statement touches the rows on which its condition is true. *)

Section Query.
Context {R : Type}.

Definition Cond := R → option bool.

Definition eq {A} `{EqDecision A} (col : R → option A) (v : A) : Cond :=
  λ r, (λ x, bool_decide (x = v)) <$> col r.

Definition gte (col : R → option Z) (v : Z) : Cond :=
  λ r, (λ x, bool_decide (v ≤ x)) <$> col r.

Definition and3 (a b : option bool) : option bool :=
  match a, b with
  | Some false, _ | _, Some false => Some false
  | Some true, Some true => Some true
  | _, _ => None
  end.

(** [and(c1, ..., cn)]: an [undefined] argument is dropped. *)
Definition and (cs : list (option Cond)) : Cond :=
  λ r, foldr (λ c acc, match c with
                       | Some c => and3 (c r) acc
                       | None => acc
                       end) (Some true) cs.

Definition holds (w : Cond) (r : R) : Prop := w r = Some true.

#[global] Instance holds_dec w r : Decision (holds w r).
Proof. unfold holds. apply _. Defined.

(** [select().from(t).where(w)] *)
Definition select_where (w : Cond) (t : list R) : list R :=
  filter (holds w) t.

(** [update(t).set(f).where(w)] on the rows, before any check. *)
Definition set_where (f : R → R) (w : Cond) (t : list R) : list R :=
  (λ r, if decide (holds w r) then f r else r) <$> t.

(** The first violated column type among the rows, if any. *)
Definition first_error (check : R → option PgError) (t : list R)
  : option PgError :=
  head (omap check t).
End Query.

(** A column that is declared [notNull] or is a primary key. *)
Definition col {R A} (f : R → A) : R → option A := λ r, Some (f r).

(** ** Statements on the tables of the schema *)

(** [references(() => t.id)]: a non-null reference needs its row. *)
Definition references (ids : list string) (v : option string) : bool :=
  match v with
  | Some k => bool_decide (k ∈ ids)
  | None => true
  end.

Arguments references : simpl never.

Definition user_ids (s : Store) : list string := User.id <$> users s.
Definition issue_ids (s : Store) : list string := Issue.id <$> issues s.

(** [db.insert(issues).values(issue).returning()] *)
Definition insert_issue (row : Issue.t) : Db Issue.t :=
  λ s,
    match Issue.check row with
    | Some e => (Throw (DatabaseError e), s)
    | None =>
      if bool_decide (Issue.id row ∈ issue_ids s)
      then (Throw (DatabaseError unique_violation), s)
      else if negb (references (user_ids s) (Issue.reporterId row))
      then (Throw (DatabaseError foreign_key_violation), s)
      else (Return row, with_issues (issues s ++ [row]) s)
    end.

(** [db.update(issues).set(values).where(w).returning()]: one statement,
    so either every row is written or none is. *)
Definition update_issues (values : list Issue.Assign) (w : Cond)
  : Db (list Issue.t) :=
  λ s,
    match first_error (Issue.set_check values) (select_where w (issues s)) with
    | Some e => (Throw (DatabaseError e), s)
    | None => (Return (Issue.set values <$> select_where w (issues s)),
               with_issues (set_where (Issue.set values) w (issues s)) s)
    end.

Definition insert_issueStatusLog (row : IssueStatusLog.t) : Db unit :=
  λ s,
    match IssueStatusLog.check row with
    | Some e => (Throw (DatabaseError e), s)
    | None =>
      if bool_decide (IssueStatusLog.id row ∈ IssueStatusLog.id <$> issueStatusLogs s)
      then (Throw (DatabaseError unique_violation), s)
      else if negb (references (issue_ids s) (Some (IssueStatusLog.issueId row))
                    && references (user_ids s) (IssueStatusLog.changedBy row))
      then (Throw (DatabaseError foreign_key_violation), s)
      else (Return tt, with_issueStatusLogs (issueStatusLogs s ++ [row]) s)
    end.

Definition insert_issueFlag (row : IssueFlag.t) : Db unit :=
  λ s,
    match IssueFlag.check row with
    | Some e => (Throw (DatabaseError e), s)
    | None =>
      if bool_decide (IssueFlag.id row ∈ IssueFlag.id <$> issueFlags s)
      then (Throw (DatabaseError unique_violation), s)
      else if negb (references (issue_ids s) (Some (IssueFlag.issueId row))
                    && references (user_ids s) (Some (IssueFlag.flaggerId row)))
      then (Throw (DatabaseError foreign_key_violation), s)
      else (Return tt, with_issueFlags (issueFlags s ++ [row]) s)
    end.

Definition insert_issueVote (row : IssueVote.t) : Db unit :=
  λ s,
    if bool_decide (IssueVote.id row ∈ IssueVote.id <$> issueVotes s)
    then (Throw (DatabaseError unique_violation), s)
    else if negb (references (issue_ids s) (Some (IssueVote.issueId row))
                  && references (user_ids s) (Some (IssueVote.voterId row)))
    then (Throw (DatabaseError foreign_key_violation), s)
    else (Return tt, with_issueVotes (issueVotes s ++ [row]) s).

(** [db.update(users).set(f).where(w)] *)
Definition update_users (f : User.t → User.t) (w : Cond) : Db unit :=
  modify (λ s, with_users (set_where f w (users s)) s).

(** ** [DatabaseStorage]: users *)

Definition getUser (id : string) : Db (option User.t) :=
  gets (λ s, head (select_where (eq (col User.id) id) (users s))).

Module UpsertUser.
(** [typeof users.$inferInsert]: every key may be left out. *)
Record t := mk {
  id : option string;
  email : option (option string);
  firstName : option (option string);
  lastName : option (option string);
  profileImageUrl : option (option string);
  isAdmin : option (option bool);
  isBanned : option (option bool);
  createdAt : option (option Timestamp);
  updatedAt : option (option Timestamp) }.

(** The row a plain insert writes: defaults where a key is left out. *)
Definition to_row (uuid : string) (now : Timestamp) (u : t) : User.t :=
  User.mk (default uuid (id u)) (default None (email u))
    (default None (firstName u)) (default None (lastName u))
    (default None (profileImageUrl u)) (default (Some false) (isAdmin u))
    (default (Some false) (isBanned u)) (default (Some now) (createdAt u))
    (default (Some now) (updatedAt u)).

(** [set: { ...userData, updatedAt: new Date() }] on the row in conflict. *)
Definition set (now : Timestamp) (u : t) (r : User.t) : User.t :=
  User.mk (default (User.id r) (id u)) (default (User.email r) (email u))
    (default (User.firstName r) (firstName u))
    (default (User.lastName r) (lastName u))
    (default (User.profileImageUrl r) (profileImageUrl u))
    (default (User.isAdmin r) (isAdmin u))
    (default (User.isBanned r) (isBanned u))
    (default (User.createdAt r) (createdAt u)) (Some now).
End UpsertUser.

(** [email] is declared [unique()]: no other row may hold the same
    non-null email. *)
Definition email_taken (self : string) (e : option string) (t : list User.t) : bool :=
  match e with
  | Some _ => bool_decide (Exists (λ r, User.id r ≠ self ∧ User.email r = e) t)
  | None => false
  end.

Definition upsertUser (uuid : string) (now : Timestamp) (userData : UpsertUser.t)
  : Db User.t :=
  λ s,
    let row := UpsertUser.to_row uuid now userData in
    match head (select_where (eq (col User.id) (User.id row)) (users s)) with
    | Some old =>
      let new := UpsertUser.set now userData old in
      if email_taken (User.id new) (User.email new) (users s)
      then (Throw (DatabaseError unique_violation), s)
      else (Return new,
            with_users (set_where (UpsertUser.set now userData)
                          (eq (col User.id) (User.id row)) (users s)) s)
    | None =>
      if email_taken (User.id row) (User.email row) (users s)
      then (Throw (DatabaseError unique_violation), s)
      else (Return row, with_users (users s ++ [row]) s)
    end.

Definition banUser (userId : string) : Db unit :=
  update_users (User.set_isBanned (Some true)) (eq (col User.id) userId).

Definition unbanUser (userId : string) : Db unit :=
  update_users (User.set_isBanned (Some false)) (eq (col User.id) userId).

(** ** [DatabaseStorage]: issues *)

Definition createIssue (uuid : string) (now : Timestamp) (issue : InsertIssue.t)
  : Db Issue.t :=
  insert_issue
    (Issue.mk uuid (InsertIssue.title issue) (InsertIssue.description issue)
       (InsertIssue.category issue)
       (default (Some "reported") (InsertIssue.status issue))
       (InsertIssue.latitude issue) (InsertIssue.longitude issue)
       (InsertIssue.address issue) (InsertIssue.photos issue)
       (InsertIssue.reporterId issue)
       (default (Some false) (InsertIssue.isAnonymous issue))
       (Some false) (Some 0) (Some 1) (Some now) (Some now)).

Definition getIssue (id : string) : Db (option Issue.t) :=
  gets (λ s, head (select_where (eq (col Issue.id) id) (issues s))).

Definition createStatusLog (uuid : string) (now : Timestamp)
    (log : InsertIssueStatusLog.t) : Db unit :=
  insert_issueStatusLog
    (IssueStatusLog.mk uuid (InsertIssueStatusLog.issueId log)
       (InsertIssueStatusLog.oldStatus log) (InsertIssueStatusLog.newStatus log)
       (InsertIssueStatusLog.changedBy log) (InsertIssueStatusLog.notes log)
       (Some now)).

Definition updateIssueStatus (uuid : string) (now : Timestamp)
    (id status changedBy : string) (notes : option string)
  : Db (option Issue.t) :=
  let* currentIssue := getIssue id in
  match currentIssue with
  | None => ret None
  | Some currentIssue =>
    let* updated :=
      update_issues
        [Issue.status_to (Some status); Issue.updatedAt_to (Some now)]
        (eq (col Issue.id) id) in
    match head updated with
    | Some updatedIssue =>
      let* _ := createStatusLog uuid now
                  (InsertIssueStatusLog.mk id (Issue.status currentIssue)
                     status (Some changedBy) notes) in
      ret (Some updatedIssue)
    | None => ret None
    end
  end.

Definition hideIssue (id : string) : Db unit :=
  let* _ := update_issues [Issue.isHidden_to (Some true)]
              (eq (col Issue.id) id) in
  ret tt.

Definition incrementIssueReportCount (id : string) : Db unit :=
  let* _ := update_issues
              [Issue.reportCount_to (λ r, (λ n, n + 1) <$> Issue.reportCount r)]
              (eq (col Issue.id) id) in
  ret tt.

(** ** [DatabaseStorage]: flags and votes *)

Definition incrementIssueFlagCount (issueId : string) : Db unit :=
  let* _ := update_issues
              [Issue.flagCount_to (λ r, (λ n, n + 1) <$> Issue.flagCount r)]
              (eq (col Issue.id) issueId) in
  let* _ := update_issues [Issue.isHidden_to (Some true)]
              (and [Some (eq (col Issue.id) issueId);
                    Some (gte Issue.flagCount 5)]) in
  ret tt.

Definition flagIssue (uuid : string) (now : Timestamp) (flag : InsertIssueFlag.t)
  : Db unit :=
  let* _ := insert_issueFlag
              (IssueFlag.mk uuid (InsertIssueFlag.issueId flag)
                 (InsertIssueFlag.flaggerId flag) (InsertIssueFlag.reason flag)
                 (Some now)) in
  incrementIssueFlagCount (InsertIssueFlag.issueId flag).

Definition getUserFlaggedIssue (issueId userId : string) : Db (option IssueFlag.t) :=
  gets (λ s, head (select_where
                     (and [Some (eq (col IssueFlag.issueId) issueId);
                           Some (eq (col IssueFlag.flaggerId) userId)])
                     (issueFlags s))).

Definition voteForIssue (uuid : string) (now : Timestamp) (vote : InsertIssueVote.t)
  : Db unit :=
  let* _ := insert_issueVote
              (IssueVote.mk uuid (InsertIssueVote.issueId vote)
                 (InsertIssueVote.voterId vote) (Some now)) in
  incrementIssueReportCount (InsertIssueVote.issueId vote).

Definition getUserVoteForIssue (issueId userId : string) : Db (option IssueVote.t) :=
  gets (λ s, head (select_where
                     (and [Some (eq (col IssueVote.issueId) issueId);
                           Some (eq (col IssueVote.voterId) userId)])
                     (issueVotes s))).

(** ** Ordering and grouping *)

Section OrderBy.
Context {R : Type} (key : R → option Z).

(** [orderBy(desc(key))]: PostgreSQL puts nulls first when descending. *)
Definition desc : relation R :=
  λ a b, match key a, key b with
         | None, _ => True
         | Some _, None => False
         | Some x, Some y => y ≤ x
         end.

#[global] Instance desc_dec : RelDecision desc.
Proof.
  intros a b. unfold desc.
  destruct (key a), (key b); apply _.
Defined.

#[global] Instance desc_total : Total desc.
Proof.
  intros a b. unfold desc.
  destruct (key a), (key b); auto. lia.
Qed.

#[global] Instance desc_trans : Transitive desc.
Proof.
  intros a b c. unfold desc.
  destruct (key a), (key b), (key c); auto; try tauto. lia.
Qed.

Definition orderBy_desc (t : list R) : list R := merge_sort desc t.
End OrderBy.

(** [select({ k: key, count: count() }).groupBy(key)]: one row per value
    of the key, null being a value of its own. *)
Definition group_count {R K} `{EqDecision K} (key : R → K) (t : list R)
  : list (K * Z) :=
  (λ k, (k, Z.of_nat (length (filter (λ r, key r = k) t))))
    <$> remove_dups (key <$> t).

(** ** [DatabaseStorage]: status logs and admin queries *)

Definition getIssueStatusLogs (issueId : string) : Db (list IssueStatusLog.t) :=
  gets (λ s, orderBy_desc IssueStatusLog.createdAt
               (select_where (eq (col IssueStatusLog.issueId) issueId)
                  (issueStatusLogs s))).

Definition getFlaggedIssues : Db (list Issue.t) :=
  gets (λ s, orderBy_desc Issue.flagCount
               (select_where (gte Issue.flagCount 1) (issues s))).

Record Analytics := mkAnalytics {
  totalIssues : Z;
  issuesByCategory : gmap string Z;
  issuesByStatus : gmap string Z }.

(** A JavaScript string used as a condition: only the empty one is false. *)
Definition truthy (s : string) : bool := bool_decide (s ≠ "").

Definition getIssueAnalytics : Db Analytics :=
  gets (λ s,
    let visible := select_where (eq Issue.isHidden false) (issues s) in
    let totalIssues := [Z.of_nat (length visible)] in
    let categoryStats := group_count Issue.category visible in
    let statusStats := group_count Issue.status visible in
    let issuesByCategory :=
      foldl (λ (acc : gmap string Z) stat, <[stat.1 := stat.2]> acc)
        ∅ categoryStats in
    let issuesByStatus :=
      foldl (λ (acc : gmap string Z) stat,
               match stat.1 with
               | Some status =>
                 if truthy status then <[status := stat.2]> acc else acc
               | None => acc
               end)
        ∅ statusStats in
    mkAnalytics
      (match head totalIssues with
       | Some n => if bool_decide (n = 0) then 0 else n
       | None => 0
       end)
      issuesByCategory issuesByStatus).

(** ** [DatabaseStorage]: the proximity query

    PostgreSQL evaluates the distance in double precision; here it is the
    same expression over the real numbers. *)

#[global] Instance Rle_decision (x y : R) : Decision (x <= y)%R := Rle_dec x y.

Definition decimal8_value (v : Decimal8) : R := (IZR v / 100000000)%R.

Definition radians (d : R) : R := (d * PI / 180)%R.

Definition distanceQuery (latitude longitude : R) (r : Issue.t) : R :=
  (6371 * acos (
     cos (radians latitude) * cos (radians (decimal8_value (Issue.latitude r))) *
     cos (radians (decimal8_value (Issue.longitude r)) - radians longitude) +
     sin (radians latitude) * sin (radians (decimal8_value (Issue.latitude r)))))%R.

Module Filters.
Record t := mk {
  category : option string;
  status : option string;
  limit : option nat;
  offset : option nat }.
End Filters.

(** [value ? eq(column, value) : undefined] *)
Definition if_truthy {R} (v : option string) (c : string → @Cond R)
  : option (@Cond R) :=
  match v with
  | Some x => if truthy x then Some (c x) else None
  | None => None
  end.

Definition nearby_where (latitude longitude radiusKm : R) (filters : Filters.t)
  : @Cond Issue.t :=
  and [ Some (λ r, Some (bool_decide
                           (distanceQuery latitude longitude r <= radiusKm)%R));
        Some (eq Issue.isHidden false);
        if_truthy (Filters.category filters) (eq (col Issue.category));
        if_truthy (Filters.status filters) (eq Issue.status) ].

Definition getIssuesNearLocation (latitude longitude radiusKm : R)
    (filters : Filters.t) : Db (list Issue.t) :=
  let limit := default 50%nat (Filters.limit filters) in
  let offset := default 0%nat (Filters.offset filters) in
  gets (λ s,
    take limit (drop offset
      (orderBy_desc Issue.createdAt
         (select_where (nearby_where latitude longitude radiusKm filters)
            (issues s))))).

(** ** The zod insert schemas

    [createInsertSchema] derives a key per column: required when the column
    is [notNull] without default, a string capped at the length of its
    [varchar].  [parse] throws a [ZodError] on a value that does not fit and
    strips the keys that the schema leaves out. *)

Module IssueBody.
(** [req.body] of [POST /api/issues]: the text fields of the multipart
    form, each present or not.  [latitude] and [longitude] hold what
    [parseFloat] makes of their fields, [None] standing for [NaN]; the
    schema is taken to accept every other number as the decimal it
    denotes. *)
Record t := mk {
  title : option string;
  description : option string;
  category : option string;
  status : option string;
  address : option string;
  latitude : option Decimal8;
  longitude : option Decimal8;
  isAnonymous : option string }.
End IssueBody.

Module IssueForm.
(** The object handed to [insertIssueSchema.parse]: the fields of the
    body, overridden by the keys the handler computes. *)
Record t := mk {
  title : option string;
  description : option string;
  category : option string;
  status : option string;
  address : option string;
  latitude : option Decimal8;
  longitude : option Decimal8;
  reporterId : option string;
  isAnonymous : bool;
  photos : list string }.
End IssueForm.

Definition insertIssueSchema_parse (o : IssueForm.t) : Db InsertIssue.t :=
  match IssueForm.title o, IssueForm.description o, IssueForm.category o,
        IssueForm.latitude o, IssueForm.longitude o with
  | Some title, Some description, Some category, Some latitude, Some longitude =>
    if varchar 255 (Some title) && varchar 50 (Some category)
       && varchar 20 (IssueForm.status o)
    then ret (InsertIssue.mk title description category
                (Some <$> IssueForm.status o) latitude longitude
                (IssueForm.address o) (Some (IssueForm.photos o))
                (IssueForm.reporterId o) (Some (Some (IssueForm.isAnonymous o))))
    else throw ZodError
  | _, _, _, _, _ => throw ZodError
  end.

Definition insertIssueFlagSchema_parse (issueId flaggerId : string)
    (reason : option string) : Db InsertIssueFlag.t :=
  if varchar 100 reason
  then ret (InsertIssueFlag.mk issueId flaggerId reason)
  else throw ZodError.

Definition insertIssueVoteSchema_parse (issueId voterId : string)
  : Db InsertIssueVote.t :=
  ret (InsertIssueVote.mk issueId voterId).

(** ** The request handlers *)

Inductive Body :=
  | Message (message : string)
  | IssueJson (issue : Issue.t).

Record Response := mkResponse {
  statusCode : Z;
  body : Body }.

(** [res.status(code).json({ message })] *)
Definition respond (code : Z) (message : string) : Db Response :=
  ret (mkResponse code (Message message)).

(** [try { ... } catch (error) { ... }]: with [zod] set, a [ZodError] is
    answered with 400; everything else thrown is answered with 500. *)
Definition try_catch (zod : bool) (failed : string) (handler : Db Response)
  : Store → Response * Store :=
  λ s, match handler s with
       | (Return r, s') => (r, s')
       | (Throw ZodError, s') =>
         if zod then (mkResponse 400 (Message "Invalid data"), s')
         else (mkResponse 500 (Message failed), s')
       | (Throw (DatabaseError _), s') => (mkResponse 500 (Message failed), s')
       end.

(** [user?.isBanned] and [user?.isAdmin] as conditions. *)
Definition is_banned (user : option User.t) : bool :=
  match user with Some u => default false (User.isBanned u) | None => false end.
Definition is_admin (user : option User.t) : bool :=
  match user with Some u => default false (User.isAdmin u) | None => false end.

(** [POST /api/issues]; [userId] is [req.user.claims.sub], [files] the
    paths of the uploaded photos. *)
Definition post_issues (uuid_issue uuid_log : string) (now : Timestamp)
    (userId : string) (reqBody : IssueBody.t) (files : list string)
  : Store → Response * Store :=
  try_catch true "Failed to create issue" (
    let* user := getUser userId in
    if is_banned user then respond 403 "Account is banned"
    else
      let anonymous := bool_decide (IssueBody.isAnonymous reqBody = Some "true") in
      let* issueData :=
        insertIssueSchema_parse
          (IssueForm.mk (IssueBody.title reqBody) (IssueBody.description reqBody)
             (IssueBody.category reqBody) (IssueBody.status reqBody)
             (IssueBody.address reqBody) (IssueBody.latitude reqBody)
             (IssueBody.longitude reqBody)
             (if anonymous then None else Some userId) anonymous files) in
      let* issue := createIssue uuid_issue now issueData in
      let* _ := createStatusLog uuid_log now
                  (InsertIssueStatusLog.mk (Issue.id issue) None "reported"
                     (Some userId) (Some "Issue reported")) in
      ret (mkResponse 201 (IssueJson issue))).

(** [POST /api/issues/:id/flag] *)
Definition post_flag (uuid : string) (now : Timestamp) (userId issueId : string)
    (reason : option string) : Store → Response * Store :=
  try_catch true "Failed to flag issue" (
    let* existingFlag := getUserFlaggedIssue issueId userId in
    match existingFlag with
    | Some _ => respond 400 "Issue already flagged by user"
    | None =>
      let* flagData := insertIssueFlagSchema_parse issueId userId reason in
      let* _ := flagIssue uuid now flagData in
      respond 201 "Issue flagged successfully"
    end).

(** [POST /api/issues/:id/vote] *)
Definition post_vote (uuid : string) (now : Timestamp) (userId issueId : string)
  : Store → Response * Store :=
  try_catch true "Failed to record vote" (
    let* existingVote := getUserVoteForIssue issueId userId in
    match existingVote with
    | Some _ => respond 400 "User already voted for this issue"
    | None =>
      let* voteData := insertIssueVoteSchema_parse issueId userId in
      let* _ := voteForIssue uuid now voteData in
      respond 201 "Vote recorded successfully"
    end).

(** [PATCH /api/admin/issues/:id/status] *)
Definition patch_status (uuid : string) (now : Timestamp) (userId id : string)
    (status : string) (notes : option string) : Store → Response * Store :=
  try_catch false "Failed to update issue status" (
    let* user := getUser userId in
    if negb (is_admin user) then respond 403 "Admin access required"
    else
      let* updatedIssue := updateIssueStatus uuid now id status userId notes in
      match updatedIssue with
      | None => respond 404 "Issue not found"
      | Some issue => ret (mkResponse 200 (IssueJson issue))
      end).

(** [PATCH /api/admin/issues/:id/hide] *)
Definition patch_hide (userId id : string) : Store → Response * Store :=
  try_catch false "Failed to hide issue" (
    let* user := getUser userId in
    if negb (is_admin user) then respond 403 "Admin access required"
    else
      let* _ := hideIssue id in
      respond 200 "Issue hidden successfully").

(** [PATCH /api/admin/users/:id/ban] and [.../unban] *)
Definition patch_ban (userId id : string) : Store → Response * Store :=
  try_catch false "Failed to ban user" (
    let* user := getUser userId in
    if negb (is_admin user) then respond 403 "Admin access required"
    else
      let* _ := banUser id in
      respond 200 "User banned successfully").

Definition patch_unban (userId id : string) : Store → Response * Store :=
  try_catch false "Failed to unban user" (
    let* user := getUser userId in
    if negb (is_admin user) then respond 403 "Admin access required"
    else
      let* _ := unbanUser id in
      respond 200 "User unbanned successfully").

(** The requests that write, each with what its handler draws. *)
Inductive Request :=
  | PostIssues (uuid_issue uuid_log : string) (now : Timestamp)
      (userId : string) (reqBody : IssueBody.t) (files : list string)
  | PostFlag (uuid : string) (now : Timestamp) (userId issueId : string)
      (reason : option string)
  | PostVote (uuid : string) (now : Timestamp) (userId issueId : string)
  | PatchStatus (uuid : string) (now : Timestamp) (userId id status : string)
      (notes : option string)
  | PatchHide (userId id : string)
  | PatchBan (userId id : string)
  | PatchUnban (userId id : string).

Definition handle (q : Request) : Store → Response * Store :=
  match q with
  | PostIssues uuid_issue uuid_log now userId reqBody files =>
    post_issues uuid_issue uuid_log now userId reqBody files
  | PostFlag uuid now userId issueId reason =>
    post_flag uuid now userId issueId reason
  | PostVote uuid now userId issueId => post_vote uuid now userId issueId
  | PatchStatus uuid now userId id status notes =>
    patch_status uuid now userId id status notes
  | PatchHide userId id => patch_hide userId id
  | PatchBan userId id => patch_ban userId id
  | PatchUnban userId id => patch_unban userId id
  end.

(** ** Every method of [IStorage] that writes *)

Inductive Write :=
  | UpsertUser (uuid : string) (now : Timestamp) (userData : UpsertUser.t)
  | CreateIssue (uuid : string) (now : Timestamp) (issue : InsertIssue.t)
  | UpdateIssueStatus (uuid : string) (now : Timestamp)
      (id status changedBy : string) (notes : option string)
  | HideIssue (id : string)
  | IncrementIssueReportCount (id : string)
  | FlagIssue (uuid : string) (now : Timestamp) (flag : InsertIssueFlag.t)
  | IncrementIssueFlagCount (issueId : string)
  | VoteForIssue (uuid : string) (now : Timestamp) (vote : InsertIssueVote.t)
  | CreateStatusLog (uuid : string) (now : Timestamp) (log : InsertIssueStatusLog.t)
  | BanUser (userId : string)
  | UnbanUser (userId : string).

Definition perform (w : Write) (s : Store) : Store :=
  match w with
  | UpsertUser uuid now userData => exec (upsertUser uuid now userData) s
  | CreateIssue uuid now issue => exec (createIssue uuid now issue) s
  | UpdateIssueStatus uuid now id status changedBy notes =>
    exec (updateIssueStatus uuid now id status changedBy notes) s
  | HideIssue id => exec (hideIssue id) s
  | IncrementIssueReportCount id => exec (incrementIssueReportCount id) s
  | FlagIssue uuid now flag => exec (flagIssue uuid now flag) s
  | IncrementIssueFlagCount issueId => exec (incrementIssueFlagCount issueId) s
  | VoteForIssue uuid now vote => exec (voteForIssue uuid now vote) s
  | CreateStatusLog uuid now log => exec (createStatusLog uuid now log) s
  | BanUser userId => exec (banUser userId) s
  | UnbanUser userId => exec (unbanUser userId) s
  end.

(** ** The request handlers that only read *)

(** What such a handler gives to [res.json]: [{ message }], or the value
    that was asked for. *)
Inductive Answer (A : Type) :=
  | Refused (message : string)
  | Sent (value : A).

Arguments Refused {A} message.
Arguments Sent {A} value.

Record Reply (A : Type) := mkReply {
  replyCode : Z;
  replyBody : Answer A }.

Arguments mkReply {A} replyCode replyBody.
Arguments replyCode {A} r.
Arguments replyBody {A} r.

(** [res.status(code).json({ message })] and [res.json(value)] *)
Definition refuse {A} (code : Z) (message : string) : Db (Reply A) :=
  ret (mkReply code (Refused message)).

Definition send {A} (value : A) : Db (Reply A) :=
  ret (mkReply 200 (Sent value)).

(** [try { ... } catch (error) { res.status(500).json({ message }) }] *)
Definition try_catch_500 {A} (failed : string) (handler : Db (Reply A))
  : Store → Reply A * Store :=
  λ s, match handler s with
       | (Return r, s') => (r, s')
       | (Throw _, s') => (mkReply 500 (Refused failed), s')
       end.

(** [GET /api/auth/user] *)
Definition get_auth_user (userId : string) : Store → Reply User.t * Store :=
  try_catch_500 "Failed to fetch user" (
    let* user := getUser userId in
    match user with
    | None => refuse 404 "User not found"
    | Some user => send user
    end).

(** [GET /api/issues/:id] *)
Definition get_issue (id : string) : Store → Reply Issue.t * Store :=
  try_catch_500 "Failed to fetch issue" (
    let* issue := getIssue id in
    match issue with
    | None => refuse 404 "Issue not found"
    | Some issue => send issue
    end).

(** [GET /api/issues/:id/status-logs] *)
Definition get_status_logs (id : string)
  : Store → Reply (list IssueStatusLog.t) * Store :=
  try_catch_500 "Failed to fetch status logs" (
    let* logs := getIssueStatusLogs id in
    send logs).

(** [GET /api/admin/issues/flagged] *)
Definition get_admin_flagged (userId : string)
  : Store → Reply (list Issue.t) * Store :=
  try_catch_500 "Failed to fetch flagged issues" (
    let* user := getUser userId in
    if negb (is_admin user) then refuse 403 "Admin access required"
    else
      let* flaggedIssues := getFlaggedIssues in
      send flaggedIssues).

(** [GET /api/admin/analytics] *)
Definition get_admin_analytics (userId : string)
  : Store → Reply Analytics * Store :=
  try_catch_500 "Failed to fetch analytics" (
    let* user := getUser userId in
    if negb (is_admin user) then refuse 403 "Admin access required"
    else
      let* analytics := getIssueAnalytics in
      send analytics).

(** * The vocabulary of the properties *)

(** ** Issues, users and rows of the store *)

(** The issue [getIssue] finds in a store. *)
Definition stored (s : Store) (id : string) : option Issue.t :=
  match eval (getIssue id) s with
  | Return issue => issue
  | Throw _ => None
  end.

(** The same on the rows of the table, whatever store they are put in. *)
Definition find_by_id (id : string) (t : list Issue.t) : option Issue.t :=
  head (select_where (eq (col Issue.id) id) t).

(** Two rows that agree on every column but [isHidden]. *)
Definition same_but_isHidden (r r' : Issue.t) : Prop :=
  Issue.id r' = Issue.id r ∧ Issue.title r' = Issue.title r
  ∧ Issue.description r' = Issue.description r
  ∧ Issue.category r' = Issue.category r ∧ Issue.status r' = Issue.status r
  ∧ Issue.latitude r' = Issue.latitude r ∧ Issue.longitude r' = Issue.longitude r
  ∧ Issue.address r' = Issue.address r ∧ Issue.photos r' = Issue.photos r
  ∧ Issue.reporterId r' = Issue.reporterId r
  ∧ Issue.isAnonymous r' = Issue.isAnonymous r
  ∧ Issue.flagCount r' = Issue.flagCount r
  ∧ Issue.reportCount r' = Issue.reportCount r
  ∧ Issue.createdAt r' = Issue.createdAt r
  ∧ Issue.updatedAt r' = Issue.updatedAt r.

(** An issue that has been flagged at least once. *)
Definition flagged (i : Issue.t) : Prop :=
  match Issue.flagCount i with
  | Some n => 1 ≤ n
  | None => False
  end.

#[global] Instance flagged_dec i : Decision (flagged i).
Proof. unfold flagged. destruct (Issue.flagCount i); apply _. Defined.

(** An issue the public may see. *)
Definition visible (i : Issue.t) : Prop := Issue.isHidden i = Some false.

(** How many rows of a table satisfy a property. *)
Definition how_many {A} (P : A → Prop) `{∀ x, Decision (P x)} (t : list A) : Z :=
  Z.of_nat (length (filter P t)).

(** A filter is asked for when it is given and is not the empty string. *)
Definition asked (v : option string) (P : string → Prop) : Prop :=
  match v with
  | Some x => x ≠ "" → P x
  | None => True
  end.

#[global] Instance asked_dec v P `{∀ x, Decision (P x)} : Decision (asked v P).
Proof. unfold asked. destruct v; apply _. Defined.

(** What the query asks of an issue: within the radius, not hidden, and of
    the category and the status asked for, where one is asked for. *)
Definition nearby (latitude longitude radiusKm : R) (filters : Filters.t)
    (i : Issue.t) : Prop :=
  (distanceQuery latitude longitude i <= radiusKm)%R
  ∧ Issue.isHidden i = Some false
  ∧ asked (Filters.category filters) (λ c, Issue.category i = c)
  ∧ asked (Filters.status filters) (λ st, Issue.status i = Some st).

#[global] Instance nearby_dec latitude longitude radiusKm filters i :
  Decision (nearby latitude longitude radiusKm filters i).
Proof. unfold nearby. apply _. Defined.

(** A relation between the store before and after that holds along a
    method once it holds along each statement of it. *)
Definition preserves (P : relation Store) {A} (m : Db A) : Prop :=
  ∀ s, P s (exec m s).

(** A [set] along which a relation holds, on every row it may be given. *)
Definition safe_set (P : relation Store) (values : list Issue.Assign) : Prop :=
  ∀ s (w : Cond),
    first_error (Issue.set_check values) (select_where w (issues s)) = None →
    P s (with_issues (set_where (Issue.set values) w (issues s)) s).

(** What PostgreSQL maintains of the [issues] table: the primary key and
    the column types. *)
Definition consistent (s : Store) : Prop :=
  NoDup (issue_ids s) ∧ Forall (λ r, Issue.check r = None) (issues s).

(** The stores the server can be in: the empty one, and those a request
    or a call of a writing method of the storage leads to. *)
Inductive reachable : Store → Prop :=
  | reachable_empty : reachable empty_store
  | reachable_handle q s : reachable s → reachable (handle q s).2
  | reachable_perform w s : reachable s → reachable (perform w s).

(** The issue found under an id is hidden. *)
Definition hidden (s : Store) (id : string) : Prop :=
  ∃ i, stored s id = Some i ∧ Issue.isHidden i = Some true.

(** Whatever is hidden before is hidden after. *)
Definition never_unhides : relation Store :=
  λ s s', ∀ id, hidden s id → hidden s' id.

(** The issue as [incrementIssueFlagCount] leaves it. *)
Definition flagged_once (i : Issue.t) : Issue.t :=
  let i1 := Issue.set_flagCount ((λ n, n + 1) <$> Issue.flagCount i) i in
  match Issue.flagCount i1 with
  | Some n => if decide (5 ≤ n) then Issue.set_isHidden (Some true) i1 else i1
  | None => i1
  end.

(** A table, or any other view of the store, is the same before and
    after. *)
Definition keeps {X} (table : Store → X) : relation Store :=
  λ s s', table s' = table s.

(** The user has a flag, or a vote, on the issue. *)
Definition has_flagged (s : Store) (issueId userId : string) : Prop :=
  ∃ f, f ∈ issueFlags s ∧ IssueFlag.issueId f = issueId
       ∧ IssueFlag.flaggerId f = userId.

Definition has_voted (s : Store) (issueId userId : string) : Prop :=
  ∃ v, v ∈ issueVotes s ∧ IssueVote.issueId v = issueId
       ∧ IssueVote.voterId v = userId.

(** The (issue, user) pair of every flag, and of every vote, row by row. *)
Definition flag_pairs (s : Store) : list (string * string) :=
  (λ f, (IssueFlag.issueId f, IssueFlag.flaggerId f)) <$> issueFlags s.

Definition vote_pairs (s : Store) : list (string * string) :=
  (λ v, (IssueVote.issueId v, IssueVote.voterId v)) <$> issueVotes s.


(** One flag request of a sequence, with what its handler draws. *)
Record FlagRequest := mkFlagRequest {
  fr_uuid : string;
  fr_now : Timestamp;
  fr_userId : string;
  fr_reason : option string }.

(** The flag requests of a list, one after the other, on one issue. *)
Definition flag_all (issueId : string) (reqs : list FlagRequest) (s : Store)
  : Store :=
  foldl (λ s q, (post_flag (fr_uuid q) (fr_now q) (fr_userId q) issueId
                   (fr_reason q) s).2) s reqs.

(** A flag request that can be served: by a user of the store who has not
    flagged the issue, with a reason that fits and a row id not in use. *)
Definition can_flag (s : Store) (issueId : string) (q : FlagRequest) : Prop :=
  fr_userId q ∈ user_ids s
  ∧ ¬ has_flagged s issueId (fr_userId q)
  ∧ (fr_uuid q ∉ IssueFlag.id <$> issueFlags s)
  ∧ varchar 100 (fr_reason q) = true.

(** The issue as [updateIssueStatus] leaves it. *)
Definition with_status (status : string) (now : Timestamp) (i : Issue.t)
  : Issue.t :=
  Issue.set_updatedAt (Some now) (Issue.set_status (Some status) i).

(** The user [getUser] finds in a store. *)
Definition user_of (s : Store) (userId : string) : option User.t :=
  match eval (getUser userId) s with
  | Return user => user
  | Throw _ => None
  end.

(** Two rows that agree on every column but [reportCount]. *)
Definition same_but_reportCount (r r' : Issue.t) : Prop :=
  Issue.id r' = Issue.id r ∧ Issue.title r' = Issue.title r
  ∧ Issue.description r' = Issue.description r
  ∧ Issue.category r' = Issue.category r ∧ Issue.status r' = Issue.status r
  ∧ Issue.latitude r' = Issue.latitude r ∧ Issue.longitude r' = Issue.longitude r
  ∧ Issue.address r' = Issue.address r ∧ Issue.photos r' = Issue.photos r
  ∧ Issue.reporterId r' = Issue.reporterId r
  ∧ Issue.isAnonymous r' = Issue.isAnonymous r
  ∧ Issue.isHidden r' = Issue.isHidden r
  ∧ Issue.flagCount r' = Issue.flagCount r
  ∧ Issue.createdAt r' = Issue.createdAt r
  ∧ Issue.updatedAt r' = Issue.updatedAt r.

#[global] Instance consistent_dec s : Decision (consistent s).
Proof. unfold consistent. apply _. Defined.

#[global] Instance has_flagged_decision s issueId userId :
  Decision (has_flagged s issueId userId).
Proof.
  refine (cast_if (decide ((issueId, userId) ∈ flag_pairs s))).
  - apply list_elem_of_fmap in e as (f & [= -> ->] & Hf). by exists f.
  - intros (f & Hf & <- & <-). apply n. apply list_elem_of_fmap. by exists f.
Defined.

#[global] Instance has_voted_decision s issueId userId :
  Decision (has_voted s issueId userId).
Proof.
  refine (cast_if (decide ((issueId, userId) ∈ vote_pairs s))).
  - apply list_elem_of_fmap in e as (v & [= -> ->] & Hv). by exists v.
  - intros (v & Hv & <- & <-). apply n. apply list_elem_of_fmap. by exists v.
Defined.

#[global] Instance can_flag_dec s issueId q : Decision (can_flag s issueId q).
Proof. unfold can_flag. apply _. Defined.

(** ** A sample run *)

(** A user who is not banned. *)
Definition sample_user (id : string) (isAdmin : bool) : User.t :=
  User.mk id None None None None (Some isAdmin) (Some false) (Some 0) (Some 0).

(** An admin and five citizens. *)
Definition sample_users : Store :=
  with_users [sample_user "alice" true; sample_user "bob" false;
              sample_user "carol" false; sample_user "dave" false;
              sample_user "erin" false; sample_user "frank" false]
    empty_store.

(** The form bob sends from (37.7749, -122.4194), with or without a
    [status] field. *)
Definition sample_body (status : option string) : IssueBody.t :=
  IssueBody.mk (Some "Pothole") (Some "A deep pothole on Main Street")
    (Some "roads") status None (Some 3777490000) (Some (-12241940000)) None.

(** The issue bob reports, as it is stored. *)
Definition sample_issue : Issue.t :=
  Issue.mk "i1" "Pothole" "A deep pothole on Main Street" "roads"
    (Some "reported") 3777490000 (-12241940000) None (Some []) (Some "bob")
    (Some false) (Some false) (Some 0) (Some 1) (Some 10) (Some 10).

(** The store after bob has reported it. *)
Definition sample_store : Store :=
  (post_issues "i1" "l1" 10 "bob" (sample_body None) [] sample_users).2.

(** Five flag requests, by five users. *)
Definition sample_flags : list FlagRequest :=
  [mkFlagRequest "f1" 11 "bob" None;
   mkFlagRequest "f2" 12 "carol" (Some "spam");
   mkFlagRequest "f3" 13 "dave" None;
   mkFlagRequest "f4" 14 "erin" (Some "duplicate");
   mkFlagRequest "f5" 15 "frank" None].

(** The store after alice has set the status of the issue to the empty
    string. *)
Definition sample_blank_status : Store :=
  (patch_status "l2" 20 "alice" "i1" "" None sample_store).2.

(** The issue of the sample run once alice has resolved it. *)
Definition sample_resolved : Store :=
  (patch_status "l2" 20 "alice" "i1" "resolved" None sample_store).2.

(** An issue on the equator at the prime meridian, alone in its store. *)
Definition equator_issue : Issue.t :=
  Issue.mk "e1" "Buoy" "A buoy adrift" "safety" (Some "reported") 0 0 None
    (Some []) None (Some true) (Some false) (Some 0) (Some 1) (Some 5) (Some 5).

Definition equator_store : Store := with_issues [equator_issue] empty_store.

(** ** Requests that are turned down *)

(** A response that blames the request: 400, 403 or 404. *)
Definition turned_down (r : Response) : Prop :=
  statusCode r = 400 ∨ statusCode r = 403 ∨ statusCode r = 404.

(** The user is known and is an admin. *)
Definition admin (s : Store) (userId : string) : Prop :=
  ∃ u, user_of s userId = Some u ∧ User.isAdmin u = Some true.

(** The user is known and is banned. *)
Definition banned (s : Store) (userId : string) : Prop :=
  ∃ u, user_of s userId = Some u ∧ User.isBanned u = Some true.

(** A method that throws nothing but what the database raises. *)
Definition database_only {A} (m : Db A) : Prop :=
  ∀ s s', m s ≠ (Throw ZodError, s').

(** ** Reports *)

(** The object [POST /api/issues] hands to [insertIssueSchema.parse]. *)
Definition issue_form (userId : string) (reqBody : IssueBody.t)
    (files : list string) : IssueForm.t :=
  let anonymous := bool_decide (IssueBody.isAnonymous reqBody = Some "true") in
  IssueForm.mk (IssueBody.title reqBody) (IssueBody.description reqBody)
    (IssueBody.category reqBody) (IssueBody.status reqBody)
    (IssueBody.address reqBody) (IssueBody.latitude reqBody)
    (IssueBody.longitude reqBody)
    (if anonymous then None else Some userId) anonymous files.

(** A form the schema refuses: a required field is missing, a coordinate
    is not a number, or a text is longer than its column. *)
Definition refused_by_schema (reqBody : IssueBody.t) : Prop :=
  IssueBody.title reqBody = None
  ∨ IssueBody.description reqBody = None
  ∨ IssueBody.category reqBody = None
  ∨ IssueBody.latitude reqBody = None
  ∨ IssueBody.longitude reqBody = None
  ∨ (∃ title, IssueBody.title reqBody = Some title
              ∧ (255 < String.length title)%nat)
  ∨ (∃ category, IssueBody.category reqBody = Some category
                 ∧ (50 < String.length category)%nat)
  ∨ (∃ status, IssueBody.status reqBody = Some status
               ∧ (20 < String.length status)%nat).

(** ** What a write leaves as it was *)

(** Rows are only ever added at the end of the three logs, and ids at the
    end of the two tables that have their own. *)
Definition append_only : relation Store :=
  λ s s', issueStatusLogs s `prefix_of` issueStatusLogs s'
          ∧ issueFlags s `prefix_of` issueFlags s'
          ∧ issueVotes s `prefix_of` issueVotes s'
          ∧ issue_ids s `prefix_of` issue_ids s'
          ∧ user_ids s `prefix_of` user_ids s'.

(** Every issue stays where it is in the table, related to what it was. *)
Definition rowwise (Q : relation Issue.t) : relation Store :=
  λ s s', ∀ k r, issues s !! k = Some r →
                 ∃ r', issues s' !! k = Some r' ∧ Q r r'.

(** Two rows that hold the same report: they agree on every column that
    comes from the form and on the time of creation. *)
Definition same_report (r r' : Issue.t) : Prop :=
  Issue.id r' = Issue.id r ∧ Issue.title r' = Issue.title r
  ∧ Issue.description r' = Issue.description r
  ∧ Issue.category r' = Issue.category r
  ∧ Issue.latitude r' = Issue.latitude r ∧ Issue.longitude r' = Issue.longitude r
  ∧ Issue.address r' = Issue.address r ∧ Issue.photos r' = Issue.photos r
  ∧ Issue.reporterId r' = Issue.reporterId r
  ∧ Issue.isAnonymous r' = Issue.isAnonymous r
  ∧ Issue.createdAt r' = Issue.createdAt r.

(** A counter that has not gone down; a null one stays null. *)
Definition count_le (a b : option Z) : Prop :=
  match a, b with
  | Some x, Some y => x ≤ y
  | None, None => True
  | _, _ => False
  end.

Definition counts_grow (r r' : Issue.t) : Prop :=
  count_le (Issue.flagCount r) (Issue.flagCount r')
  ∧ count_le (Issue.reportCount r) (Issue.reportCount r').

(** ** The integrity of the database *)

(** A reference that is null or names a row of its table. *)
Definition refers (ids : list string) (v : option string) : Prop :=
  ∀ k, v = Some k → k ∈ ids.

(** No two rows of a table share an id. *)
Definition primary_keys (s : Store) : Prop :=
  NoDup (user_ids s) ∧ NoDup (issue_ids s)
  ∧ NoDup (IssueFlag.id <$> issueFlags s)
  ∧ NoDup (IssueVote.id <$> issueVotes s)
  ∧ NoDup (IssueStatusLog.id <$> issueStatusLogs s).

(** Every [references] of the schema, checked against the ids given. *)
Definition foreign_keys_in (uids iids : list string) (s : Store) : Prop :=
  Forall (λ i, refers uids (Issue.reporterId i)) (issues s)
  ∧ Forall (λ f, IssueFlag.issueId f ∈ iids ∧ IssueFlag.flaggerId f ∈ uids)
      (issueFlags s)
  ∧ Forall (λ v, IssueVote.issueId v ∈ iids ∧ IssueVote.voterId v ∈ uids)
      (issueVotes s)
  ∧ Forall (λ l, IssueStatusLog.issueId l ∈ iids
                 ∧ refers uids (IssueStatusLog.changedBy l))
      (issueStatusLogs s).

(** Every reporter, flagger, voter and author of a status change is a
    user, and every flag, vote and log entry belongs to an issue. *)
Definition foreign_keys (s : Store) : Prop :=
  foreign_keys_in (user_ids s) (issue_ids s) s.

(** ** Moderation *)

(** An issue that is hidden if it has five flags or more. *)
Definition hides_from_five (i : Issue.t) : Prop :=
  ∀ n, Issue.flagCount i = Some n → 5 ≤ n → Issue.isHidden i = Some true.

Definition moderated (s : Store) : Prop := Forall hides_from_five (issues s).

(** ** The counters and the rows they count *)






(** ** What flags and votes do not read *)

(** Two stores with the same users by id and the same other tables. *)
Definition same_but_user_columns (s s' : Store) : Prop :=
  user_ids s' = user_ids s ∧ issues s' = issues s
  ∧ issueFlags s' = issueFlags s ∧ issueVotes s' = issueVotes s
  ∧ issueStatusLogs s' = issueStatusLogs s.

(** A method that does the same on two such stores. *)
Definition blind_to_user_columns {A} (m : Db A) : Prop :=
  ∀ s s', same_but_user_columns s s' →
          (m s').1 = (m s).1 ∧ same_but_user_columns (m s).2 (m s').2.

#[global] Instance admin_dec s userId : Decision (admin s userId).
Proof.
  unfold admin. destruct (user_of s userId) as [u|].
  - destruct (decide (User.isAdmin u = Some true)) as [Hu|Hu].
    + left. by exists u.
    + right. intros (u' & [= <-] & Hu'). done.
  - right. by intros (u' & [=] & _).
Defined.

#[global] Instance banned_dec s userId : Decision (banned s userId).
Proof.
  unfold banned. destruct (user_of s userId) as [u|].
  - destruct (decide (User.isBanned u = Some true)) as [Hu|Hu].
    + left. by exists u.
    + right. intros (u' & [= <-] & Hu'). done.
  - right. by intros (u' & [=] & _).
Defined.

(** ** More of the sample run *)

(** The call of [upsertUser] that brings a user of the sample run in. *)
Definition sample_login (id : string) (isAdmin : bool) : Write :=
  UpsertUser "" 0
    (UpsertUser.mk (Some id) None None None None (Some (Some isAdmin)) None
       None None).

(** The store once the five flag requests have been served. *)
Definition sample_flagged : Store := flag_all "i1" sample_flags sample_store.

(** The issue of the sample run as it is then. *)
Definition sample_hidden_issue : Issue.t :=
  Issue.set_isHidden (Some true) (Issue.set_flagCount (Some 5) sample_issue).

(** Bob is banned and then logs in again, with an email this time. *)
Definition sample_banned : Store := exec (banUser "bob") sample_store.

Definition sample_relogin : UpsertUser.t :=
  UpsertUser.mk (Some "bob") (Some (Some "bob@example.org")) None None None
    None None None None.

Definition sample_bob : User.t :=
  User.mk "bob" (Some "bob@example.org") None None None (Some false)
    (Some true) (Some 0) (Some 40).

(** ** Sums over the analytics *)

(** The sum of the counts an object of the analytics holds. *)
Definition total (m : gmap string Z) : Z :=
  map_fold (λ _ n sum, n + sum) 0 m.

(** The sum of a count over the keys that have a name. *)
Definition named_sum {K} (name : K → option string) (g : K → Z) (ks : list K)
  : Z :=
  foldr (λ k sum, match name k with Some _ => g k | None => 0 end + sum) 0 ks.

(** An issue with a status that is neither null nor the empty string. *)
Definition has_status (i : Issue.t) : Prop :=
  ∃ st, Issue.status i = Some st ∧ st ≠ "".

#[global] Instance has_status_dec i : Decision (has_status i).
Proof.
  unfold has_status. destruct (Issue.status i) as [st|].
  - destruct (decide (st = "")) as [->|Hst].
    + right. by intros (st' & [= <-] & Hst').
    + left. by exists st.
  - right. by intros (st' & [=] & _).
Defined.

(** * Properties *)

(** ** Conditions *)

Section CondFacts.

Context {R : Type}.
Implicit Types (r : R) (w : @Cond R).

Lemma holds_eq_col {A} `{EqDecision A} (f : R → A) (v : A) r :
  holds (eq (col f) v) r ↔ f r = v.
Proof.
  unfold holds, eq, col. simpl. split.
  - intros [= H']. by apply bool_decide_eq_true in H'.
  - intros ->. by rewrite bool_decide_eq_true_2.
Qed.

Lemma holds_eq {A} `{EqDecision A} (f : R → option A) (v : A) r :
  holds (eq f v) r ↔ f r = Some v.
Proof.
  unfold holds, eq. destruct (f r) as [x|]; simpl; split; try done.
  - intros [= H']. apply bool_decide_eq_true in H'. by subst.
  - intros [= ->]. by rewrite bool_decide_eq_true_2.
Qed.

Lemma holds_gte (f : R → option Z) (v : Z) r :
  holds (gte f v) r ↔ ∃ x, f r = Some x ∧ v ≤ x.
Proof.
  unfold holds, gte. destruct (f r) as [x|]; simpl; split.
  - intros [= H']. apply bool_decide_eq_true in H'. eauto.
  - intros (y & [= <-] & ?). by rewrite bool_decide_eq_true_2.
  - done.
  - by intros (? & ? & ?).
Qed.

Lemma and3_true a b : and3 a b = Some true ↔ a = Some true ∧ b = Some true.
Proof.
  destruct a as [[]|], b as [[]|]; simpl; split; intros H'; try done;
    by destruct H'.
Qed.

Lemma holds_and_nil r : holds (and []) r.
Proof. done. Qed.

Lemma holds_and_cons_Some c cs r :
  holds (and (Some c :: cs)) r ↔ holds c r ∧ holds (and cs) r.
Proof. unfold holds at 1. simpl. apply and3_true. Qed.

Lemma holds_and_cons_None cs r :
  holds (and (None :: cs)) r ↔ holds (and cs) r.
Proof. done. Qed.

Lemma elem_of_select_where w (t : list R) r :
  r ∈ select_where w t ↔ r ∈ t ∧ holds w r.
Proof. unfold select_where. rewrite list_elem_of_filter. tauto. Qed.

Lemma set_where_length (f : R → R) w (t : list R) :
  length (set_where f w t) = length t.
Proof. unfold set_where. by rewrite length_fmap. Qed.

Lemma set_where_lookup (f : R → R) w (t : list R) k :
  set_where f w t !! k
  = (λ r, if decide (holds w r) then f r else r) <$> t !! k.
Proof. unfold set_where. by rewrite list_lookup_fmap. Qed.

(** A statement that writes no key read by its own condition, twice. *)
Lemma set_where_idemp (f : R → R) w (t : list R) :
  (∀ r, holds w (f r) ↔ holds w r) → (∀ r, f (f r) = f r) →
  set_where f w (set_where f w t) = set_where f w t.
Proof.
  intros Hw Hf. unfold set_where. rewrite <- list_fmap_compose.
  apply list_fmap_ext. intros _ r _. simpl.
  destruct (decide (holds w r)) as [Hr|Hr].
  - rewrite decide_True by by apply Hw. apply Hf.
  - by rewrite decide_False.
Qed.

End CondFacts.

(** ** Running methods *)

Lemma getIssue_run id s : getIssue id s = (Return (stored s id), s).
Proof. done. Qed.

Lemma bind_unfold {A B} (m : Db A) (k : A → Db B) s :
  bind m k s = match m s with
               | (Return a, s') => k a s'
               | (Throw e, s') => (Throw e, s')
               end.
Proof. done. Qed.

Lemma bind_Return {A B} (m : Db A) (k : A → Db B) s a s' :
  m s = (Return a, s') → bind m k s = k a s'.
Proof. intros H'. by rewrite bind_unfold, H'. Qed.

Lemma bind_Return_inv {A B} (m : Db A) (k : A → Db B) s b s' :
  bind m k s = (Return b, s') →
  ∃ a s1, m s = (Return a, s1) ∧ k a s1 = (Return b, s').
Proof.
  rewrite bind_unfold. destruct (m s) as [[a|e] s1]; [|done]. eauto.
Qed.


Lemma run_exec_eval {A} (m : Db A) s : m s = (eval m s, exec m s).
Proof. unfold eval, exec. by destruct (m s). Qed.

Lemma stored_issues s s' id : issues s' = issues s → stored s' id = stored s id.
Proof. unfold stored, eval, getIssue, gets. simpl. by intros ->. Qed.

Lemma stored_elem_of s id i : stored s id = Some i → i ∈ issues s ∧ Issue.id i = id.
Proof.
  unfold stored, eval, getIssue, gets. simpl. intros H'.
  apply head_Some_elem_of in H'. apply elem_of_select_where in H'.
  destruct H' as [? H']. apply -> (holds_eq_col Issue.id) in H'. by split.
Qed.

Lemma stored_in_issue_ids s id i : stored s id = Some i → id ∈ issue_ids s.
Proof.
  intros [? <-]%stored_elem_of. unfold issue_ids. by apply list_elem_of_fmap_2.
Qed.

Lemma Issue_set_id values r : Issue.id (Issue.set values r) = Issue.id r.
Proof.
  unfold Issue.set. generalize r at 2 3.
  induction values as [|a values IH]; intros acc; [done|].
  simpl. rewrite IH. by destruct a.
Qed.

Lemma select_id_fmap (g : Issue.t → Issue.t) id (t : list Issue.t) :
  (∀ r, Issue.id (g r) = Issue.id r) →
  select_where (eq (col Issue.id) id) (g <$> t)
  = g <$> select_where (eq (col Issue.id) id) t.
Proof.
  intros Hg. unfold select_where.
  induction t as [|r t IH]; [done|].
  rewrite fmap_cons, !filter_cons.
  destruct (decide (holds (eq (col Issue.id) id) r)) as [Hr|Hr].
  - rewrite decide_True; [by rewrite IH|].
    apply holds_eq_col. rewrite Hg. by apply -> (holds_eq_col Issue.id) in Hr.
  - rewrite decide_False; [done|].
    rewrite holds_eq_col, Hg. by rewrite holds_eq_col in Hr.
Qed.

(** The row found under an id after an update statement. *)
Lemma stored_set_where values (w : Cond) s id :
  stored (with_issues (set_where (Issue.set values) w (issues s)) s) id
  = (λ r, if decide (holds w r) then Issue.set values r else r) <$> stored s id.
Proof.
  unfold stored, eval, getIssue, gets, set_where. simpl.
  rewrite select_id_fmap.
  - by destruct (select_where _ _).
  - intros r. destruct (decide _); [apply Issue_set_id|done].
Qed.

(** The row found under an id after an insert. *)
Lemma stored_app s id row :
  stored (with_issues (issues s ++ [row]) s) id
  = match stored s id with
    | Some i => Some i
    | None => if decide (Issue.id row = id) then Some row else None
    end.
Proof.
  unfold stored, eval, getIssue, gets, select_where. simpl.
  rewrite filter_app. destruct (filter _ (issues s)) as [|x l]; [|done].
  simpl. rewrite filter_cons, filter_nil.
  destruct (decide (Issue.id row = id)) as [Hr|Hr].
  - rewrite decide_True; [done|]. by apply holds_eq_col.
  - rewrite decide_False; [done|]. by rewrite holds_eq_col.
Qed.

Lemma stored_with_issues t s id : stored (with_issues t s) id = find_by_id id t.
Proof. done. Qed.

Lemma find_set_where values (w : Cond) t id :
  find_by_id id (set_where (Issue.set values) w t)
  = (λ r, if decide (holds w r) then Issue.set values r else r)
      <$> find_by_id id t.
Proof.
  rewrite <- !(stored_with_issues _ empty_store).
  apply (stored_set_where values w (with_issues t empty_store)).
Qed.

(** What an update statement does, case by case. *)
Lemma update_issues_run values (w : Cond) s :
  (∃ e, update_issues values w s = (Throw (DatabaseError e), s)
        ∧ first_error (Issue.set_check values) (select_where w (issues s)) = Some e)
  ∨ (update_issues values w s
       = (Return (Issue.set values <$> select_where w (issues s)),
          with_issues (set_where (Issue.set values) w (issues s)) s)
     ∧ first_error (Issue.set_check values) (select_where w (issues s)) = None).
Proof.
  unfold update_issues.
  destruct (first_error _ _); [left; eauto|right; eauto].
Qed.

Lemma first_error_None {R} (check : R → option PgError) (t : list R) :
  (∀ r, r ∈ t → check r = None) → first_error check t = None.
Proof.
  intros H'. unfold first_error.
  induction t as [|r t IH]; [done|]. simpl.
  rewrite (H' r) by apply list_elem_of_here.
  apply IH. intros r' Hr'. apply H'. by apply list_elem_of_further.
Qed.

(** ** Hiding an issue *)

Lemma hideIssue_run id s :
  hideIssue id s
  = (Return tt,
     with_issues (set_where (Issue.set_isHidden (Some true))
                    (eq (col Issue.id) id) (issues s)) s).
Proof.
  unfold hideIssue, bind.
  destruct (update_issues_run [Issue.isHidden_to (Some true)]
              (eq (col Issue.id) id) s) as [(e & _ & He)|[-> _]]; [|done].
  by rewrite first_error_None in He.
Qed.

(** C10. [hideIssue(id)] always returns; it leaves the other tables and the
    number and order of the issues as they are; the row at each position
    keeps every column but [isHidden] ([status], [flagCount], [reportCount],
    the coordinates and also [updatedAt]), and its [isHidden] is true when
    its id is [id] and untouched otherwise; hiding a second time changes
    nothing. *)
Theorem hideIssue_sets_only_isHidden (id : string) (s : Store) :
  eval (hideIssue id) s = Return tt
  ∧ users (exec (hideIssue id) s) = users s
  ∧ issueFlags (exec (hideIssue id) s) = issueFlags s
  ∧ issueVotes (exec (hideIssue id) s) = issueVotes s
  ∧ issueStatusLogs (exec (hideIssue id) s) = issueStatusLogs s
  ∧ length (issues (exec (hideIssue id) s)) = length (issues s)
  ∧ (∀ k r, issues s !! k = Some r →
       ∃ r', issues (exec (hideIssue id) s) !! k = Some r'
             ∧ same_but_isHidden r r'
             ∧ Issue.isHidden r'
               = if decide (Issue.id r = id) then Some true else Issue.isHidden r)
  ∧ exec (hideIssue id) (exec (hideIssue id) s) = exec (hideIssue id) s.
Proof.
  unfold exec, eval. rewrite !hideIssue_run. simpl.
  repeat split; try done.
  - apply set_where_length.
  - intros k r Hk. rewrite set_where_lookup, Hk. simpl.
    destruct (decide (holds _ r)) as [Hr|Hr].
    + apply -> (holds_eq_col Issue.id) in Hr.
      eexists. split; [done|]. rewrite decide_True by done. by destruct r.
    + rewrite (holds_eq_col Issue.id) in Hr.
      eexists. split; [done|]. rewrite decide_False by done.
      by repeat split.
  - unfold with_issues. simpl. f_equal.
    apply set_where_idemp.
    + intros r. by rewrite !holds_eq_col.
    + by intros [].
Qed.

(** ** Ordered results *)

Lemma StronglySorted_lookup_lt {A} (R : relation A) (l : list A) j k a b :
  StronglySorted R l → (j < k)%nat → l !! j = Some a → l !! k = Some b → R a b.
Proof.
  intros Hl. revert j k. induction Hl as [|x l Hl IH Hx]; intros j k Hjk Ha Hb.
  - done.
  - destruct k as [|k]; [lia|]. simpl in Hb. destruct j as [|j].
    + simpl in Ha. injection Ha as ->.
      rewrite Forall_forall in Hx. apply Hx. by eapply list_elem_of_lookup_2.
    + simpl in Ha. apply (IH j k); [lia|done..].
Qed.

Lemma orderBy_desc_sorted {A} (key : A → option Z) (t : list A) :
  StronglySorted (desc key) (orderBy_desc key t).
Proof. unfold orderBy_desc. apply StronglySorted_merge_sort; apply _. Qed.

Lemma orderBy_desc_perm {A} (key : A → option Z) (t : list A) :
  orderBy_desc key t ≡ₚ t.
Proof. unfold orderBy_desc. apply merge_sort_Permutation. Qed.

(** ** The flagged issues *)

Lemma holds_gte_flagged i : holds (gte Issue.flagCount 1) i ↔ flagged i.
Proof.
  rewrite holds_gte. unfold flagged.
  destruct (Issue.flagCount i) as [n|]; naive_solver.
Qed.

(** C8. [getFlaggedIssues()] returns the issues whose [flagCount] is at
    least 1, each as often as it is in the table and whatever its
    [isHidden], with no [flagCount] before a greater one. *)
Theorem getFlaggedIssues_flagged_desc (s : Store) :
  ∃ l, getFlaggedIssues s = (Return l, s)
       ∧ l ≡ₚ filter flagged (issues s)
       ∧ (∀ i, i ∈ l ↔ i ∈ issues s ∧ ∃ n, Issue.flagCount i = Some n ∧ 1 ≤ n)
       ∧ (∀ i, i ∈ issues s → flagged i → Issue.isHidden i = Some true → i ∈ l)
       ∧ (∀ j k a b, (j < k)%nat → l !! j = Some a → l !! k = Some b →
            ∃ m n, Issue.flagCount a = Some m ∧ Issue.flagCount b = Some n
                   ∧ n ≤ m).
Proof.
  eexists. split; [reflexivity|].
  assert (orderBy_desc Issue.flagCount
            (select_where (gte Issue.flagCount 1) (issues s))
          ≡ₚ filter flagged (issues s)) as Hperm.
  { rewrite orderBy_desc_perm. unfold select_where.
    erewrite list_filter_iff; [done|]. apply holds_gte_flagged. }
  assert (∀ i, i ∈ orderBy_desc Issue.flagCount
                     (select_where (gte Issue.flagCount 1) (issues s))
               ↔ i ∈ issues s ∧ flagged i) as Hin.
  { intros i. rewrite Hperm, list_elem_of_filter. tauto. }
  split; [done|]. split; [|split].
  - intros i. rewrite Hin. unfold flagged.
    destruct (Issue.flagCount i) as [n|]; naive_solver.
  - intros i Hi Hf _. apply Hin. done.
  - intros j k a b Hjk Ha Hb.
    pose proof (orderBy_desc_sorted Issue.flagCount
                  (select_where (gte Issue.flagCount 1) (issues s))) as Hs.
    pose proof (StronglySorted_lookup_lt _ _ _ _ _ _ Hs Hjk Ha Hb) as Hab.
    apply list_elem_of_lookup_2, Hin in Ha, Hb.
    destruct Ha as [_ Ha], Hb as [_ Hb]. unfold flagged, desc in *.
    destruct (Issue.flagCount a) as [m|]; [|done].
    destruct (Issue.flagCount b) as [n|]; [|done]. eauto.
Qed.

(** ** Analytics *)

Lemma how_many_zero {A} (P : A → Prop) `{∀ x, Decision (P x)} (t : list A) :
  how_many P t = 0 ↔ ∀ x, x ∈ t → ¬ P x.
Proof.
  unfold how_many. induction t as [|x t IH].
  - split; [|done]. intros _ y Hy. by apply not_elem_of_nil in Hy.
  - rewrite filter_cons. destruct (decide (P x)) as [Hx|Hx]; simpl.
    + split; [lia|]. intros H'. destruct (H' x); [apply list_elem_of_here|done].
    + rewrite IH. split.
      * intros H' y [->|Hy]%elem_of_cons; auto.
      * intros H' y Hy. apply H'. by apply list_elem_of_further.
Qed.

Lemma select_visible t : select_where (eq Issue.isHidden false) t = filter visible t.
Proof. unfold select_where. apply list_filter_iff. intros i. apply holds_eq. Qed.

(** The object a [forEach] over the rows of a [groupBy] builds: [name]
    tells under which key, if any, a row of the result is stored. *)
Section Tally.

Context {A K : Type} `{EqDecision K}.

Context (step : gmap string Z → K * Z → gmap string Z).

Context (name : K → option string).

Context (Hstep : ∀ acc stat,
           step acc stat = match name stat.1 with
                           | Some key => <[key := stat.2]> acc
                           | None => acc
                           end).

Lemma lookup_tally (g : K → Z) (ks : list K) (m : gmap string Z) (c : string) :
  (∀ k k', name k = Some c → name k' = Some c → k = k') →
  foldl step m ((λ k, (k, g k)) <$> ks) !! c
  = match list_find (λ k, name k = Some c) ks with
    | Some (_, k) => Some (g k)
    | None => m !! c
    end.
Proof using Hstep.
  intros Hinj. revert m. induction ks as [|k ks IH]; intros m; [done|].
  rewrite fmap_cons. simpl. rewrite IH, Hstep. clear IH. simpl.
  destruct (decide (name k = Some c)) as [Hk|Hk].
  - rewrite Hk, lookup_insert_eq.
    destruct (list_find _ ks) as [[j k']|] eqn:E; simpl; [|done].
    apply list_find_Some in E. destruct E as (_ & Hk' & _).
    by rewrite (Hinj _ _ Hk Hk').
  - destruct (list_find _ ks) as [[j k']|] eqn:E; simpl; [done|].
    destruct (name k) as [key|]; [|done].
    rewrite lookup_insert_ne; [done|]. congruence.
Qed.

(** A key that names a group holds the size of that group. *)
Lemma lookup_tally_count (key : A → K) (t : list A) (c : string) (k0 : K) :
  name k0 = Some c →
  (∀ k, name k = Some c → k = k0) →
  foldl step ∅ (group_count key t) !! c
  = if decide (how_many (λ r, key r = k0) t = 0) then None
    else Some (how_many (λ r, key r = k0) t).
Proof using Hstep.
  intros Hk0 Hinj. unfold group_count. rewrite lookup_tally.
  2:{ intros k k' Hk Hk'. by rewrite (Hinj k), (Hinj k'). }
  destruct (list_find _ _) as [[j k]|] eqn:E.
  - apply list_find_Some in E. destruct E as (Hj & Hk & _).
    apply Hinj in Hk. subst k.
    apply list_elem_of_lookup_2, elem_of_remove_dups, list_elem_of_fmap in Hj.
    destruct Hj as (r & Hr & Hin).
    rewrite decide_False; [done|].
    rewrite how_many_zero. intros H'. by apply (H' r).
  - rewrite lookup_empty. apply list_find_None in E.
    rewrite Forall_forall in E.
    rewrite decide_True; [done|].
    apply how_many_zero. intros r Hr Hkr. apply (E k0); [|done].
    apply elem_of_remove_dups, list_elem_of_fmap. eauto.
Qed.

(** A key that names no group is not in the object. *)
Lemma lookup_tally_None (key : A → K) (t : list A) (c : string) :
  (∀ k, name k ≠ Some c) →
  foldl step ∅ (group_count key t) !! c = None.
Proof using Hstep.
  intros Hno. unfold group_count. rewrite lookup_tally.
  - destruct (list_find _ _) as [[j k]|] eqn:E; [|apply lookup_empty].
    apply list_find_Some in E. destruct E as (_ & Hk & _). by apply Hno in Hk.
  - intros k k' Hk. by apply Hno in Hk.
Qed.

End Tally.

Lemma how_many_visible {K} `{EqDecision K} (key : Issue.t → K) (k : K) t :
  how_many (λ r, key r = k) (filter visible t)
  = how_many (λ i, visible i ∧ key i = k) t.
Proof.
  unfold how_many. rewrite list_filter_filter. do 2 f_equal.
  apply list_filter_iff. tauto.
Qed.

(** C9. [getIssueAnalytics()] counts the issues whose [isHidden] is false:
    [totalIssues] is their number; a category is a key of
    [issuesByCategory] exactly when one of them has it, and then holds how
    many do; the same for [issuesByStatus] and every status that is not the
    empty string (the three of the lifecycle among them), the empty string
    and null being skipped by the [if (stat.status)] of the source.  With
    three such issues in "roads", two in "water" and none elsewhere,
    [issuesByCategory] is [{roads: 3, water: 2}]. *)
Theorem getIssueAnalytics_counts_visible (s : Store) :
  ∃ a, getIssueAnalytics s = (Return a, s)
       ∧ totalIssues a = how_many visible (issues s)
       ∧ (∀ c, issuesByCategory a !! c
               = if decide (how_many (λ i, visible i ∧ Issue.category i = c)
                              (issues s) = 0)
                 then None
                 else Some (how_many (λ i, visible i ∧ Issue.category i = c)
                              (issues s)))
       ∧ (∀ st, st ≠ "" →
            issuesByStatus a !! st
            = if decide (how_many (λ i, visible i ∧ Issue.status i = Some st)
                           (issues s) = 0)
              then None
              else Some (how_many (λ i, visible i ∧ Issue.status i = Some st)
                           (issues s)))
       ∧ issuesByStatus a !! "" = None
       ∧ (how_many (λ i, visible i ∧ Issue.category i = "roads") (issues s) = 3 →
          how_many (λ i, visible i ∧ Issue.category i = "water") (issues s) = 2 →
          (∀ i, i ∈ issues s → visible i →
                Issue.category i = "roads" ∨ Issue.category i = "water") →
          issuesByCategory a = <["roads" := 3]> (<["water" := 2]> ∅)).
Proof.
  eexists. split; [reflexivity|]. simpl. rewrite select_visible.
  assert (∀ c,
    foldl (λ (acc : gmap string Z) (stat : string * Z), <[stat.1 := stat.2]> acc)
      ∅ (group_count Issue.category (filter visible (issues s))) !! c
    = if decide (how_many (λ i, visible i ∧ Issue.category i = c) (issues s) = 0)
      then None
      else Some (how_many (λ i, visible i ∧ Issue.category i = c) (issues s)))
    as Hcat.
  { intros c. rewrite <- how_many_visible.
    apply (lookup_tally_count _ Some); [done..|]. by intros k [= ->]. }
  pose (name := λ k : option string,
          match k with
          | Some st => if truthy st then Some st else None
          | None => None
          end).
  assert (∀ (acc : gmap string Z) (stat : option string * Z),
            match stat.1 with
            | Some status =>
              if truthy status then <[status := stat.2]> acc else acc
            | None => acc
            end
            = match name stat.1 with
              | Some key => <[key := stat.2]> acc
              | None => acc
              end) as Hstep.
  { intros acc [[st|] n]; simpl; [|done]. by destruct (truthy st). }
  split; [|split; [done|split; [|split]]].
  - unfold how_many. by case_bool_decide.
  - intros st Hst. rewrite <- how_many_visible.
    apply (lookup_tally_count _ name Hstep).
    + unfold name, truthy. by rewrite bool_decide_eq_true_2.
    + intros [k|]; unfold name; [|done].
      destruct (truthy k); [|done]. by intros [= ->].
  - apply (lookup_tally_None _ name Hstep).
    intros [k|]; unfold name, truthy; [|done].
    case_bool_decide; [|done]. congruence.
  - intros Hroads Hwater Honly. apply map_eq. intros c. rewrite Hcat.
    destruct (decide (c = "roads")) as [->|Hr].
    { rewrite Hroads. by rewrite lookup_insert_eq. }
    rewrite lookup_insert_ne by done.
    destruct (decide (c = "water")) as [->|Hw].
    { rewrite Hwater. by rewrite lookup_insert_eq. }
    rewrite lookup_insert_ne, lookup_empty by done.
    rewrite decide_True; [done|].
    apply how_many_zero. intros i Hi [Hv Hc].
    destruct (Honly i Hi Hv); congruence.
Qed.

(** ** The proximity query *)

Lemma asked_iff v (P : string → Prop) :
  asked v P ↔ ∀ x, v = Some x → x ≠ "" → P x.
Proof.
  unfold asked. destruct v as [x|]; [|naive_solver].
  split; [by intros ? ? [= <-]|]. intros H'. by apply H'.
Qed.

Lemma holds_if_truthy {A} (v : option string) (c : string → @Cond A)
    (cs : list (option Cond)) r :
  holds (and (if_truthy v c :: cs)) r
  ↔ (∀ x, v = Some x → x ≠ "" → holds (c x) r) ∧ holds (and cs) r.
Proof.
  unfold if_truthy, truthy. destruct v as [x|].
  - case_bool_decide as Hx.
    + rewrite holds_and_cons_Some. split.
      * intros [? ?]. split; [|done]. by intros ? [= <-] _.
      * intros [H' ?]. split; [|done]. by apply H'.
    + rewrite holds_and_cons_None. split; [|by intros [_ ?]].
      intros ?. split; [|done]. intros ? [= <-] Hne. by destruct Hx.
  - rewrite holds_and_cons_None. split; [|by intros [_ ?]].
    intros ?. split; [|done]. by intros.
Qed.

Lemma holds_nearby_where latitude longitude radiusKm filters i :
  holds (nearby_where latitude longitude radiusKm filters) i
  ↔ nearby latitude longitude radiusKm filters i.
Proof.
  unfold nearby_where, nearby.
  rewrite !asked_iff, !holds_and_cons_Some, !holds_if_truthy, holds_eq.
  assert (holds (λ r, Some (bool_decide
                   (distanceQuery latitude longitude r <= radiusKm)%R)) i
          ↔ (distanceQuery latitude longitude i <= radiusKm)%R) as ->.
  { unfold holds. split.
    - intros [= H']. by apply bool_decide_eq_true in H'.
    - intros H'. by rewrite bool_decide_eq_true_2. }
  split.
  - intros (? & ? & Hc & Hs & _). split; [done|split; [done|split]].
    + intros c ? ?. by apply (holds_eq_col Issue.category), Hc.
    + intros st ? ?. by apply holds_eq, Hs.
  - intros (? & ? & Hc & Hs). split; [done|split; [done|split; [|split]]].
    + intros c ? ?. by apply (holds_eq_col Issue.category), Hc.
    + intros st ? ?. by apply holds_eq, Hs.
    + apply holds_and_nil.
Qed.


(** ** What every write preserves *)

Section Preserves.

Context (P : relation Store) `{!PreOrder P}.

Lemma preserves_ret {A} (a : A) : preserves P (ret a).
Proof. intros s. unfold exec, ret. simpl. reflexivity. Qed.

Lemma preserves_throw {A} e : preserves P (@throw A e).
Proof. intros s. unfold exec, throw. simpl. reflexivity. Qed.

Lemma preserves_gets {A} (f : Store → A) : preserves P (gets f).
Proof. intros s. unfold exec, gets. simpl. reflexivity. Qed.

Lemma preserves_bind {A B} (m : Db A) (k : A → Db B) :
  preserves P m → (∀ a, preserves P (k a)) → preserves P (bind m k).
Proof.
  intros Hm Hk s. unfold exec, bind.
  specialize (Hm s). unfold exec in Hm.
  destruct (m s) as [[a|e] s1]; simpl in *; [|done].
  etransitivity; [apply Hm|]. apply Hk.
Qed.

(** The statements that write other tables than [issues]. *)
Hypothesis Pframe : ∀ s s', issues s' = issues s → P s s'.

Lemma preserves_insert_issueFlag row : preserves P (insert_issueFlag row).
Proof using Pframe PreOrder0.
  intros s. unfold exec, insert_issueFlag.
  repeat (case_match; simpl); by apply Pframe.
Qed.

Lemma preserves_insert_issueVote row : preserves P (insert_issueVote row).
Proof using Pframe PreOrder0.
  intros s. unfold exec, insert_issueVote.
  repeat (case_match; simpl); by apply Pframe.
Qed.

Lemma preserves_insert_issueStatusLog row :
  preserves P (insert_issueStatusLog row).
Proof using Pframe PreOrder0.
  intros s. unfold exec, insert_issueStatusLog.
  repeat (case_match; simpl); by apply Pframe.
Qed.

Lemma preserves_update_users f w : preserves P (update_users f w).
Proof using Pframe PreOrder0. intros s. by apply Pframe. Qed.

Lemma preserves_upsertUser uuid now userData :
  preserves P (upsertUser uuid now userData).
Proof using Pframe PreOrder0.
  intros s. unfold exec, upsertUser.
  repeat (case_match; simpl); by apply Pframe.
Qed.

(** The statements that write [issues]. *)
Hypothesis Pinsert : ∀ s row,
  Issue.check row = None → Issue.id row ∉ issue_ids s →
  P s (with_issues (issues s ++ [row]) s).

Lemma preserves_insert_issue row : preserves P (insert_issue row).
Proof using Pinsert PreOrder0.
  intros s. unfold exec, insert_issue.
  destruct (Issue.check row) eqn:Hcheck; simpl; [reflexivity|].
  case_bool_decide; simpl; [reflexivity|].
  case_match; simpl; [reflexivity|]. by apply Pinsert.
Qed.

Lemma preserves_update_issues values w :
  safe_set P values → preserves P (update_issues values w).
Proof using PreOrder0.
  intros Hsafe s. unfold exec.
  destruct (update_issues_run values w s) as [(e & -> & _)|[-> He]]; simpl.
  - reflexivity.
  - by apply Hsafe.
Qed.

Hypothesis Pstatus : ∀ status now,
  safe_set P [Issue.status_to (Some status); Issue.updatedAt_to (Some now)].

Hypothesis Phide : safe_set P [Issue.isHidden_to (Some true)].

Hypothesis Preport :
  safe_set P [Issue.reportCount_to (λ r, (λ n, n + 1) <$> Issue.reportCount r)].

Hypothesis Pflag :
  safe_set P [Issue.flagCount_to (λ r, (λ n, n + 1) <$> Issue.flagCount r)].

(** Every writing method of the storage, from its statements. *)
Lemma preserves_perform (w : Write) s : P s (perform w s).
Proof using All.
  destruct w; simpl.
  - apply preserves_upsertUser.
  - apply preserves_insert_issue.
  - apply preserves_bind; [apply preserves_gets|].
    intros [current|]; [|apply preserves_ret].
    apply preserves_bind; [by apply preserves_update_issues|].
    intros updated. destruct (head updated); [|apply preserves_ret].
    apply preserves_bind; [apply preserves_insert_issueStatusLog|].
    intros _. apply preserves_ret.
  - apply preserves_bind; [by apply preserves_update_issues|].
    intros _. apply preserves_ret.
  - apply preserves_bind; [by apply preserves_update_issues|].
    intros _. apply preserves_ret.
  - apply preserves_bind; [apply preserves_insert_issueFlag|]. intros _.
    apply preserves_bind; [by apply preserves_update_issues|]. intros _.
    apply preserves_bind; [by apply preserves_update_issues|]. intros _.
    apply preserves_ret.
  - apply preserves_bind; [by apply preserves_update_issues|]. intros _.
    apply preserves_bind; [by apply preserves_update_issues|]. intros _.
    apply preserves_ret.
  - apply preserves_bind; [apply preserves_insert_issueVote|]. intros _.
    apply preserves_bind; [by apply preserves_update_issues|]. intros _.
    apply preserves_ret.
  - apply preserves_insert_issueStatusLog.
  - apply preserves_update_users.
  - apply preserves_update_users.
Qed.

End Preserves.

(** ** The integrity of the [issues] table *)

Lemma Issue_check_None r :
  Issue.check r = None
  ↔ varchar 255 (Some (Issue.title r)) = true
    ∧ varchar 50 (Some (Issue.category r)) = true
    ∧ varchar 20 (Issue.status r) = true
    ∧ decimal8 10 (Issue.latitude r) = true
    ∧ decimal8 11 (Issue.longitude r) = true
    ∧ int4 (Issue.flagCount r) = true
    ∧ int4 (Issue.reportCount r) = true.
Proof.
  unfold Issue.check.
  destruct (varchar 255 _), (varchar 50 _), (varchar 20 _), (decimal8 10 _),
    (decimal8 11 _), (int4 (Issue.flagCount r)), (int4 (Issue.reportCount r));
    simpl; naive_solver.
Qed.

Lemma first_error_None_inv {A} (check : A → option PgError) (t : list A) r :
  first_error check t = None → r ∈ t → check r = None.
Proof.
  unfold first_error. intros H' Hr.
  destruct (check r) as [e|] eqn:E; [|done].
  assert (e ∈ omap check t) as He by (apply list_elem_of_omap; eauto).
  destruct (omap check t); [by apply not_elem_of_nil in He|done].
Qed.

Lemma set_where_ids values (w : Cond) (t : list Issue.t) :
  Issue.id <$> set_where (Issue.set values) w t = Issue.id <$> t.
Proof.
  unfold set_where. rewrite <- list_fmap_compose. apply list_fmap_ext.
  intros _ r _. simpl. destruct (decide _); [apply Issue_set_id|done].
Qed.

(** An update keeps the table consistent when the rows it writes are
    well typed. *)
Lemma consistent_set_where values (w : Cond) s :
  (∀ r, Issue.check r = None → Issue.set_check values r = None →
        Issue.check (Issue.set values r) = None) →
  first_error (Issue.set_check values) (select_where w (issues s)) = None →
  consistent s →
  consistent (with_issues (set_where (Issue.set values) w (issues s)) s).
Proof.
  intros Hset Herr [Hids Hchk]. split.
  - unfold issue_ids. simpl. by rewrite set_where_ids.
  - simpl. unfold set_where. rewrite Forall_fmap.
    rewrite Forall_forall in Hchk. apply Forall_forall. intros r Hr. simpl.
    destruct (decide (holds w r)) as [Hw|Hw]; [|by apply Hchk].
    apply Hset; [by apply Hchk|].
    eapply first_error_None_inv; [done|]. by apply elem_of_select_where.
Qed.

#[local] Instance invariant_preorder (I : Store → Prop) :
  PreOrder (λ s s', I s → I s').
Proof. split; [by intros s|]. intros s1 s2 s3 H12 H23 H1. auto. Qed.

(** Every writing method of the storage keeps the table consistent. *)
Lemma consistent_perform (w : Write) s : consistent s → consistent (perform w s).
Proof.
  apply (preserves_perform (λ s s', consistent s → consistent s')).
  - intros s1 s2 Hs [? ?]. unfold consistent, issue_ids. by rewrite Hs.
  - intros s1 row Hrow Hfresh [Hids Hchk]. split; simpl.
    + unfold issue_ids in *. simpl. rewrite fmap_app. apply NoDup_app.
      split; [done|]. split; [|apply NoDup_singleton].
      intros x Hx [= ->]%list_elem_of_singleton. by destruct Hfresh.
    + apply Forall_app. split; [done|]. by apply Forall_singleton.
  - intros status now s1 w1. apply consistent_set_where.
    intros r Hr Hset. unfold Issue.set_check in Hset. simpl in Hset.
    apply Issue_check_None. apply Issue_check_None in Hr. simpl.
    destruct (varchar 20 (Some status)); [|done]. tauto.
  - intros s1 w1. apply consistent_set_where. by intros r Hr _.
  - intros s1 w1. apply consistent_set_where.
    intros r Hr Hset. unfold Issue.set_check in Hset. simpl in Hset.
    apply Issue_check_None. apply Issue_check_None in Hr. simpl.
    destruct (int4 (_ <$> _)); [|done]. tauto.
  - intros s1 w1. apply consistent_set_where.
    intros r Hr Hset. unfold Issue.set_check in Hset. simpl in Hset.
    apply Issue_check_None. apply Issue_check_None in Hr. simpl.
    destruct (int4 (_ <$> _)); [|done]. tauto.
Qed.

Lemma consistent_empty : consistent empty_store.
Proof. split; [apply NoDup_nil_2|apply Forall_nil_2]. Qed.

(** Under the primary key, the rows with an id are the one [getIssue]
    returns. *)
Lemma select_id_unique s id i :
  NoDup (issue_ids s) → stored s id = Some i →
  select_where (eq (col Issue.id) id) (issues s) = [i].
Proof.
  unfold stored, eval, getIssue, gets, issue_ids, select_where. simpl.
  induction (issues s) as [|r t IH]; [done|].
  rewrite fmap_cons, NoDup_cons, filter_cons. intros [Hr Ht].
  destruct (decide (holds (eq (col Issue.id) id) r)) as [Hid|Hid].
  - simpl. intros [= ->]. f_equal.
    apply -> (holds_eq_col Issue.id) in Hid. subst id.
    destruct (filter _ t) as [|x l] eqn:E; [done|].
    assert (x ∈ filter (holds (eq (col Issue.id) (Issue.id i))) t) as Hx
      by (rewrite E; apply list_elem_of_here).
    apply list_elem_of_filter in Hx. destruct Hx as [Hx Hin].
    apply -> (holds_eq_col Issue.id) in Hx.
    destruct Hr. rewrite <- Hx. by apply list_elem_of_fmap_2.
  - by apply IH.
Qed.

(** ** Hidden stays hidden *)

#[local] Instance never_unhides_preorder : PreOrder never_unhides.
Proof.
  split; [by intros s id|]. intros s1 s2 s3 H12 H23 id H1. auto.
Qed.

Lemma never_unhides_set values :
  (∀ r, Issue.isHidden r = Some true →
        Issue.isHidden (Issue.set values r) = Some true) →
  safe_set never_unhides values.
Proof.
  intros Hset s w _ id (i & Hi & Hh). unfold hidden.
  rewrite stored_set_where, Hi. simpl. eexists. split; [done|].
  destruct (decide _); [by apply Hset|done].
Qed.

Lemma never_unhides_perform (w : Write) s : never_unhides s (perform w s).
Proof.
  apply (preserves_perform never_unhides).
  - intros s1 s2 Hs id (i & Hi & Hh). exists i. split; [|done].
    by rewrite (stored_issues s1 s2).
  - intros s1 row _ _ id (i & Hi & Hh). exists i. split; [|done].
    by rewrite stored_app, Hi.
  - intros status now. by apply never_unhides_set.
  - by apply never_unhides_set.
  - by apply never_unhides_set.
  - by apply never_unhides_set.
Qed.

(** ** Statements that succeed *)

Lemma update_issues_ok values (w : Cond) s :
  first_error (Issue.set_check values) (select_where w (issues s)) = None →
  update_issues values w s
  = (Return (Issue.set values <$> select_where w (issues s)),
     with_issues (set_where (Issue.set values) w (issues s)) s).
Proof. intros H'. unfold update_issues. by rewrite H'. Qed.

Lemma references_elem_of ids k : k ∈ ids → references ids (Some k) = true.
Proof. intros H'. unfold references. by rewrite bool_decide_eq_true_2. Qed.

Lemma insert_issueFlag_ok row s :
  varchar 100 (IssueFlag.reason row) = true →
  IssueFlag.id row ∉ IssueFlag.id <$> issueFlags s →
  IssueFlag.issueId row ∈ issue_ids s →
  IssueFlag.flaggerId row ∈ user_ids s →
  insert_issueFlag row s
  = (Return tt, with_issueFlags (issueFlags s ++ [row]) s).
Proof.
  intros Hreason Hfresh Hissue Huser. unfold insert_issueFlag, IssueFlag.check.
  rewrite Hreason. simpl. rewrite bool_decide_eq_false_2 by done.
  by rewrite !references_elem_of.
Qed.

Lemma insert_issueVote_ok row s :
  IssueVote.id row ∉ IssueVote.id <$> issueVotes s →
  IssueVote.issueId row ∈ issue_ids s →
  IssueVote.voterId row ∈ user_ids s →
  insert_issueVote row s
  = (Return tt, with_issueVotes (issueVotes s ++ [row]) s).
Proof.
  intros Hfresh Hissue Huser. unfold insert_issueVote.
  rewrite bool_decide_eq_false_2 by done.
  by rewrite !references_elem_of.
Qed.

Lemma insert_issueStatusLog_ok row s :
  varchar 20 (IssueStatusLog.oldStatus row) = true →
  varchar 20 (Some (IssueStatusLog.newStatus row)) = true →
  IssueStatusLog.id row ∉ IssueStatusLog.id <$> issueStatusLogs s →
  IssueStatusLog.issueId row ∈ issue_ids s →
  references (user_ids s) (IssueStatusLog.changedBy row) = true →
  insert_issueStatusLog row s
  = (Return tt, with_issueStatusLogs (issueStatusLogs s ++ [row]) s).
Proof.
  intros Hold Hnew Hfresh Hissue Huser.
  unfold insert_issueStatusLog, IssueStatusLog.check.
  rewrite Hold, Hnew. simpl. rewrite bool_decide_eq_false_2 by done.
  by rewrite references_elem_of, Huser.
Qed.

(** One row is written by an update on the id of a stored issue. *)
Lemma update_by_id_ok values s id i :
  consistent s → stored s id = Some i → Issue.set_check values i = None →
  update_issues values (eq (col Issue.id) id) s
  = (Return [Issue.set values i],
     with_issues (set_where (Issue.set values) (eq (col Issue.id) id) (issues s)) s).
Proof.
  intros [Hids _] Hi Hcheck.
  rewrite update_issues_ok; rewrite (select_id_unique s id i) by done; [done|].
  unfold first_error. simpl. by rewrite Hcheck.
Qed.

Lemma stored_update_by_id values s id i :
  stored s id = Some i →
  stored (with_issues (set_where (Issue.set values) (eq (col Issue.id) id)
                         (issues s)) s) id
  = Some (Issue.set values i).
Proof.
  intros Hi. rewrite stored_set_where, Hi. simpl.
  rewrite decide_True; [done|].
  apply holds_eq_col. by apply stored_elem_of in Hi as [_ ?].
Qed.

Lemma consistent_int4 s id i :
  consistent s → stored s id = Some i →
  int4 (Issue.flagCount i) = true ∧ int4 (Issue.reportCount i) = true
  ∧ varchar 20 (Issue.status i) = true.
Proof.
  intros [_ Hchk] [Hi _]%stored_elem_of.
  rewrite Forall_forall in Hchk. apply Hchk, Issue_check_None in Hi. tauto.
Qed.

Lemma int4_succ c :
  int4 (Some c) = true → c < 2147483647 → int4 (Some (c + 1)) = true.
Proof.
  unfold int4. intros H' ?. apply bool_decide_eq_true in H'.
  apply bool_decide_eq_true. lia.
Qed.

(** ** Flagging *)

Lemma hide_where_ok (w : Cond) s :
  update_issues [Issue.isHidden_to (Some true)] w s
  = (Return (Issue.set [Issue.isHidden_to (Some true)]
               <$> select_where w (issues s)),
     with_issues (set_where (Issue.set [Issue.isHidden_to (Some true)]) w
                    (issues s)) s).
Proof. rewrite update_issues_ok; [done|]. by apply first_error_None. Qed.

Lemma holds_flag_threshold id (r : Issue.t) :
  holds (and [Some (eq (col Issue.id) id); Some (gte Issue.flagCount 5)]) r
  ↔ Issue.id r = id ∧ ∃ n, Issue.flagCount r = Some n ∧ 5 ≤ n.
Proof.
  rewrite !holds_and_cons_Some, holds_eq_col, holds_gte.
  split; [by intros (? & ? & _)|]. intros [? ?]. split; [done|]. split; [done|].
  apply holds_and_nil.
Qed.

(** After the counter of an issue is raised, the issue is hidden if the
    counter is 5 or more. *)
Lemma incrementIssueFlagCount_hides id s i' n :
  eval (incrementIssueFlagCount id) s = Return tt →
  stored (exec (incrementIssueFlagCount id) s) id = Some i' →
  Issue.flagCount i' = Some n → 5 ≤ n →
  Issue.isHidden i' = Some true.
Proof.
  unfold incrementIssueFlagCount, eval, exec, bind.
  destruct (update_issues_run
              [Issue.flagCount_to (λ r, (λ n, n + 1) <$> Issue.flagCount r)]
              (eq (col Issue.id) id) s) as [(e & -> & _)|[-> _]]; [done|].
  rewrite hide_where_ok. unfold ret. cbn [fst snd]. intros _.
  rewrite stored_set_where.
  destruct (stored _ id) as [r|] eqn:Hr; [|done]. simpl.
  destruct (decide _) as [Hw|Hw]; intros [= <-].
  - by destruct r.
  - intros Hn Hge. destruct Hw. apply holds_flag_threshold.
    apply stored_elem_of in Hr as [_ ?]. eauto.
Qed.

Lemma flagIssue_hides uuid now flag s i' n :
  eval (flagIssue uuid now flag) s = Return tt →
  stored (exec (flagIssue uuid now flag) s) (InsertIssueFlag.issueId flag) = Some i' →
  Issue.flagCount i' = Some n → 5 ≤ n →
  Issue.isHidden i' = Some true.
Proof.
  unfold flagIssue, eval, exec, bind.
  destruct (insert_issueFlag _ s) as [[[]|e] s1]; [|done].
  apply incrementIssueFlagCount_hides.
Qed.

Lemma incrementIssueFlagCount_ok id s i c :
  consistent s → stored s id = Some i →
  Issue.flagCount i = Some c → c < 2147483647 →
  eval (incrementIssueFlagCount id) s = Return tt
  ∧ stored (exec (incrementIssueFlagCount id) s) id = Some (flagged_once i)
  ∧ users (exec (incrementIssueFlagCount id) s) = users s
  ∧ issueFlags (exec (incrementIssueFlagCount id) s) = issueFlags s
  ∧ issueVotes (exec (incrementIssueFlagCount id) s) = issueVotes s
  ∧ issueStatusLogs (exec (incrementIssueFlagCount id) s) = issueStatusLogs s
  ∧ consistent (exec (incrementIssueFlagCount id) s).
Proof.
  intros Hs Hi Hc Hmax.
  assert (incrementIssueFlagCount id s
          = (Return tt,
             with_issues
               (set_where (Issue.set [Issue.isHidden_to (Some true)])
                  (and [Some (eq (col Issue.id) id);
                        Some (gte Issue.flagCount 5)])
                  (set_where
                     (Issue.set [Issue.flagCount_to
                                   (λ r, (λ n, n + 1) <$> Issue.flagCount r)])
                     (eq (col Issue.id) id) (issues s)))
               s)) as Hrun.
  { unfold incrementIssueFlagCount, bind.
    rewrite (update_by_id_ok _ s id i), hide_where_ok; [done..|].
    unfold Issue.set_check. simpl. rewrite Hc. simpl.
    destruct (consistent_int4 s id i Hs Hi) as (Hint & _).
    rewrite Hc in Hint. by rewrite int4_succ. }
  split; [|split; [|split; [|split; [|split; [|split]]]]];
    [| |by (unfold exec; rewrite Hrun)..
     |apply (consistent_perform (IncrementIssueFlagCount id) s Hs)].
  - unfold eval. by rewrite Hrun.
  - unfold exec. rewrite Hrun. cbn [fst snd].
    rewrite stored_with_issues, find_set_where, <- (stored_with_issues _ s),
      (stored_update_by_id _ s id i Hi).
    simpl. unfold flagged_once. rewrite Hc. simpl.
    destruct (decide (5 ≤ c + 1)) as [Hge|Hlt].
    + rewrite decide_True.
      * unfold Issue.set. simpl. by rewrite Hc.
      * apply holds_flag_threshold. unfold Issue.set. simpl. rewrite Hc.
        split; [by apply stored_elem_of in Hi as [_ ?]|]. eauto.
    + rewrite decide_False.
      * unfold Issue.set. simpl. by rewrite Hc.
      * rewrite holds_flag_threshold. unfold Issue.set. simpl. rewrite Hc.
        intros (_ & n & [= <-] & ?). done.
Qed.

(** ** Tables a method leaves alone *)

#[local] Instance keeps_preorder {X} (table : Store → X) : PreOrder (keeps table).
Proof.
  split; [by intros s|]. intros s1 s2 s3 H12 H23. unfold keeps in *. congruence.
Qed.

Section Keeps.

Context {X : Type} (table : Store → X).

Lemma keeps_update_issues values w :
  (∀ t s, table (with_issues t s) = table s) →
  preserves (keeps table) (update_issues values w).
Proof.
  intros H' s. unfold exec, keeps.
  destruct (update_issues_run values w s) as [(e & -> & _)|[-> _]]; simpl;
    [done|apply H'].
Qed.

Lemma keeps_insert_issue row :
  (∀ t s, table (with_issues t s) = table s) →
  preserves (keeps table) (insert_issue row).
Proof.
  intros H' s. unfold exec, keeps, insert_issue.
  repeat (case_match; simpl); try done; apply H'.
Qed.

Lemma keeps_insert_issueFlag row :
  (∀ t s, table (with_issueFlags t s) = table s) →
  preserves (keeps table) (insert_issueFlag row).
Proof.
  intros H' s. unfold exec, keeps, insert_issueFlag.
  repeat (case_match; simpl); try done; apply H'.
Qed.

Lemma keeps_insert_issueVote row :
  (∀ t s, table (with_issueVotes t s) = table s) →
  preserves (keeps table) (insert_issueVote row).
Proof.
  intros H' s. unfold exec, keeps, insert_issueVote.
  repeat (case_match; simpl); try done; apply H'.
Qed.

Lemma keeps_insert_issueStatusLog row :
  (∀ t s, table (with_issueStatusLogs t s) = table s) →
  preserves (keeps table) (insert_issueStatusLog row).
Proof.
  intros H' s. unfold exec, keeps, insert_issueStatusLog.
  repeat (case_match; simpl); try done; apply H'.
Qed.

End Keeps.

(** One step into a method: past a [ret], a read or a [throw], or into the
    two sides of a bind. *)
Ltac preserves_step :=
  first
    [ apply preserves_ret
    | apply preserves_gets
    | apply preserves_throw
    | apply preserves_bind ];
  lazymatch goal with
  | |- PreOrder _ => apply _
  | |- ∀ _, _ => intros ?
  | _ => idtac
  end.

(** Splits a method into its statements and settles those that cannot
    write the table in question. *)
Ltac keeps_table :=
  repeat first
    [ preserves_step
    | apply keeps_update_issues; done
    | apply keeps_insert_issue; done
    | apply keeps_insert_issueFlag; done
    | apply keeps_insert_issueVote; done
    | apply keeps_insert_issueStatusLog; done
    | progress unfold respond
    | case_match ].

(** The store a handler leaves is the one its body leaves, thrown or not. *)
Lemma try_catch_store zod failed handler s :
  (try_catch zod failed handler s).2 = exec handler s.
Proof.
  unfold try_catch, exec.
  destruct (handler s) as [[r|[|e]] s']; simpl; [done| |done].
  by destruct zod.
Qed.



(** ** One flag and one vote per issue and user *)

Lemma head_select_None {A} (w : @Cond A) (t : list A) :
  (∀ r, r ∈ t → ¬ holds w r) → head (select_where w t) = None.
Proof.
  intros H'. destruct (select_where w t) as [|r l] eqn:E; [done|].
  assert (r ∈ select_where w t) as Hr by (rewrite E; apply list_elem_of_here).
  apply elem_of_select_where in Hr as [? ?]. by destruct (H' r).
Qed.

Lemma head_select_is_Some {A} (w : @Cond A) (t : list A) r :
  r ∈ t → holds w r → is_Some (head (select_where w t)).
Proof.
  intros Hr Hw. destruct (select_where w t) as [|x l] eqn:E; [|by eexists].
  assert (r ∈ select_where w t) as H' by by apply elem_of_select_where.
  rewrite E in H'. by apply not_elem_of_nil in H'.
Qed.

Lemma holds_pair {A} (f g : A → string) (x y : string) (r : A) :
  holds (and [Some (eq (col f) x); Some (eq (col g) y)]) r ↔ f r = x ∧ g r = y.
Proof.
  rewrite !holds_and_cons_Some, !holds_eq_col.
  split; [by intros (? & ? & _)|]. intros [? ?]. split; [done|]. split; [done|].
  apply holds_and_nil.
Qed.


Lemma getUserFlaggedIssue_None issueId userId s :
  ¬ has_flagged s issueId userId →
  getUserFlaggedIssue issueId userId s = (Return None, s).
Proof.
  intros Hno. unfold getUserFlaggedIssue, gets.
  rewrite head_select_None; [done|].
  intros f Hf [? ?]%holds_pair. apply Hno. by exists f.
Qed.


Lemma getUserVoteForIssue_None issueId userId s :
  ¬ has_voted s issueId userId →
  getUserVoteForIssue issueId userId s = (Return None, s).
Proof.
  intros Hno. unfold getUserVoteForIssue, gets.
  rewrite head_select_None; [done|].
  intros v Hv [? ?]%holds_pair. apply Hno. by exists v.
Qed.





Lemma keeps_update_users {X} (table : Store → X) f w :
  (∀ t s, table (with_users t s) = table s) →
  preserves (keeps table) (update_users f w).
Proof. intros H' s. apply H'. Qed.

(** Unfolds the methods a handler calls down to their statements. *)
Ltac keeps_handler :=
  rewrite try_catch_store;
  unfold getUser, getUserFlaggedIssue, getUserVoteForIssue,
    insertIssueSchema_parse, insertIssueFlagSchema_parse,
    insertIssueVoteSchema_parse, createIssue, createStatusLog,
    updateIssueStatus, getIssue, hideIssue, flagIssue, voteForIssue,
    incrementIssueFlagCount, incrementIssueReportCount, banUser, unbanUser;
  repeat first [ apply keeps_update_users; done | keeps_table ].







Lemma NoDup_snoc {A} (l : list A) x : NoDup l → x ∉ l → NoDup (l ++ [x]).
Proof.
  intros Hl Hx. apply NoDup_app. split; [done|]. split; [|apply NoDup_singleton].
  intros y Hy [= ->]%list_elem_of_singleton. by destruct Hx.
Qed.




Lemma try_catch_201 zod failed handler s :
  statusCode (try_catch zod failed handler s).1 = 201 →
  ∃ r, handler s = (Return r, (try_catch zod failed handler s).2)
       ∧ statusCode r = 201.
Proof.
  unfold try_catch. destruct (handler s) as [[r|[|e]] s']; simpl.
  - eauto.
  - by destruct zod.
  - done.
Qed.

Lemma respond_inv code message s r s' :
  respond code message s = (Return r, s') →
  r = mkResponse code (Message message) ∧ s' = s.
Proof. by intros [= <- <-]. Qed.




(** ** The flag threshold *)

(** A flag request that succeeds. *)
Lemma post_flag_ok uuid now userId issueId reason s i c :
  consistent s → stored s issueId = Some i →
  Issue.flagCount i = Some c → c < 2147483647 →
  ¬ has_flagged s issueId userId → varchar 100 reason = true →
  uuid ∉ IssueFlag.id <$> issueFlags s → userId ∈ user_ids s →
  ∃ s', post_flag uuid now userId issueId reason s
        = (mkResponse 201 (Message "Issue flagged successfully"), s')
        ∧ stored s' issueId = Some (flagged_once i)
        ∧ users s' = users s
        ∧ issueFlags s'
          = issueFlags s ++ [IssueFlag.mk uuid issueId userId reason (Some now)]
        ∧ issueVotes s' = issueVotes s
        ∧ issueStatusLogs s' = issueStatusLogs s
        ∧ consistent s'.
Proof.
  intros Hs Hi Hc Hmax Hno Hreason Hfresh Huser.
  set (row := IssueFlag.mk uuid issueId userId reason (Some now)).
  set (s1 := with_issueFlags (issueFlags s ++ [row]) s).
  destruct (incrementIssueFlagCount_ok issueId s1 i c)
    as (Heval & Hstored & Husers & Hflags & Hvotes & Hlogs & Hcons);
    [done..|].
  exists (exec (incrementIssueFlagCount issueId) s1).
  split; [|done].
  unfold post_flag, try_catch.
  rewrite (bind_Return _ _ _ _ _ (getUserFlaggedIssue_None _ _ _ Hno)).
  unfold insertIssueFlagSchema_parse. rewrite Hreason.
  rewrite (bind_Return (ret _) _ s _ s eq_refl).
  assert (flagIssue uuid now (InsertIssueFlag.mk issueId userId reason) s
          = (Return tt, exec (incrementIssueFlagCount issueId) s1)) as Hflag.
  { unfold flagIssue.
    rewrite (bind_Return _ _ _ _ _
               (insert_issueFlag_ok row s Hreason Hfresh
                  (stored_in_issue_ids _ _ _ Hi) Huser)).
    simpl. fold row. fold s1.
    by rewrite (run_exec_eval (incrementIssueFlagCount issueId) s1), Heval. }
  by rewrite (bind_Return _ _ _ _ _ Hflag).
Qed.

Lemma flagged_once_count i c :
  Issue.flagCount i = Some c → Issue.flagCount (flagged_once i) = Some (c + 1).
Proof.
  intros Hc. unfold flagged_once. destruct i. simpl in *. subst. simpl.
  destruct (decide (5 ≤ c + 1)); reflexivity.
Qed.

Lemma flagged_once_hidden i c :
  Issue.flagCount i = Some c →
  Issue.isHidden (flagged_once i)
  = if decide (5 ≤ c + 1) then Some true else Issue.isHidden i.
Proof.
  intros Hc. unfold flagged_once. destruct i. simpl in *. subst. simpl.
  destruct (decide (5 ≤ c + 1)); reflexivity.
Qed.

Lemma flag_all_count issueId reqs : ∀ s i c,
  consistent s → stored s issueId = Some i →
  Issue.flagCount i = Some c →
  Issue.isHidden i = Some (bool_decide (5 ≤ c)) →
  c + Z.of_nat (length reqs) ≤ 2147483647 →
  NoDup (fr_userId <$> reqs) → NoDup (fr_uuid <$> reqs) →
  (∀ q, q ∈ reqs → can_flag s issueId q) →
  ∃ i', stored (flag_all issueId reqs s) issueId = Some i'
        ∧ Issue.flagCount i' = Some (c + Z.of_nat (length reqs))
        ∧ Issue.isHidden i' = Some (bool_decide (5 ≤ c + Z.of_nat (length reqs))).
Proof.
  induction reqs as [|q reqs IH]; intros s i c Hs Hi Hc Hh Hmax Hu Hid Hcan.
  { exists i. simpl. rewrite Z.add_0_r. done. }
  rewrite fmap_cons, NoDup_cons in Hu, Hid.
  destruct Hu as [Hu Hus], Hid as [Hid Hids].
  destruct (Hcan q) as (Huser & Hno & Hfresh & Hreason);
    [apply list_elem_of_here|].
  rewrite length_cons, Nat2Z.inj_succ in Hmax |- *.
  destruct (post_flag_ok (fr_uuid q) (fr_now q) (fr_userId q) issueId
              (fr_reason q) s i c)
    as (s' & Hrun & Hstored & Husers & Hflags & _ & _ & Hs');
    [done|done|done|lia|done|done|done|done|].
  simpl. rewrite Hrun. simpl.
  destruct (IH s' (flagged_once i) (c + 1)) as (i' & Hi' & Hc' & Hh');
    try done.
  - by apply flagged_once_count.
  - rewrite (flagged_once_hidden i c Hc), Hh.
    destruct (decide (5 ≤ c + 1)).
    + by rewrite bool_decide_eq_true_2.
    + by rewrite !bool_decide_eq_false_2 by lia.
  - lia.
  - intros q' Hq'. destruct (Hcan q') as (Huser' & Hno' & Hfresh' & Hreason');
      [by apply list_elem_of_further|].
    split; [by unfold user_ids; rewrite Husers|].
    split; [|split; [|done]].
    + intros (f & Hf & Hfi & Hfu). rewrite Hflags in Hf.
      apply elem_of_app in Hf as [Hf|Hf%list_elem_of_singleton].
      * apply Hno'. by exists f.
      * subst f. simpl in Hfu. apply Hu. rewrite Hfu.
        by apply list_elem_of_fmap_2.
    + rewrite Hflags, fmap_app. intros [Hin|Hin%list_elem_of_singleton]%elem_of_app.
      * done.
      * simpl in Hin. apply Hid. rewrite <- Hin. by apply list_elem_of_fmap_2.
  - exists i'. split; [done|]. replace (c + Z.succ (Z.of_nat (length reqs)))
      with (c + 1 + Z.of_nat (length reqs)) by lia. done.
Qed.

(** A relation that holds along every writing method of the storage holds
    along every request handler, thrown or not. *)
Section Handlers.

Context (P : relation Store) `{!PreOrder P}.
Hypothesis Pperform : ∀ w s, P s (perform w s).

Lemma along_createIssue uuid now issue : preserves P (createIssue uuid now issue).
Proof using Pperform. intros s. apply (Pperform (CreateIssue uuid now issue)). Qed.

Lemma along_createStatusLog uuid now log :
  preserves P (createStatusLog uuid now log).
Proof using Pperform.
  intros s. apply (Pperform (CreateStatusLog uuid now log)).
Qed.

Lemma along_flagIssue uuid now flag : preserves P (flagIssue uuid now flag).
Proof using Pperform. intros s. apply (Pperform (FlagIssue uuid now flag)). Qed.

Lemma along_voteForIssue uuid now vote : preserves P (voteForIssue uuid now vote).
Proof using Pperform. intros s. apply (Pperform (VoteForIssue uuid now vote)). Qed.

Lemma along_updateIssueStatus uuid now id status changedBy notes :
  preserves P (updateIssueStatus uuid now id status changedBy notes).
Proof using Pperform.
  intros s.
  apply (Pperform (UpdateIssueStatus uuid now id status changedBy notes)).
Qed.

Lemma along_hideIssue id : preserves P (hideIssue id).
Proof using Pperform. intros s. apply (Pperform (HideIssue id)). Qed.

Lemma along_banUser id : preserves P (banUser id).
Proof using Pperform. intros s. apply (Pperform (BanUser id)). Qed.

Lemma along_unbanUser id : preserves P (unbanUser id).
Proof using Pperform. intros s. apply (Pperform (UnbanUser id)). Qed.

Ltac along_handler :=
  rewrite try_catch_store;
  repeat first
    [ apply along_createIssue
    | apply along_createStatusLog
    | apply along_flagIssue
    | apply along_voteForIssue
    | apply along_updateIssueStatus
    | apply along_hideIssue
    | apply along_banUser
    | apply along_unbanUser
    | preserves_step
    | progress unfold respond, getUser, getUserFlaggedIssue,
        getUserVoteForIssue, insertIssueSchema_parse,
        insertIssueFlagSchema_parse, insertIssueVoteSchema_parse
    | case_match ].

Lemma along_handle (q : Request) s : P s (handle q s).2.
Proof using All.
  destruct q; simpl.
  - unfold post_issues. along_handler.
  - unfold post_flag. along_handler.
  - unfold post_vote. along_handler.
  - unfold patch_status. along_handler.
  - unfold patch_hide. along_handler.
  - unfold patch_ban. along_handler.
  - unfold patch_unban. along_handler.
Qed.

End Handlers.

Lemma never_unhides_handle (q : Request) s : never_unhides s (handle q s).2.
Proof. apply (along_handle never_unhides), never_unhides_perform. Qed.

Lemma consistent_handle (q : Request) s :
  consistent s → consistent (handle q s).2.
Proof.
  apply (along_handle (λ s s', consistent s → consistent s')).
  apply consistent_perform.
Qed.

(** Every store the server can be in satisfies the integrity of its
    [issues] table. *)
Lemma reachable_consistent s : reachable s → consistent s.
Proof.
  induction 1 as [|q s _ IH|w s _ IH].
  - apply consistent_empty.
  - by apply consistent_handle.
  - by apply consistent_perform.
Qed.

(** C1. (1) When [flagIssue] returns, the issue is hidden if its
    [flagCount] is now 5 or more.  (2) No writing method of the storage and
    no request handler turns a hidden issue into one that is not.  (3) When
    five different users of the store, none of whom has flagged it, flag an
    issue that had no flag and was not hidden, with fresh row ids and
    reasons that fit, the issue has [flagCount] k and is not hidden after
    the first k of the requests for k < 5, and has [flagCount] 5 and is
    hidden after the fifth. *)
Theorem hidden_from_the_fifth_flag :
  (∀ uuid now flag s i' n,
     eval (flagIssue uuid now flag) s = Return tt →
     stored (exec (flagIssue uuid now flag) s) (InsertIssueFlag.issueId flag)
     = Some i' →
     Issue.flagCount i' = Some n → 5 ≤ n →
     Issue.isHidden i' = Some true)
  ∧ (∀ w s id, hidden s id → hidden (perform w s) id)
  ∧ (∀ q s id, hidden s id → hidden (handle q s).2 id)
  ∧ (∀ s issueId i reqs,
       consistent s → stored s issueId = Some i →
       Issue.flagCount i = Some 0 → Issue.isHidden i = Some false →
       length reqs = 5%nat →
       NoDup (fr_userId <$> reqs) → NoDup (fr_uuid <$> reqs) →
       (∀ q, q ∈ reqs → can_flag s issueId q) →
       ∀ k, (k ≤ 5)%nat →
         ∃ i', stored (flag_all issueId (take k reqs) s) issueId = Some i'
               ∧ Issue.flagCount i' = Some (Z.of_nat k)
               ∧ Issue.isHidden i' = Some (bool_decide (k = 5%nat))).
Proof.
  split; [exact flagIssue_hides|].
  split; [exact (λ w s, never_unhides_perform w s)|].
  split; [exact (λ q s, never_unhides_handle q s)|].
  intros s issueId i reqs Hs Hi Hc Hh Hlen Hu Hid Hcan k Hk.
  destruct (flag_all_count issueId (take k reqs) s i 0)
    as (i' & Hi' & Hc' & Hh'); try done.
  - rewrite length_take. lia.
  - rewrite fmap_take.
    apply (sublist_NoDup _ (fr_userId <$> reqs)); [done|apply sublist_take].
  - rewrite fmap_take.
    apply (sublist_NoDup _ (fr_uuid <$> reqs)); [done|apply sublist_take].
  - intros q Hq%elem_of_take. destruct Hq as (j & Hj & _).
    apply Hcan. by eapply list_elem_of_lookup_2.
  - exists i'. rewrite length_take, Hlen in Hc', Hh'.
    replace (0 + Z.of_nat (k `min` 5)) with (Z.of_nat k) in Hc', Hh' by lia.
    split; [done|]. split; [done|]. rewrite Hh'. f_equal.
    apply bool_decide_ext. lia.
Qed.

(** ** Changing the status *)

Lemma updateIssueStatus_ok uuid now id status changedBy notes s i :
  consistent s → stored s id = Some i →
  varchar 20 (Some status) = true →
  changedBy ∈ user_ids s →
  uuid ∉ IssueStatusLog.id <$> issueStatusLogs s →
  ∃ s', updateIssueStatus uuid now id status changedBy notes s
        = (Return (Some (with_status status now i)), s')
        ∧ stored s' id = Some (with_status status now i)
        ∧ (∀ id', id' ≠ id → stored s' id' = stored s id')
        ∧ issueStatusLogs s'
          = issueStatusLogs s
            ++ [IssueStatusLog.mk uuid id (Issue.status i) status
                  (Some changedBy) notes (Some now)]
        ∧ users s' = users s
        ∧ issueFlags s' = issueFlags s
        ∧ issueVotes s' = issueVotes s.
Proof.
  intros Hs Hi Hstatus Huser Hfresh.
  set (values := [Issue.status_to (Some status); Issue.updatedAt_to (Some now)]).
  set (s1 := with_issues (set_where (Issue.set values) (eq (col Issue.id) id)
                            (issues s)) s).
  set (row := IssueStatusLog.mk uuid id (Issue.status i) status
                (Some changedBy) notes (Some now)).
  exists (with_issueStatusLogs (issueStatusLogs s ++ [row]) s1).
  split; [|split; [|split; [|done]]].
  - assert (Issue.set_check values i = None) as Hcheck.
    { unfold Issue.set_check, values. simpl. by rewrite Hstatus. }
    pose proof (update_by_id_ok values s id i Hs Hi Hcheck) as Hupd.
    assert (insert_issueStatusLog row s1
            = (Return tt,
               with_issueStatusLogs (issueStatusLogs s1 ++ [row]) s1)) as Hins.
    { apply insert_issueStatusLog_ok; try done.
      - by destruct (consistent_int4 s id i Hs Hi) as (_ & _ & ?).
      - unfold issue_ids, s1. simpl. rewrite set_where_ids.
        by apply stored_in_issue_ids in Hi.
      - by apply references_elem_of. }
    unfold updateIssueStatus.
    rewrite (bind_Return _ _ _ _ _ (getIssue_run id s)), Hi.
    rewrite (bind_Return _ _ _ _ _ Hupd).
    cbn [head]. unfold createStatusLog.
    cbn [InsertIssueStatusLog.issueId InsertIssueStatusLog.oldStatus
         InsertIssueStatusLog.newStatus InsertIssueStatusLog.changedBy
         InsertIssueStatusLog.notes].
    fold row. fold s1.
    by rewrite (bind_Return _ _ _ _ _ Hins).
  - rewrite (stored_issues s1) by done.
    unfold s1. by rewrite (stored_update_by_id values s id i Hi).
  - intros id' Hne. rewrite (stored_issues s1) by done.
    unfold s1. rewrite stored_set_where.
    destruct (stored s id') as [r|] eqn:Hr; [|done]. simpl.
    rewrite decide_False; [done|].
    rewrite holds_eq_col. by apply stored_elem_of in Hr as [_ ->].
Qed.


Lemma getUser_run userId s : getUser userId s = (Return (user_of s userId), s).
Proof. done. Qed.

Lemma user_of_in_ids s userId u : user_of s userId = Some u → userId ∈ user_ids s.
Proof.
  unfold user_of, eval, getUser, gets. simpl. intros H'.
  apply head_Some_elem_of, elem_of_select_where in H' as [Hu H'].
  apply -> (holds_eq_col User.id) in H'. subst userId.
  unfold user_ids. by apply list_elem_of_fmap_2.
Qed.

(** C6. For an admin, an issue of the store with whatever status, and any
    requested status that fits the column ("reported", "in_progress" and
    "resolved" do), [PATCH /api/admin/issues/:id/status] answers 200 with
    the issue at the requested status, stores it so, and logs the change
    from the former status to the requested one: no pair of a former and a
    requested status is refused, so an issue leaves "resolved" like any
    other status. *)
Theorem patch_status_any_transition
    (uuid : string) (now : Timestamp) (userId id status : string)
    (notes : option string) (s : Store) (admin : User.t) (i : Issue.t) :
  consistent s →
  user_of s userId = Some admin → User.isAdmin admin = Some true →
  stored s id = Some i →
  (String.length status ≤ 20)%nat →
  uuid ∉ IssueStatusLog.id <$> issueStatusLogs s →
  ∃ i' s' entry,
    patch_status uuid now userId id status notes s
    = (mkResponse 200 (IssueJson i'), s')
    ∧ Issue.status i' = Some status
    ∧ stored s' id = Some i'
    ∧ issueStatusLogs s' = issueStatusLogs s ++ [entry]
    ∧ IssueStatusLog.issueId entry = id
    ∧ IssueStatusLog.oldStatus entry = Issue.status i
    ∧ IssueStatusLog.newStatus entry = status.
Proof.
  intros Hs Hadmin Hisadmin Hi Hlen Hfresh.
  destruct (updateIssueStatus_ok uuid now id status userId notes s i)
    as (s' & Hrun & Hstored & _ & Hlogs & _); [done..| | |done|].
  { unfold varchar. by apply bool_decide_eq_true_2. }
  { by eapply user_of_in_ids. }
  exists (with_status status now i), s',
    (IssueStatusLog.mk uuid id (Issue.status i) status (Some userId) notes
       (Some now)).
  split; [|by repeat split].
  unfold patch_status, try_catch.
  rewrite (bind_Return _ _ _ _ _ (getUser_run userId s)), Hadmin.
  unfold is_admin. rewrite Hisadmin. simpl.
  by rewrite (bind_Return _ _ _ _ _ Hrun).
Qed.

(** ** Voting *)

Lemma incrementIssueReportCount_ok id s i n :
  consistent s → stored s id = Some i →
  Issue.reportCount i = Some n → n < 2147483647 →
  incrementIssueReportCount id s
  = (Return tt,
     with_issues
       (set_where
          (Issue.set [Issue.reportCount_to
                        (λ r, (λ n, n + 1) <$> Issue.reportCount r)])
          (eq (col Issue.id) id) (issues s)) s).
Proof.
  intros Hs Hi Hn Hmax. unfold incrementIssueReportCount.
  assert (Issue.set_check
            [Issue.reportCount_to (λ r, (λ n, n + 1) <$> Issue.reportCount r)] i
          = None) as Hcheck.
  { unfold Issue.set_check. simpl. rewrite Hn. simpl.
    destruct (consistent_int4 s id i Hs Hi) as (_ & Hint & _).
    rewrite Hn in Hint. by rewrite int4_succ. }
  by rewrite (bind_Return _ _ _ _ _ (update_by_id_ok _ s id i Hs Hi Hcheck)).
Qed.

(** C7. When a user of the store who has no vote on an issue of the store
    votes for it, the row id drawn being fresh and the counter below the
    largest [integer], the request is answered with 201, one row is
    appended to the votes, the [reportCount] of the issue is one more than
    before and its other columns are as before; the other issues and the
    other tables are as before. *)
Theorem post_vote_counts_once
    (uuid : string) (now : Timestamp) (userId issueId : string)
    (s : Store) (i : Issue.t) (n : Z) :
  consistent s →
  stored s issueId = Some i →
  Issue.reportCount i = Some n → n < 2147483647 →
  userId ∈ user_ids s →
  ¬ has_voted s issueId userId →
  uuid ∉ IssueVote.id <$> issueVotes s →
  ∃ i' s',
    post_vote uuid now userId issueId s
    = (mkResponse 201 (Message "Vote recorded successfully"), s')
    ∧ issueVotes s' = issueVotes s ++ [IssueVote.mk uuid issueId userId (Some now)]
    ∧ stored s' issueId = Some i'
    ∧ Issue.reportCount i' = Some (n + 1)
    ∧ same_but_reportCount i i'
    ∧ (∀ id', id' ≠ issueId → stored s' id' = stored s id')
    ∧ length (issues s') = length (issues s)
    ∧ users s' = users s
    ∧ issueFlags s' = issueFlags s
    ∧ issueStatusLogs s' = issueStatusLogs s.
Proof.
  intros Hs Hi Hn Hmax Huser Hno Hfresh.
  set (row := IssueVote.mk uuid issueId userId (Some now)).
  set (s1 := with_issueVotes (issueVotes s ++ [row]) s).
  set (values := [Issue.reportCount_to
                    (λ r, (λ n, n + 1) <$> Issue.reportCount r)]).
  set (s2 := with_issues (set_where (Issue.set values)
                            (eq (col Issue.id) issueId) (issues s1)) s1).
  exists (Issue.set_reportCount (Some (n + 1)) i), s2.
  split; [|split; [done|split; [|split; [done|split; [|split; [|split]]]]]].
  - unfold post_vote, try_catch.
    rewrite (bind_Return _ _ _ _ _ (getUserVoteForIssue_None _ _ _ Hno)).
    unfold insertIssueVoteSchema_parse.
    rewrite (bind_Return (ret _) _ s _ s eq_refl).
    assert (voteForIssue uuid now (InsertIssueVote.mk issueId userId) s
            = (Return tt, s2)) as Hvote.
    { unfold voteForIssue.
      rewrite (bind_Return _ _ _ _ _
                 (insert_issueVote_ok row s Hfresh
                    (stored_in_issue_ids _ _ _ Hi) Huser)).
      simpl. fold row. fold s1.
      by apply (incrementIssueReportCount_ok issueId s1 i n). }
    by rewrite (bind_Return _ _ _ _ _ Hvote).
  - unfold s2. rewrite (stored_update_by_id values s1 issueId i Hi).
    unfold Issue.set, values. simpl. by rewrite Hn.
  - by destruct i.
  - intros id' Hne. unfold s2. rewrite stored_set_where.
    change (stored s1 id') with (stored s id').
    destruct (stored s id') as [r|] eqn:Hr; [|done]. simpl.
    rewrite decide_False; [done|].
    rewrite holds_eq_col. by apply stored_elem_of in Hr as [_ ->].
  - unfold s2. simpl. apply set_where_length.
  - done.
Qed.

(** ** Creating an issue *)

Lemma insert_issue_Return_inv row s r s' :
  insert_issue row s = (Return r, s') →
  r = row ∧ s' = with_issues (issues s ++ [row]) s.
Proof. unfold insert_issue. repeat case_match; naive_solver. Qed.

Lemma insert_issueStatusLog_Return_inv row s r s' :
  insert_issueStatusLog row s = (Return r, s') →
  s' = with_issueStatusLogs (issueStatusLogs s ++ [row]) s.
Proof. unfold insert_issueStatusLog. repeat case_match; naive_solver. Qed.

Lemma insertIssueSchema_parse_inv o s issueData s' :
  insertIssueSchema_parse o s = (Return issueData, s') →
  InsertIssue.status issueData = Some <$> IssueForm.status o ∧ s' = s.
Proof.
  unfold insertIssueSchema_parse. repeat case_match; try done.
  by intros [= <- <-].
Qed.

(** What a creation request answered with 201 has written: the issue, with
    the status of the body when the body has one, and the first entry of
    its status log, which says "reported" in either case. *)
Lemma post_issues_created uuid_issue uuid_log now userId reqBody files s :
  statusCode (post_issues uuid_issue uuid_log now userId reqBody files s).1 = 201 →
  ∃ issue,
    (post_issues uuid_issue uuid_log now userId reqBody files s).1
    = mkResponse 201 (IssueJson issue)
    ∧ issues (post_issues uuid_issue uuid_log now userId reqBody files s).2
      = issues s ++ [issue]
    ∧ Issue.id issue = uuid_issue
    ∧ Issue.status issue
      = match IssueBody.status reqBody with
        | Some status => Some status
        | None => Some "reported"
        end
    ∧ Issue.flagCount issue = Some 0
    ∧ Issue.reportCount issue = Some 1
    ∧ Issue.isHidden issue = Some false
    ∧ issueStatusLogs
        (post_issues uuid_issue uuid_log now userId reqBody files s).2
      = issueStatusLogs s
        ++ [IssueStatusLog.mk uuid_log uuid_issue None "reported"
              (Some userId) (Some "Issue reported") (Some now)].
Proof.
  unfold post_issues. intros (r & Hrun & H201)%try_catch_201.
  unfold try_catch. rewrite Hrun. cbn [fst snd].
  remember (try_catch _ _ _ s).2 as s' eqn:Hs'. clear Hs'.
  apply bind_Return_inv in Hrun as (user & s1 & Hget & Hrun).
  injection Hget as _ <-.
  destruct (is_banned user).
  { apply respond_inv in Hrun as [-> _]. done. }
  apply bind_Return_inv in Hrun as (issueData & s2 & Hparse & Hrun).
  apply insertIssueSchema_parse_inv in Hparse as [Hstatus ->].
  apply bind_Return_inv in Hrun as (issue & s3 & Hcreate & Hrun).
  apply insert_issue_Return_inv in Hcreate as [-> ->].
  apply bind_Return_inv in Hrun as ([] & s4 & Hlog & Hrun).
  apply insert_issueStatusLog_Return_inv in Hlog as ->.
  injection Hrun as <- <-.
  eexists. split; [done|]. simpl. rewrite Hstatus. simpl.
  repeat split. by destruct (IssueBody.status reqBody).
Qed.

(** ** A worked run *)

Example sample_store_issues : issues sample_store = [sample_issue].
Proof. by vm_compute. Qed.

Example sample_store_logs :
  issueStatusLogs sample_store
  = [IssueStatusLog.mk "l1" "i1" None "reported" (Some "bob")
       (Some "Issue reported") (Some 10)].
Proof. by vm_compute. Qed.

(** Four flags leave the issue visible, the fifth hides it, and a sixth
    flag by one of the five is refused. *)
Example four_flags_then_five :
  Issue.isHidden <$> issues (flag_all "i1" (take 4 sample_flags) sample_store)
  = [Some false]
  ∧ Issue.isHidden <$> issues (flag_all "i1" sample_flags sample_store)
    = [Some true]
  ∧ (post_flag "f6" 16 "carol" "i1" None
       (flag_all "i1" sample_flags sample_store)).1
    = mkResponse 400 (Message "Issue already flagged by user").
Proof. by vm_compute. Qed.


(** C9, as it fails: one issue that is not hidden has the empty string for
    status, and [issuesByStatus] has no key for it. *)
Lemma analytics_skips_the_empty_status :
  ¬ (∀ s, ∃ a,
       getIssueAnalytics s = (Return a, s)
       ∧ ∀ st, issuesByStatus a !! st
               = if decide (how_many (λ i, visible i ∧ Issue.status i = Some st)
                              (issues s) = 0)
                 then None
                 else Some (how_many (λ i, visible i ∧ Issue.status i = Some st)
                              (issues s))).
Proof.
  intros H'. destruct (H' sample_blank_status) as (a & Ha & Hst).
  specialize (Hst ""). injection Ha as <-.
  vm_compute in Hst. discriminate Hst.
Qed.

(** Settles a decidable statement about the sample run by evaluation. *)
Ltac by_evaluation := apply (bool_decide_unpack _); vm_compute; exact I.


Lemma patch_status_any_transition_witness :
  stored sample_resolved "i1" = Some (with_status "resolved" 20 sample_issue)
  ∧ ∃ i' s' entry,
      patch_status "l3" 30 "alice" "i1" "reported" None sample_resolved
      = (mkResponse 200 (IssueJson i'), s')
      ∧ Issue.status i' = Some "reported"
      ∧ stored s' "i1" = Some i'
      ∧ issueStatusLogs s' = issueStatusLogs sample_resolved ++ [entry]
      ∧ IssueStatusLog.issueId entry = "i1"
      ∧ IssueStatusLog.oldStatus entry
        = Issue.status (with_status "resolved" 20 sample_issue)
      ∧ IssueStatusLog.newStatus entry = "reported".
Proof.
  split; [reflexivity|].
  apply (patch_status_any_transition "l3" 30 "alice" "i1" "reported" None
           sample_resolved (sample_user "alice" true)
           (with_status "resolved" 20 sample_issue)).
  - by_evaluation.
  - reflexivity.
  - reflexivity.
  - reflexivity.
  - simpl. lia.
  - by_evaluation.
Defined.

Lemma post_vote_counts_once_witness :
  ¬ has_voted sample_store "i1" "carol"
  ∧ ∃ i' s',
      post_vote "v1" 21 "carol" "i1" sample_store
      = (mkResponse 201 (Message "Vote recorded successfully"), s')
      ∧ issueVotes s'
        = issueVotes sample_store ++ [IssueVote.mk "v1" "i1" "carol" (Some 21)]
      ∧ stored s' "i1" = Some i'
      ∧ Issue.reportCount i' = Some (1 + 1)
      ∧ same_but_reportCount sample_issue i'
      ∧ (∀ id', id' ≠ "i1" → stored s' id' = stored sample_store id')
      ∧ length (issues s') = length (issues sample_store)
      ∧ users s' = users sample_store
      ∧ issueFlags s' = issueFlags sample_store
      ∧ issueStatusLogs s' = issueStatusLogs sample_store.
Proof.
  split; [by_evaluation|].
  apply (post_vote_counts_once "v1" 21 "carol" "i1" sample_store sample_issue 1).
  - by_evaluation.
  - reflexivity.
  - reflexivity.
  - lia.
  - by_evaluation.
  - by_evaluation.
  - by_evaluation.
Defined.

Lemma hidden_from_the_fifth_flag_witness :
  (∃ i', stored (flag_all "i1" (take 4 sample_flags) sample_store) "i1" = Some i'
         ∧ Issue.flagCount i' = Some (Z.of_nat 4)
         ∧ Issue.isHidden i' = Some (bool_decide (4%nat = 5%nat)))
  ∧ (∃ i', stored (flag_all "i1" (take 5 sample_flags) sample_store) "i1" = Some i'
           ∧ Issue.flagCount i' = Some (Z.of_nat 5)
           ∧ Issue.isHidden i' = Some (bool_decide (5%nat = 5%nat))).
Proof.
  destruct hidden_from_the_fifth_flag as (_ & _ & _ & Hfive).
  assert (∀ q, q ∈ sample_flags → can_flag sample_store "i1" q) as Hcan.
  { apply Forall_forall. by_evaluation. }
  split.
  - apply (Hfive sample_store "i1" sample_issue sample_flags);
      [by_evaluation|reflexivity|reflexivity|reflexivity|reflexivity
      |by_evaluation|by_evaluation|exact Hcan|lia].
  - apply (Hfive sample_store "i1" sample_issue sample_flags);
      [by_evaluation|reflexivity|reflexivity|reflexivity|reflexivity
      |by_evaluation|by_evaluation|exact Hcan|lia].
Defined.


(** ** The proximity query at the place of an issue *)

Lemma distance_to_itself (i : Issue.t) :
  distanceQuery (decimal8_value (Issue.latitude i))
    (decimal8_value (Issue.longitude i)) i = 0%R.
Proof.
  unfold distanceQuery.
  set (x := radians (decimal8_value (Issue.latitude i))).
  set (y := radians (decimal8_value (Issue.longitude i))).
  replace (cos x * cos x * cos (y - y) + sin x * sin x)%R with 1%R.
  - rewrite acos_1. lra.
  - replace (y - y)%R with 0%R by lra. rewrite cos_0.
    pose proof (sin2_cos2 x) as H'. unfold Rsqr in H'. lra.
Qed.

(** A query at the place of the sample issue, with a radius of one
    kilometre, returns it. *)
Example nearby_returns_the_issue_at_its_place :
  getIssuesNearLocation (decimal8_value 3777490000)
    (decimal8_value (-12241940000)) 1 (Filters.mk None None None None)
    sample_store
  = (Return [sample_issue], sample_store).
Proof.
  unfold getIssuesNearLocation, gets. f_equal. f_equal.
  rewrite sample_store_issues. unfold select_where.
  rewrite filter_cons, filter_nil, decide_True; [done|].
  apply holds_nearby_where. split; [|by repeat split].
  change (decimal8_value 3777490000)
    with (decimal8_value (Issue.latitude sample_issue)).
  change (decimal8_value (-12241940000))
    with (decimal8_value (Issue.longitude sample_issue)).
  rewrite distance_to_itself. lra.
Qed.

(** A query a quarter of the way round the equator, with a radius of five
    kilometres, does not return it. *)
Example nearby_leaves_out_the_far_issue :
  getIssuesNearLocation 0 90 5 (Filters.mk None None None None) equator_store
  = (Return [], equator_store).
Proof.
  unfold getIssuesNearLocation, gets. f_equal. f_equal.
  unfold equator_store. simpl issues. unfold select_where.
  rewrite filter_cons, filter_nil, decide_False; [done|].
  rewrite holds_nearby_where. intros [Hd _]. revert Hd.
  unfold distanceQuery, radians, decimal8_value, equator_issue. simpl.
  replace (0 * PI / 180)%R with 0%R by lra.
  replace (0 / 100000000 * PI / 180)%R with 0%R by lra.
  replace (0 - 90 * PI / 180)%R with (- (PI / 2))%R by lra.
  rewrite cos_neg, cos_PI2, cos_0, sin_0.
  replace (1 * 1 * 0 + 0 * 0)%R with 0%R by lra.
  rewrite acos_0. pose proof PI2_3_2. lra.
Qed.

(** * Further properties *)

(** ** Requests that are turned down *)

(** A status change that finds no issue writes nothing. *)
Lemma updateIssueStatus_None uuid now id status changedBy notes s s' :
  updateIssueStatus uuid now id status changedBy notes s = (Return None, s') →
  stored s id = None ∧ s' = s.
Proof.
  unfold updateIssueStatus. rewrite bind_unfold, getIssue_run.
  destruct (stored s id) as [current|] eqn:Hcur; [|by intros [= <-]].
  rewrite bind_unfold.
  destruct (update_issues_run
              [Issue.status_to (Some status); Issue.updatedAt_to (Some now)]
              (eq (col Issue.id) id) s) as [(e & -> & _)|[-> _]]; [done|].
  unfold stored, eval, getIssue, gets in Hcur. simpl in Hcur.
  destruct (select_where (eq (col Issue.id) id) (issues s)) as [|r t];
    [done|].
  simpl. rewrite bind_unfold. repeat case_match; unfold ret; by intros [=].
Qed.

Ltac not_turned_down :=
  lazymatch goal with
  | H : turned_down _ |- _ => by destruct H as [H|[H|H]]
  end.



Lemma database_only_ret {A} (a : A) : database_only (ret a).
Proof. by intros s s'. Qed.

Lemma database_only_gets {A} (f : Store → A) : database_only (gets f).
Proof. by intros s s'. Qed.

Lemma database_only_bind {A B} (m : Db A) (k : A → Db B) :
  database_only m → (∀ a, database_only (k a)) → database_only (bind m k).
Proof.
  intros Hm Hk s s'. rewrite bind_unfold.
  destruct (m s) as [[a|e] s1] eqn:E; [apply Hk|].
  intros [= -> ->]. by apply Hm in E.
Qed.

Lemma database_only_insert_issue row : database_only (insert_issue row).
Proof. intros s s'. unfold insert_issue. by repeat case_match. Qed.

Lemma database_only_update_issues values w :
  database_only (update_issues values w).
Proof. intros s s'. unfold update_issues. by repeat case_match. Qed.

Lemma database_only_insert_issueStatusLog row :
  database_only (insert_issueStatusLog row).
Proof. intros s s'. unfold insert_issueStatusLog. by repeat case_match. Qed.

Lemma database_only_insert_issueFlag row : database_only (insert_issueFlag row).
Proof. intros s s'. unfold insert_issueFlag. by repeat case_match. Qed.

Lemma database_only_insert_issueVote row : database_only (insert_issueVote row).
Proof. intros s s'. unfold insert_issueVote. by repeat case_match. Qed.

Lemma database_only_update_users f w : database_only (update_users f w).
Proof. by intros s s'. Qed.

Lemma database_only_upsertUser uuid now userData :
  database_only (upsertUser uuid now userData).
Proof. intros s s'. unfold upsertUser. by repeat case_match. Qed.

Ltac solve_database_only :=
  repeat first
    [ apply database_only_ret
    | apply database_only_gets
    | apply database_only_insert_issue
    | apply database_only_update_issues
    | apply database_only_insert_issueStatusLog
    | apply database_only_insert_issueFlag
    | apply database_only_insert_issueVote
    | apply database_only_update_users
    | apply database_only_upsertUser
    | apply database_only_bind; [|intros ?]
    | case_match ].

Lemma database_only_createIssue uuid now issue :
  database_only (createIssue uuid now issue).
Proof. apply database_only_insert_issue. Qed.

Lemma database_only_createStatusLog uuid now log :
  database_only (createStatusLog uuid now log).
Proof. apply database_only_insert_issueStatusLog. Qed.

Lemma database_only_flagIssue uuid now flag :
  database_only (flagIssue uuid now flag).
Proof. unfold flagIssue, incrementIssueFlagCount. solve_database_only. Qed.

Lemma database_only_voteForIssue uuid now vote :
  database_only (voteForIssue uuid now vote).
Proof. unfold voteForIssue, incrementIssueReportCount. solve_database_only. Qed.

Ltac no_zod :=
  lazymatch goal with
  | H : createIssue _ _ _ _ = (Throw ZodError, _) |- _ =>
    destruct (database_only_createIssue _ _ _ _ _ H)
  | H : createStatusLog _ _ _ _ = (Throw ZodError, _) |- _ =>
    destruct (database_only_createStatusLog _ _ _ _ _ H)
  | H : flagIssue _ _ _ _ = (Throw ZodError, _) |- _ =>
    destruct (database_only_flagIssue _ _ _ _ _ H)
  | H : voteForIssue _ _ _ _ = (Throw ZodError, _) |- _ =>
    destruct (database_only_voteForIssue _ _ _ _ _ H)
  end.

Ltac run_handler :=
  unfold try_catch, bind, respond, ret, throw, getUser, getUserFlaggedIssue,
    getUserVoteForIssue, gets, insertIssueSchema_parse,
    insertIssueFlagSchema_parse, insertIssueVoteSchema_parse, ret, throw;
  simpl;
  repeat (case_match; simplify_eq; simpl in * ).


(** X1. A request that is answered 400, 403 or 404 has written nothing:
    the store after it is the store before it, whichever of the seven
    writing routes it went to. *)
Theorem a_request_turned_down_writes_nothing (q : Request) (s : Store) :
  turned_down (handle q s).1 → (handle q s).2 = s.
Proof.
  destruct q; simpl.
  - unfold post_issues. run_handler; intros; try done; try not_turned_down; no_zod.
  - unfold post_flag. run_handler; intros; try done; try not_turned_down; no_zod.
  - unfold post_vote. run_handler; intros; try done; try not_turned_down; no_zod.
  - unfold patch_status. run_handler; intros; try done; try not_turned_down.
    by eapply updateIssueStatus_None.
  - unfold patch_hide. run_handler; intros; try done; try not_turned_down.
  - unfold patch_ban. run_handler; intros; try done; try not_turned_down.
  - unfold patch_unban. run_handler; intros; try done; try not_turned_down.
Qed.

Lemma a_request_turned_down_writes_nothing_witness :
  turned_down (handle (PostVote "v2" 22 "carol" "i1")
                 (handle (PostVote "v1" 21 "carol" "i1") sample_store).2).1
  ∧ (handle (PostVote "v2" 22 "carol" "i1")
       (handle (PostVote "v1" 21 "carol" "i1") sample_store).2).2
    = (handle (PostVote "v1" 21 "carol" "i1") sample_store).2.
Proof.
  assert (turned_down
            (handle (PostVote "v2" 22 "carol" "i1")
               (handle (PostVote "v1" 21 "carol" "i1") sample_store).2).1)
    as Hdown by (left; reflexivity).
  split; [exact Hdown|].
  exact (a_request_turned_down_writes_nothing _ _ Hdown).
Defined.

(** ** Who may do what *)

Lemma not_admin s userId : ¬ admin s userId → is_admin (user_of s userId) = false.
Proof.
  unfold admin, is_admin. intros Hno.
  destruct (user_of s userId) as [u|]; [|done].
  destruct (User.isAdmin u) as [[|]|] eqn:E; [|done..].
  destruct Hno. by exists u.
Qed.

Lemma is_admin_true s userId : admin s userId → is_admin (user_of s userId) = true.
Proof. intros (u & -> & Hu). unfold is_admin. by rewrite Hu. Qed.

Lemma is_banned_true s userId :
  banned s userId → is_banned (user_of s userId) = true.
Proof. intros (u & -> & Hu). unfold is_banned. by rewrite Hu. Qed.


Ltac refused_at_the_door H :=
  unfold try_catch, try_catch_500; rewrite bind_unfold, getUser_run, H; done.

(** X2. To a user who is not an admin (not in the table, or with an
    [isAdmin] that is not true) each of the six admin routes, the four that
    write and the two that read, answers 403 "Admin access required" and
    leaves the store as it is. *)
Theorem admin_routes_refuse_everyone_else (userId : string) (s : Store) :
  ¬ admin s userId →
  (∀ uuid now id status notes,
     patch_status uuid now userId id status notes s
     = (mkResponse 403 (Message "Admin access required"), s))
  ∧ (∀ id, patch_hide userId id s
           = (mkResponse 403 (Message "Admin access required"), s))
  ∧ (∀ id, patch_ban userId id s
           = (mkResponse 403 (Message "Admin access required"), s))
  ∧ (∀ id, patch_unban userId id s
           = (mkResponse 403 (Message "Admin access required"), s))
  ∧ get_admin_flagged userId s
    = (mkReply 403 (Refused "Admin access required"), s)
  ∧ get_admin_analytics userId s
    = (mkReply 403 (Refused "Admin access required"), s).
Proof.
  intros Hno%not_admin.
  repeat split; intros;
    unfold patch_status, patch_hide, patch_ban, patch_unban,
      get_admin_flagged, get_admin_analytics;
    refused_at_the_door Hno.
Qed.

Lemma admin_routes_refuse_everyone_else_witness :
  ¬ admin sample_store "bob"
  ∧ patch_hide "bob" "i1" sample_store
    = (mkResponse 403 (Message "Admin access required"), sample_store).
Proof.
  assert (¬ admin sample_store "bob") as Hno by by_evaluation.
  split; [exact Hno|].
  exact (proj1 (proj2 (admin_routes_refuse_everyone_else "bob" sample_store Hno))
           "i1").
Defined.

(** ** Bans *)

Lemma select_where_fmap {A} (g : A → A) (w : Cond) (t : list A) :
  (∀ r, holds w (g r) ↔ holds w r) →
  select_where w (g <$> t) = g <$> select_where w t.
Proof.
  intros Hg. unfold select_where. induction t as [|r t IH]; [done|].
  rewrite fmap_cons, !filter_cons.
  destruct (decide (holds w (g r))) as [H1|H1],
           (decide (holds w r)) as [H2|H2];
    rewrite ?fmap_cons, IH; try done.
  - destruct H2. by apply Hg.
  - destruct H1. by apply Hg.
Qed.

Lemma set_where_untouched {A} (f : A → A) (w : Cond) (t : list A) :
  (∀ r, r ∈ t → ¬ holds w r) → set_where f w t = t.
Proof.
  intros Hno. unfold set_where. rewrite <- (list_fmap_id t) at 2.
  apply list_fmap_ext. intros k r Hr. simpl.
  destruct (decide _) as [Hw|]; [|done].
  destruct (Hno r); [by eapply list_elem_of_lookup_2|done].
Qed.

Lemma with_users_same s : with_users (users s) s = s.
Proof. by destruct s. Qed.

Lemma with_issues_same s : with_issues (issues s) s = s.
Proof. by destruct s. Qed.

Lemma user_of_users s uid :
  user_of s uid = head (select_where (eq (col User.id) uid) (users s)).
Proof. done. Qed.

Lemma user_of_is_Some s uid : uid ∈ user_ids s ↔ is_Some (user_of s uid).
Proof.
  split.
  - intros (u & -> & Hu)%list_elem_of_fmap. rewrite user_of_users.
    eapply head_select_is_Some; [done|]. by apply holds_eq_col.
  - intros [u Hu]. by eapply user_of_in_ids.
Qed.

(** A user row written by an update that keeps the id of the rows it
    writes, looked up again. *)
Lemma user_of_set_where (f : User.t → User.t) id s uid :
  (∀ r, User.id r = id → User.id (f r) = User.id r) →
  user_of (with_users (set_where f (eq (col User.id) id) (users s)) s) uid
  = (if decide (uid = id) then f else λ r, r) <$> user_of s uid.
Proof.
  intros Hf. rewrite !user_of_users. simpl. unfold set_where.
  rewrite select_where_fmap.
  - destruct (select_where _ (users s)) as [|r t] eqn:E; [done|]. simpl.
    assert (r ∈ select_where (eq (col User.id) uid) (users s)) as Hr
      by (rewrite E; apply list_elem_of_here).
    apply elem_of_select_where in Hr as [_ Hr].
    apply -> (holds_eq_col User.id) in Hr. f_equal.
    destruct (decide (holds _ r)) as [Hw|Hw], (decide (uid = id)) as [->|Hne];
      try done.
    + apply -> (holds_eq_col User.id) in Hw. congruence.
    + destruct Hw. by apply holds_eq_col.
  - intros r. destruct (decide _) as [Hw|]; [|done].
    apply -> (holds_eq_col User.id) in Hw.
    unfold holds, eq, col. by rewrite Hf.
Qed.

Lemma update_users_untouched f id s :
  id ∉ user_ids s → exec (update_users f (eq (col User.id) id)) s = s.
Proof.
  intros Hid. unfold exec, update_users, modify. simpl.
  rewrite set_where_untouched; [apply with_users_same|].
  intros r Hr Hw. apply -> (holds_eq_col User.id) in Hw. subst id.
  apply Hid. by apply list_elem_of_fmap_2.
Qed.

Lemma patch_ban_run adminId id s :
  admin s adminId →
  patch_ban adminId id s
  = (mkResponse 200 (Message "User banned successfully"), exec (banUser id) s).
Proof.
  intros Hadmin%is_admin_true. unfold patch_ban, try_catch.
  by rewrite bind_unfold, getUser_run, Hadmin.
Qed.

Lemma patch_unban_run adminId id s :
  admin s adminId →
  patch_unban adminId id s
  = (mkResponse 200 (Message "User unbanned successfully"),
     exec (unbanUser id) s).
Proof.
  intros Hadmin%is_admin_true. unfold patch_unban, try_catch.
  by rewrite bind_unfold, getUser_run, Hadmin.
Qed.

Lemma user_of_set_isBanned b id s uid :
  user_of (exec (update_users (User.set_isBanned (Some b))
                   (eq (col User.id) id)) s) uid
  = (if decide (uid = id) then User.set_isBanned (Some b) else λ r, r)
      <$> user_of s uid.
Proof. by apply user_of_set_where. Qed.

(** X3. For an admin, [PATCH /api/admin/users/:id/ban] answers 200 and
    sets [isBanned] to true on the user with that id, and [.../unban] sets
    it to false: the other columns of that user, every other user, the
    order of the users and the four other tables are as before. *)
Theorem patch_ban_and_patch_unban_write_one_column_of_one_user
    (adminId id : string) (s : Store) :
  admin s adminId →
  (∃ s', patch_ban adminId id s
         = (mkResponse 200 (Message "User banned successfully"), s')
         ∧ user_of s' id = User.set_isBanned (Some true) <$> user_of s id
         ∧ (∀ other, other ≠ id → user_of s' other = user_of s other)
         ∧ user_ids s' = user_ids s
         ∧ issues s' = issues s
         ∧ issueFlags s' = issueFlags s
         ∧ issueVotes s' = issueVotes s
         ∧ issueStatusLogs s' = issueStatusLogs s)
  ∧ (∃ s', patch_unban adminId id s
           = (mkResponse 200 (Message "User unbanned successfully"), s')
           ∧ user_of s' id = User.set_isBanned (Some false) <$> user_of s id
           ∧ (∀ other, other ≠ id → user_of s' other = user_of s other)
           ∧ user_ids s' = user_ids s
           ∧ issues s' = issues s
           ∧ issueFlags s' = issueFlags s
           ∧ issueVotes s' = issueVotes s
           ∧ issueStatusLogs s' = issueStatusLogs s).
Proof.
  intros Hadmin.
  assert (∀ b, user_ids (exec (update_users (User.set_isBanned (Some b))
                                 (eq (col User.id) id)) s) = user_ids s) as Hids.
  { intros b. unfold user_ids, exec, update_users, modify, set_where. simpl.
    rewrite <- list_fmap_compose. apply list_fmap_ext. intros ? r _. simpl.
    by destruct (decide _). }
  split.
  - exists (exec (banUser id) s).
    split; [by apply patch_ban_run|]. unfold banUser.
    split; [by rewrite user_of_set_isBanned, decide_True|].
    split; [intros other Hne; by rewrite user_of_set_isBanned, decide_False,
              option_fmap_id|].
    by repeat split.
  - exists (exec (unbanUser id) s).
    split; [by apply patch_unban_run|]. unfold unbanUser.
    split; [by rewrite user_of_set_isBanned, decide_True|].
    split; [intros other Hne; by rewrite user_of_set_isBanned, decide_False,
              option_fmap_id|].
    by repeat split.
Qed.

Lemma patch_ban_and_patch_unban_write_one_column_of_one_user_witness :
  ∃ s', patch_ban "alice" "bob" sample_store
        = (mkResponse 200 (Message "User banned successfully"), s')
        ∧ user_of s' "bob"
          = User.set_isBanned (Some true) <$> user_of sample_store "bob"
        ∧ (∀ other, other ≠ "bob" → user_of s' other = user_of sample_store other)
        ∧ user_ids s' = user_ids sample_store
        ∧ issues s' = issues sample_store
        ∧ issueFlags s' = issueFlags sample_store
        ∧ issueVotes s' = issueVotes sample_store
        ∧ issueStatusLogs s' = issueStatusLogs sample_store.
Proof.
  apply (patch_ban_and_patch_unban_write_one_column_of_one_user "alice" "bob"
           sample_store).
  by_evaluation.
Defined.

Lemma admin_set_isBanned b id s adminId :
  admin s adminId →
  admin (exec (update_users (User.set_isBanned (Some b))
                 (eq (col User.id) id)) s) adminId.
Proof.
  intros (u & Hu & Hadm). unfold admin. rewrite user_of_set_isBanned, Hu.
  simpl. eexists. split; [done|]. by destruct (decide _).
Qed.

(** ** Reporting an issue *)

Lemma insertIssueSchema_parse_cases o s :
  insertIssueSchema_parse o s = (Throw ZodError, s)
  ∨ ∃ title description category latitude longitude,
      IssueForm.title o = Some title
      ∧ IssueForm.description o = Some description
      ∧ IssueForm.category o = Some category
      ∧ IssueForm.latitude o = Some latitude
      ∧ IssueForm.longitude o = Some longitude
      ∧ varchar 255 (Some title) = true
      ∧ varchar 50 (Some category) = true
      ∧ varchar 20 (IssueForm.status o) = true
      ∧ insertIssueSchema_parse o s
        = (Return (InsertIssue.mk title description category
                     (Some <$> IssueForm.status o) latitude longitude
                     (IssueForm.address o) (Some (IssueForm.photos o))
                     (IssueForm.reporterId o)
                     (Some (Some (IssueForm.isAnonymous o)))), s).
Proof.
  unfold insertIssueSchema_parse.
  destruct (IssueForm.title o) as [title|]; [|by left].
  destruct (IssueForm.description o) as [description|]; [|by left].
  destruct (IssueForm.category o) as [category|]; [|by left].
  destruct (IssueForm.latitude o) as [latitude|]; [|by left].
  destruct (IssueForm.longitude o) as [longitude|]; [|by left].
  destruct (varchar 255 _) eqn:H1; [|by left].
  destruct (varchar 50 _) eqn:H2; [|by left].
  destruct (varchar 20 _) eqn:H3; [|by left].
  right. by eexists _, _, _, _, _.
Qed.

Lemma insert_issue_cases row s :
  (∃ e, insert_issue row s = (Throw (DatabaseError e), s))
  ∨ (insert_issue row s = (Return row, with_issues (issues s ++ [row]) s)
     ∧ Issue.check row = None
     ∧ (Issue.id row ∉ issue_ids s)
     ∧ references (user_ids s) (Issue.reporterId row) = true).
Proof.
  unfold insert_issue.
  destruct (Issue.check row); [left; by eexists|].
  case_bool_decide; [left; by eexists|].
  destruct (references _ _); [by right|left; by eexists].
Qed.

Lemma insert_issueStatusLog_cases row s :
  (∃ e, insert_issueStatusLog row s = (Throw (DatabaseError e), s))
  ∨ insert_issueStatusLog row s
    = (Return tt, with_issueStatusLogs (issueStatusLogs s ++ [row]) s).
Proof.
  unfold insert_issueStatusLog.
  repeat case_match; (by right) || (left; by eexists).
Qed.

(** The issue a report stores, and the first entry of its log. *)
Lemma post_issues_cases uuid_issue uuid_log now userId reqBody files s :
  (is_banned (user_of s userId) = true
   ∧ post_issues uuid_issue uuid_log now userId reqBody files s
     = (mkResponse 403 (Message "Account is banned"), s))
  ∨ (is_banned (user_of s userId) = false
     ∧ insertIssueSchema_parse (issue_form userId reqBody files) s
       = (Throw ZodError, s)
     ∧ post_issues uuid_issue uuid_log now userId reqBody files s
       = (mkResponse 400 (Message "Invalid data"), s))
  ∨ (is_banned (user_of s userId) = false
     ∧ ∃ issueData,
         insertIssueSchema_parse (issue_form userId reqBody files) s
         = (Return issueData, s)
         ∧ ((∃ e, createIssue uuid_issue now issueData s
                  = (Throw (DatabaseError e), s)
                  ∧ post_issues uuid_issue uuid_log now userId reqBody files s
                    = (mkResponse 500 (Message "Failed to create issue"), s))
            ∨ ∃ issue s1,
                createIssue uuid_issue now issueData s = (Return issue, s1)
                ∧ s1 = with_issues (issues s ++ [issue]) s
                ∧ (Issue.id issue ∉ issue_ids s)
                ∧ (post_issues uuid_issue uuid_log now userId reqBody files s
                   = (mkResponse 500 (Message "Failed to create issue"), s1)
                   ∨ post_issues uuid_issue uuid_log now userId reqBody files s
                     = (mkResponse 201 (IssueJson issue),
                        with_issueStatusLogs
                          (issueStatusLogs s1
                           ++ [IssueStatusLog.mk uuid_log (Issue.id issue) None
                                 "reported" (Some userId)
                                 (Some "Issue reported") (Some now)]) s1)))).
Proof.
  unfold post_issues, try_catch. rewrite bind_unfold, getUser_run.
  destruct (is_banned (user_of s userId)); [by left|right].
  rewrite bind_unfold. fold (issue_form userId reqBody files).
  destruct (insertIssueSchema_parse_cases (issue_form userId reqBody files) s)
    as [Hparse|(title & description & category & latitude & longitude
                & _ & _ & _ & _ & _ & _ & _ & _ & Hparse)];
    rewrite Hparse; [by left|right].
  split; [done|]. eexists. split; [done|].
  rewrite bind_unfold. unfold createIssue.
  match goal with |- context [insert_issue ?row s] =>
    destruct (insert_issue_cases row s) as [[e He]|(He & _ & Hfresh & _)];
    rewrite He
  end; [left; by exists e|right].
  eexists _, _. split; [done|]. split; [done|]. split; [done|].
  rewrite bind_unfold. unfold createStatusLog.
  match goal with |- context [insert_issueStatusLog ?row ?s1] =>
    destruct (insert_issueStatusLog_cases row s1) as [[e He']|He'];
    rewrite He'
  end; [by left|by right].
Qed.

(** X4. Once an admin has banned a user of the store, every
    [POST /api/issues] of that user is answered 403 "Account is banned" and
    writes nothing; once the admin has lifted the ban, no report of that
    user is answered 403. *)
Theorem a_ban_blocks_reporting_until_it_is_lifted
    (adminId userId : string) (s : Store) :
  admin s adminId → userId ∈ user_ids s →
  ∃ s1 s2,
    (patch_ban adminId userId s).2 = s1
    ∧ (patch_unban adminId userId s1).2 = s2
    ∧ banned s1 userId
    ∧ (∀ uuid_issue uuid_log now reqBody files,
         post_issues uuid_issue uuid_log now userId reqBody files s1
         = (mkResponse 403 (Message "Account is banned"), s1))
    ∧ ¬ banned s2 userId
    ∧ (∀ uuid_issue uuid_log now reqBody files,
         statusCode
           (post_issues uuid_issue uuid_log now userId reqBody files s2).1
         ≠ 403).
Proof.
  intros Hadmin [u Hu]%user_of_is_Some.
  exists (exec (banUser userId) s),
    (exec (unbanUser userId) (exec (banUser userId) s)).
  split; [by rewrite patch_ban_run|].
  split; [rewrite patch_unban_run; [done|by apply admin_set_isBanned]|].
  assert (banned (exec (banUser userId) s) userId) as Hbanned.
  { unfold banned, banUser. rewrite user_of_set_isBanned, Hu, decide_True by done.
    by eexists. }
  split; [done|]. split.
  { intros. unfold post_issues, try_catch.
    by rewrite bind_unfold, getUser_run, is_banned_true. }
  assert (user_of (exec (unbanUser userId) (exec (banUser userId) s)) userId
          = Some (User.set_isBanned (Some false)
                    (User.set_isBanned (Some true) u))) as Hu2.
  { unfold unbanUser, banUser.
    rewrite !user_of_set_isBanned, Hu. by destruct (decide _). }
  split.
  { intros (u' & Hu' & Hb). rewrite Hu2 in Hu'. by simplify_eq. }
  intros.
  destruct (post_issues_cases uuid_issue uuid_log now userId reqBody files
              (exec (unbanUser userId) (exec (banUser userId) s)))
    as [[Hb _]|[(_ & _ & ->)|(_ & d & _ & [(e & _ & ->)
                               |(issue & s1 & _ & _ & _ & [->| ->])])]];
    try done.
  by rewrite Hu2 in Hb.
Qed.

Lemma a_ban_blocks_reporting_until_it_is_lifted_witness :
  ∃ s1 s2,
    (patch_ban "alice" "bob" sample_store).2 = s1
    ∧ (patch_unban "alice" "bob" s1).2 = s2
    ∧ banned s1 "bob"
    ∧ (∀ uuid_issue uuid_log now reqBody files,
         post_issues uuid_issue uuid_log now "bob" reqBody files s1
         = (mkResponse 403 (Message "Account is banned"), s1))
    ∧ ¬ banned s2 "bob"
    ∧ (∀ uuid_issue uuid_log now reqBody files,
         statusCode
           (post_issues uuid_issue uuid_log now "bob" reqBody files s2).1
         ≠ 403).
Proof.
  apply (a_ban_blocks_reporting_until_it_is_lifted "alice" "bob" sample_store);
    by_evaluation.
Defined.

Lemma is_banned_banned s userId :
  is_banned (user_of s userId) = true ↔ banned s userId.
Proof.
  split; [|apply is_banned_true].
  unfold is_banned, banned. destruct (user_of s userId) as [u|]; [|done].
  destruct (User.isBanned u) as [[|]|] eqn:E; try done. by exists u.
Qed.

Lemma varchar_too_long n v :
  (n < String.length v)%nat → varchar n (Some v) = false.
Proof. intros Hn. unfold varchar. apply bool_decide_eq_false. lia. Qed.

Lemma refused_by_schema_throws userId reqBody files s :
  refused_by_schema reqBody →
  insertIssueSchema_parse (issue_form userId reqBody files) s
  = (Throw ZodError, s).
Proof.
  unfold insertIssueSchema_parse, issue_form. simpl.
  intros [H|[H|[H|[H|[H|[(v & H & Hv)|[(v & H & Hv)|(v & H & Hv)]]]]]]];
    rewrite H; repeat case_match; try done;
    apply varchar_too_long in Hv; rewrite Hv in *;
    by rewrite ?andb_false_r in *.
Qed.

(** X5. A report by a user who is not banned is answered 400
    "Invalid data", and writes nothing, when its form has no title, no
    description, no category or a coordinate that is not a number, or a
    title of more than 255, a category of more than 50 or a status of more
    than 20 characters. *)
Theorem post_issues_refuses_a_form_the_schema_refuses
    (uuid_issue uuid_log : string) (now : Timestamp) (userId : string)
    (reqBody : IssueBody.t) (files : list string) (s : Store) :
  ¬ banned s userId → refused_by_schema reqBody →
  post_issues uuid_issue uuid_log now userId reqBody files s
  = (mkResponse 400 (Message "Invalid data"), s).
Proof.
  intros Hban Hform.
  pose proof (refused_by_schema_throws userId reqBody files s Hform) as Hthrow.
  destruct (post_issues_cases uuid_issue uuid_log now userId reqBody files s)
    as [[Hb _]|[(_ & _ & ->)|(_ & d & Hd & _)]]; [|done|congruence].
  by apply is_banned_banned in Hb.
Qed.

Lemma post_issues_refuses_a_form_the_schema_refuses_witness :
  post_issues "i2" "l2" 20 "bob"
    (IssueBody.mk None (Some "No title") (Some "roads") None None (Some 0)
       (Some 0) None) ["uploads/a"] sample_store
  = (mkResponse 400 (Message "Invalid data"), sample_store).
Proof.
  apply post_issues_refuses_a_form_the_schema_refuses.
  - by_evaluation.
  - left. reflexivity.
Defined.

Lemma stored_None s id : id ∉ issue_ids s → stored s id = None.
Proof.
  intros Hid. destruct (stored s id) as [i|] eqn:E; [|done].
  by apply stored_in_issue_ids in E.
Qed.



(** ** Fetching an issue *)

Lemma get_issue_run id s :
  get_issue id s
  = (match stored s id with
     | Some issue => mkReply 200 (Sent issue)
     | None => mkReply 404 (Refused "Issue not found")
     end, s).
Proof.
  unfold get_issue, try_catch_500. rewrite bind_unfold, getIssue_run.
  by destruct (stored s id).
Qed.



Lemma patch_hide_run adminId id s :
  admin s adminId →
  patch_hide adminId id s
  = (mkResponse 200 (Message "Issue hidden successfully"),
     exec (hideIssue id) s).
Proof.
  intros Hadmin%is_admin_true. unfold patch_hide, try_catch.
  rewrite bind_unfold, getUser_run, Hadmin. simpl.
  rewrite bind_unfold. unfold exec. by rewrite hideIssue_run.
Qed.

Lemma stored_is_Some s id : id ∈ issue_ids s ↔ is_Some (stored s id).
Proof.
  split.
  - intros (i & -> & Hi)%list_elem_of_fmap.
    unfold stored, eval, getIssue, gets. simpl.
    eapply head_select_is_Some; [done|]. by apply holds_eq_col.
  - intros [i Hi]. by eapply stored_in_issue_ids.
Qed.

(** X8. [GET /api/issues/:id] answers 404 "Issue not found" when no issue
    has the id and 200 with an issue of that id otherwise, hidden or not:
    after an admin has hidden the issue the route still serves it, with
    [isHidden] true. *)
Theorem get_issue_serves_hidden_issues_too (id : string) (s : Store) :
  (id ∉ issue_ids s →
   get_issue id s = (mkReply 404 (Refused "Issue not found"), s))
  ∧ (id ∈ issue_ids s →
     ∃ i, get_issue id s = (mkReply 200 (Sent i), s)
          ∧ i ∈ issues s ∧ Issue.id i = id)
  ∧ (∀ adminId, admin s adminId → id ∈ issue_ids s →
     ∃ i, get_issue id (patch_hide adminId id s).2
          = (mkReply 200 (Sent i), (patch_hide adminId id s).2)
          ∧ Issue.isHidden i = Some true).
Proof.
  split; [|split].
  - intros Hid. by rewrite get_issue_run, stored_None.
  - intros [i Hi]%stored_is_Some. exists i.
    rewrite get_issue_run, Hi. split; [done|]. by apply stored_elem_of.
  - intros adminId Hadmin [i Hi]%stored_is_Some.
    rewrite patch_hide_run by done. cbn [snd].
    assert (stored (exec (hideIssue id) s) id
            = Some (Issue.set [Issue.isHidden_to (Some true)] i)) as Hh.
    { unfold exec. rewrite hideIssue_run. cbn [snd].
      exact (stored_update_by_id [Issue.isHidden_to (Some true)] s id i Hi). }
    rewrite get_issue_run, Hh. by eexists.
Qed.

Lemma get_issue_serves_hidden_issues_too_witness :
  ∃ i, get_issue "i1" (patch_hide "alice" "i1" sample_store).2
       = (mkReply 200 (Sent i), (patch_hide "alice" "i1" sample_store).2)
       ∧ Issue.isHidden i = Some true.
Proof.
  apply (proj2 (proj2 (get_issue_serves_hidden_issues_too "i1" sample_store))
           "alice"); by_evaluation.
Defined.


(** ** The history of an issue *)

(** X9. [getIssueStatusLogs(issueId)], and with it
    [GET /api/issues/:id/status-logs] under status 200, returns the entries
    of that issue and of no other, each as often as the table holds it,
    newest first (an entry without a time comes first); when the table has
    no entry for the id, whether an issue has it or not, the list is
    empty. *)
Theorem getIssueStatusLogs_newest_first (issueId : string) (s : Store) :
  ∃ logs,
    getIssueStatusLogs issueId s = (Return logs, s)
    ∧ get_status_logs issueId s = (mkReply 200 (Sent logs), s)
    ∧ logs ≡ₚ filter (λ l, IssueStatusLog.issueId l = issueId)
                (issueStatusLogs s)
    ∧ (∀ l, l ∈ logs ↔ l ∈ issueStatusLogs s ∧ IssueStatusLog.issueId l = issueId)
    ∧ (∀ j k a b, (j < k)%nat → logs !! j = Some a → logs !! k = Some b →
         desc IssueStatusLog.createdAt a b)
    ∧ ((∀ l, l ∈ issueStatusLogs s → IssueStatusLog.issueId l ≠ issueId) →
       logs = []).
Proof.
  eexists. split; [reflexivity|].
  split; [reflexivity|].
  assert (select_where (eq (col IssueStatusLog.issueId) issueId)
            (issueStatusLogs s)
          = filter (λ l, IssueStatusLog.issueId l = issueId) (issueStatusLogs s))
    as Hsel.
  { unfold select_where. apply list_filter_iff. intros l.
    apply (holds_eq_col IssueStatusLog.issueId). }
  assert (orderBy_desc IssueStatusLog.createdAt
            (select_where (eq (col IssueStatusLog.issueId) issueId)
               (issueStatusLogs s))
          ≡ₚ filter (λ l, IssueStatusLog.issueId l = issueId)
               (issueStatusLogs s)) as Hperm
    by (by rewrite orderBy_desc_perm, Hsel).
  split; [done|]. split; [|split].
  - intros l. rewrite Hperm, list_elem_of_filter. tauto.
  - intros j k a b Hjk Ha Hb.
    eapply StronglySorted_lookup_lt; [apply orderBy_desc_sorted|done..].
  - intros Hnone. apply Permutation_nil_r. rewrite Hperm.
    clear Hsel Hperm. induction (issueStatusLogs s) as [|l t IH]; [done|].
    rewrite filter_cons_False by (apply Hnone, list_elem_of_here).
    apply IH. intros l' Hl'. by apply Hnone, list_elem_of_further.
Qed.

(** ** Requests about what is not there *)

Lemma patch_status_run adminId uuid now id status notes s :
  admin s adminId →
  patch_status uuid now adminId id status notes s
  = try_catch false "Failed to update issue status"
      (let* updatedIssue := updateIssueStatus uuid now id status adminId notes in
       match updatedIssue with
       | None => respond 404 "Issue not found"
       | Some issue => ret (mkResponse 200 (IssueJson issue))
       end) s.
Proof.
  intros Hadmin%is_admin_true. unfold patch_status, try_catch.
  by rewrite bind_unfold, getUser_run, Hadmin.
Qed.

Lemma hideIssue_untouched id s : id ∉ issue_ids s → exec (hideIssue id) s = s.
Proof.
  intros Hid. unfold exec. rewrite hideIssue_run. cbn [snd].
  rewrite set_where_untouched; [apply with_issues_same|].
  intros r Hr Hw. apply -> (holds_eq_col Issue.id) in Hw. subst id.
  apply Hid. by apply list_elem_of_fmap_2.
Qed.

(** X10. What an admin is answered about an id that is not there: 404
    "Issue not found" for a status change of an unknown issue, but 200, as
    if done, for hiding an unknown issue and for banning or unbanning an
    unknown user.  None of the four writes anything. *)
Theorem admin_requests_about_what_is_not_there
    (adminId id : string) (s : Store) :
  admin s adminId →
  (id ∉ issue_ids s →
   (∀ uuid now status notes,
      patch_status uuid now adminId id status notes s
      = (mkResponse 404 (Message "Issue not found"), s))
   ∧ patch_hide adminId id s
     = (mkResponse 200 (Message "Issue hidden successfully"), s))
  ∧ (id ∉ user_ids s →
     patch_ban adminId id s
     = (mkResponse 200 (Message "User banned successfully"), s)
     ∧ patch_unban adminId id s
       = (mkResponse 200 (Message "User unbanned successfully"), s)).
Proof.
  intros Hadmin. split.
  - intros Hid. split.
    + intros. rewrite patch_status_run by done.
      unfold try_catch, updateIssueStatus.
      by rewrite !bind_unfold, getIssue_run, stored_None.
    + by rewrite patch_hide_run, hideIssue_untouched.
  - intros Hid. split.
    + rewrite patch_ban_run by done. unfold banUser.
      by rewrite update_users_untouched.
    + rewrite patch_unban_run by done. unfold unbanUser.
      by rewrite update_users_untouched.
Qed.

Lemma admin_requests_about_what_is_not_there_witness :
  (∀ uuid now status notes,
     patch_status uuid now "alice" "i9" status notes sample_store
     = (mkResponse 404 (Message "Issue not found"), sample_store))
  ∧ patch_hide "alice" "i9" sample_store
    = (mkResponse 200 (Message "Issue hidden successfully"), sample_store).
Proof.
  apply (admin_requests_about_what_is_not_there "alice" "i9" sample_store);
    by_evaluation.
Defined.

Lemma insert_issueFlag_dangling row s :
  IssueFlag.issueId row ∉ issue_ids s ∨ IssueFlag.flaggerId row ∉ user_ids s →
  ∃ e, insert_issueFlag row s = (Throw (DatabaseError e), s).
Proof.
  intros Hno. unfold insert_issueFlag.
  destruct (IssueFlag.check row); [by eexists|].
  case_bool_decide; [by eexists|].
  destruct (references (issue_ids s) _ && references (user_ids s) _) eqn:E;
    [|by eexists].
  apply andb_true_iff in E as [E1 E2]. unfold references in E1, E2.
  apply bool_decide_eq_true in E1, E2. by destruct Hno.
Qed.

Lemma insert_issueVote_dangling row s :
  IssueVote.issueId row ∉ issue_ids s ∨ IssueVote.voterId row ∉ user_ids s →
  ∃ e, insert_issueVote row s = (Throw (DatabaseError e), s).
Proof.
  intros Hno. unfold insert_issueVote.
  case_bool_decide; [by eexists|].
  destruct (references (issue_ids s) _ && references (user_ids s) _) eqn:E;
    [|by eexists].
  apply andb_true_iff in E as [E1 E2]. unfold references in E1, E2.
  apply bool_decide_eq_true in E1, E2. by destruct Hno.
Qed.

(** X11. A flag or a vote for an issue that the table does not hold, or by
    a user that it does not hold, is refused by the foreign keys of the
    schema: the request (the first of its user for the issue, with a reason
    that fits) is answered 500, not 404, and writes nothing. *)
Theorem a_flag_or_vote_needs_its_issue_and_its_user
    (uuid : string) (now : Timestamp) (userId issueId : string) (s : Store) :
  issueId ∉ issue_ids s ∨ userId ∉ user_ids s →
  (∀ reason,
     ¬ has_flagged s issueId userId → varchar 100 reason = true →
     post_flag uuid now userId issueId reason s
     = (mkResponse 500 (Message "Failed to flag issue"), s))
  ∧ (¬ has_voted s issueId userId →
     post_vote uuid now userId issueId s
     = (mkResponse 500 (Message "Failed to record vote"), s)).
Proof.
  intros Hno. split.
  - intros reason Hnew Hreason. unfold post_flag, try_catch.
    rewrite bind_unfold, getUserFlaggedIssue_None by done.
    unfold insertIssueFlagSchema_parse. rewrite Hreason.
    rewrite bind_unfold. unfold ret, flagIssue. rewrite !bind_unfold. simpl.
    match goal with |- context [insert_issueFlag ?row s] =>
      destruct (insert_issueFlag_dangling row s Hno) as [e ->]
    end. done.
  - intros Hnew. unfold post_vote, try_catch.
    rewrite bind_unfold, getUserVoteForIssue_None by done.
    unfold insertIssueVoteSchema_parse.
    rewrite bind_unfold. unfold ret, voteForIssue. rewrite !bind_unfold. simpl.
    match goal with |- context [insert_issueVote ?row s] =>
      destruct (insert_issueVote_dangling row s Hno) as [e ->]
    end. done.
Qed.

Lemma a_flag_or_vote_needs_its_issue_and_its_user_witness :
  post_vote "v1" 21 "carol" "i9" sample_store
  = (mkResponse 500 (Message "Failed to record vote"), sample_store).
Proof.
  apply (a_flag_or_vote_needs_its_issue_and_its_user "v1" 21 "carol" "i9"
           sample_store).
  - left. by_evaluation.
  - by_evaluation.
Defined.



(** ** From the statements to the methods and the handlers *)

(** A relation that holds along each statement the storage issues holds
    along every writing method of it and along every request handler. *)
Section Statements.

Context (P : relation Store) `{!PreOrder P}.

Hypothesis PcreateIssue : ∀ uuid now issue,
  preserves P (createIssue uuid now issue).
Hypothesis Pstatus : ∀ status now w,
  preserves P (update_issues
                 [Issue.status_to (Some status); Issue.updatedAt_to (Some now)] w).
Hypothesis Phide : ∀ w, preserves P (update_issues [Issue.isHidden_to (Some true)] w).
Hypothesis Preport : ∀ w,
  preserves P (update_issues
                 [Issue.reportCount_to (λ r, (λ n, n + 1) <$> Issue.reportCount r)]
                 w).
Hypothesis Pincrement : ∀ issueId,
  preserves P (incrementIssueFlagCount issueId).
Hypothesis Pinsert_log : ∀ row, preserves P (insert_issueStatusLog row).
Hypothesis Pinsert_flag : ∀ row, preserves P (insert_issueFlag row).
Hypothesis Pinsert_vote : ∀ row, preserves P (insert_issueVote row).
Hypothesis Pban : ∀ b w, preserves P (update_users (User.set_isBanned (Some b)) w).
Hypothesis Pupsert : ∀ uuid now userData,
  preserves P (upsertUser uuid now userData).

Lemma statements_perform (w : Write) s : P s (perform w s).
Proof using All.
  destruct w; simpl;
    lazymatch goal with |- P s (exec ?m s) => revert s; change (preserves P m) end;
    unfold updateIssueStatus, hideIssue, incrementIssueReportCount,
      flagIssue, voteForIssue, createStatusLog, banUser, unbanUser, getIssue;
    repeat first
      [ apply PcreateIssue | apply Pstatus | apply Phide | apply Preport
      | apply Pincrement | apply Pinsert_log | apply Pinsert_flag
      | apply Pinsert_vote | apply Pban | apply Pupsert
      | preserves_step | case_match ].
Qed.

Lemma statements_handle (q : Request) s : P s (handle q s).2.
Proof using All. apply along_handle; [done|]. apply statements_perform. Qed.

End Statements.

Lemma preserves_incrementIssueFlagCount (P : relation Store) `{!PreOrder P}
    issueId :
  (∀ values w, preserves P (update_issues values w)) →
  preserves P (incrementIssueFlagCount issueId).
Proof.
  intros Hupdate. unfold incrementIssueFlagCount.
  repeat first [apply Hupdate|preserves_step].
Qed.

(** ** Nothing is deleted *)

#[local] Instance append_only_preorder : PreOrder append_only.
Proof.
  split.
  - by intros s.
  - intros s1 s2 s3 (?&?&?&?&?) (?&?&?&?&?).
    repeat split; by etransitivity.
Qed.

Lemma users_set_where_ids (f : User.t → User.t) (w : Cond) (t : list User.t) :
  (∀ r, holds w r → User.id (f r) = User.id r) →
  User.id <$> set_where f w t = User.id <$> t.
Proof.
  intros Hf. unfold set_where. rewrite <- list_fmap_compose.
  apply list_fmap_ext. intros _ r _. simpl.
  destruct (decide _); [by apply Hf|done].
Qed.

Lemma upsert_set_id uuid now userData r :
  holds (eq (col User.id) (User.id (UpsertUser.to_row uuid now userData))) r →
  User.id (UpsertUser.set now userData r) = User.id r.
Proof.
  intros Hr. apply -> (holds_eq_col User.id) in Hr. simpl in *.
  by destruct (UpsertUser.id userData).
Qed.

Ltac run_statement :=
  intros s;
  unfold exec, insert_issue, update_issues, insert_issueStatusLog,
    insert_issueFlag, insert_issueVote, update_users, modify, upsertUser;
  repeat (case_match; simpl); try reflexivity; try exact (λ H, H);
  repeat match goal with
         | H : bool_decide _ = false |- _ => apply bool_decide_eq_false in H
         | H : bool_decide _ = true |- _ => apply bool_decide_eq_true in H
         end.

Ltac show_append_only :=
  unfold append_only, issue_ids, user_ids; simpl;
  rewrite ?fmap_app, ?set_where_ids;
  repeat split; try done; try (by apply prefix_app_r).

Lemma append_only_insert_issue row : preserves append_only (insert_issue row).
Proof. run_statement; show_append_only. Qed.

Lemma append_only_update_issues values w :
  preserves append_only (update_issues values w).
Proof. run_statement; show_append_only. Qed.

Lemma append_only_insert_issueStatusLog row :
  preserves append_only (insert_issueStatusLog row).
Proof. run_statement; show_append_only. Qed.

Lemma append_only_insert_issueFlag row :
  preserves append_only (insert_issueFlag row).
Proof. run_statement; show_append_only. Qed.

Lemma append_only_insert_issueVote row :
  preserves append_only (insert_issueVote row).
Proof. run_statement; show_append_only. Qed.

Lemma append_only_set_isBanned b w :
  preserves append_only (update_users (User.set_isBanned (Some b)) w).
Proof. run_statement; show_append_only. by rewrite users_set_where_ids. Qed.

Lemma append_only_upsertUser uuid now userData :
  preserves append_only (upsertUser uuid now userData).
Proof.
  run_statement; show_append_only.
  rewrite users_set_where_ids; [done|].
  intros r Hr. by apply (upsert_set_id uuid now userData).
Qed.

(** X13. No writing method of the storage and no request handler deletes,
    changes or reorders a row of the status log, of the flags or of the
    votes, and none removes an issue or a user or changes the id of one:
    each of these lists, after the write, starts with what it was
    before. *)
Theorem no_write_deletes_or_reorders :
  (∀ w s, append_only s (perform w s)) ∧ (∀ q s, append_only s (handle q s).2).
Proof.
  split; [intros w s; apply statements_perform
         |intros q s; apply statements_handle]; try apply _; intros;
    first [ apply append_only_insert_issue | apply append_only_update_issues
          | apply preserves_incrementIssueFlagCount; [apply _|intros]; apply append_only_update_issues
          | apply append_only_insert_issueStatusLog
          | apply append_only_insert_issueFlag
          | apply append_only_insert_issueVote
          | apply append_only_set_isBanned | apply append_only_upsertUser ].
Qed.

(** ** What stays of an issue *)

#[local] Instance rowwise_preorder (Q : relation Issue.t) `{!PreOrder Q} :
  PreOrder (rowwise Q).
Proof.
  split.
  - intros s k r Hr. by exists r.
  - intros s1 s2 s3 H12 H23 k r Hr.
    destruct (H12 k r Hr) as (r2 & Hr2 & Q12).
    destruct (H23 k r2 Hr2) as (r3 & Hr3 & Q23).
    exists r3. split; [done|]. by etransitivity.
Qed.

Lemma rowwise_safe_set (Q : relation Issue.t) `{!PreOrder Q} values :
  (∀ r, Q r (Issue.set values r)) → safe_set (rowwise Q) values.
Proof.
  intros HQ s w _ k r Hr. simpl. rewrite set_where_lookup, Hr. simpl.
  eexists. split; [done|]. by destruct (decide _).
Qed.

(** A relation between the rows that each of the four updates of the
    storage respects holds, row by row, along every write and every
    request. *)
Lemma rowwise_perform_handle (Q : relation Issue.t) `{!PreOrder Q} :
  (∀ status now r,
     Q r (Issue.set [Issue.status_to (Some status);
                     Issue.updatedAt_to (Some now)] r)) →
  (∀ r, Q r (Issue.set [Issue.isHidden_to (Some true)] r)) →
  (∀ r, Q r (Issue.set [Issue.reportCount_to
                          (λ r, (λ n, n + 1) <$> Issue.reportCount r)] r)) →
  (∀ r, Q r (Issue.set [Issue.flagCount_to
                          (λ r, (λ n, n + 1) <$> Issue.flagCount r)] r)) →
  (∀ w s, rowwise Q s (perform w s)) ∧ (∀ q s, rowwise Q s (handle q s).2).
Proof.
  intros Hstatus Hhide Hreport Hflag.
  assert (∀ w s, rowwise Q s (perform w s)) as Hperform.
  { intros w s. apply (preserves_perform (rowwise Q)).
    - intros s1 s2 Hs k r Hr. exists r. by rewrite Hs.
    - intros s1 row _ _ k r Hr. exists r. split; [|done]. simpl.
      by apply lookup_app_l_Some.
    - intros status now. by apply rowwise_safe_set.
    - by apply rowwise_safe_set.
    - by apply rowwise_safe_set.
    - by apply rowwise_safe_set. }
  split; [done|]. intros q s. by apply along_handle; [apply _|].
Qed.

#[local] Instance same_report_preorder : PreOrder same_report.
Proof.
  split.
  - by intros r.
  - intros r1 r2 r3 H12 H23. unfold same_report in *.
    destruct_and!. repeat split; congruence.
Qed.

(** X14. Along every writing method of the storage and every request
    handler, each issue stays at its place in the table and keeps its id,
    title, description, category, coordinates, address, photos, reporter,
    anonymity and time of creation. *)
Theorem a_report_is_never_rewritten :
  (∀ w s, rowwise same_report s (perform w s))
  ∧ (∀ q s, rowwise same_report s (handle q s).2).
Proof.
  apply rowwise_perform_handle; [apply _|..]; intros; by repeat split.
Qed.

#[local] Instance count_le_preorder : PreOrder count_le.
Proof.
  split.
  - intros [x|]; simpl; [lia|done].
  - intros [x|] [y|] [z|]; simpl; try done. lia.
Qed.

#[local] Instance counts_grow_preorder : PreOrder counts_grow.
Proof.
  split.
  - by intros r.
  - intros r1 r2 r3 [? ?] [? ?]. split; by etransitivity.
Qed.

Lemma count_le_succ c : count_le c ((λ n, n + 1) <$> c).
Proof. destruct c; simpl; [lia|done]. Qed.

(** X15. Along every writing method of the storage and every request
    handler, no [flagCount] and no [reportCount] of an issue goes down, and
    none becomes or ceases to be null. *)
Theorem the_counters_never_go_down :
  (∀ w s, rowwise counts_grow s (perform w s))
  ∧ (∀ q s, rowwise counts_grow s (handle q s).2).
Proof.
  apply rowwise_perform_handle; [apply _|..]; intros; split; simpl;
    first [reflexivity|apply count_le_succ].
Qed.

(** ** Keys *)

Lemma head_select_None_inv {A} (w : @Cond A) (t : list A) r :
  head (select_where w t) = None → r ∈ t → ¬ holds w r.
Proof.
  intros Hhead Hr Hw.
  destruct (head_select_is_Some w t r Hr Hw) as [x Hx]. congruence.
Qed.

Ltac show_primary_keys :=
  unfold primary_keys, issue_ids, user_ids; simpl;
  intros (Hu & Hi & Hf & Hv & Hl);
  rewrite ?fmap_app, ?set_where_ids; repeat split; try done;
  try (by apply NoDup_snoc).

Lemma primary_keys_insert_issue row :
  preserves (λ s s', primary_keys s → primary_keys s') (insert_issue row).
Proof. run_statement; show_primary_keys. Qed.

Lemma primary_keys_update_issues values w :
  preserves (λ s s', primary_keys s → primary_keys s') (update_issues values w).
Proof. run_statement; show_primary_keys. Qed.

Lemma primary_keys_insert_issueStatusLog row :
  preserves (λ s s', primary_keys s → primary_keys s')
    (insert_issueStatusLog row).
Proof. run_statement; show_primary_keys. Qed.

Lemma primary_keys_insert_issueFlag row :
  preserves (λ s s', primary_keys s → primary_keys s') (insert_issueFlag row).
Proof. run_statement; show_primary_keys. Qed.

Lemma primary_keys_insert_issueVote row :
  preserves (λ s s', primary_keys s → primary_keys s') (insert_issueVote row).
Proof. run_statement; show_primary_keys. Qed.

Lemma primary_keys_set_isBanned b w :
  preserves (λ s s', primary_keys s → primary_keys s')
    (update_users (User.set_isBanned (Some b)) w).
Proof. run_statement; show_primary_keys. by rewrite users_set_where_ids. Qed.

Lemma primary_keys_upsertUser uuid now userData :
  preserves (λ s s', primary_keys s → primary_keys s')
    (upsertUser uuid now userData).
Proof.
  run_statement; show_primary_keys.
  - rewrite users_set_where_ids; [done|].
    intros r Hr. by apply (upsert_set_id uuid now userData).
  - apply NoDup_snoc; [done|]. simpl.
    intros (r & Hid & Hr)%list_elem_of_fmap.
    eapply head_select_None_inv; [done..|]. by apply holds_eq_col.
Qed.

Lemma primary_keys_perform_handle :
  (∀ w s, primary_keys s → primary_keys (perform w s))
  ∧ (∀ q s, primary_keys s → primary_keys (handle q s).2).
Proof.
  split;
    [intros w s;
     apply (statements_perform (λ s s', primary_keys s → primary_keys s'))
    |intros q s;
     apply (statements_handle (λ s s', primary_keys s → primary_keys s'))];
    try apply _; intros;
    first [ apply primary_keys_insert_issue | apply primary_keys_update_issues
          | apply preserves_incrementIssueFlagCount; [apply _|intros]; apply primary_keys_update_issues
          | apply primary_keys_insert_issueStatusLog
          | apply primary_keys_insert_issueFlag
          | apply primary_keys_insert_issueVote
          | apply primary_keys_set_isBanned | apply primary_keys_upsertUser ].
Qed.

Lemma refers_references ids v : references ids v = true ↔ refers ids v.
Proof.
  unfold references, refers. destruct v as [k|].
  - rewrite bool_decide_eq_true. naive_solver.
  - naive_solver.
Qed.

Lemma refers_mono ids ids' v : ids ⊆ ids' → refers ids v → refers ids' v.
Proof. intros Hsub Hv k Hk. by apply Hsub, Hv. Qed.

Lemma foreign_keys_in_mono uids uids' iids iids' s :
  uids ⊆ uids' → iids ⊆ iids' →
  foreign_keys_in uids iids s → foreign_keys_in uids' iids' s.
Proof.
  intros Hu Hi (H1 & H2 & H3 & H4).
  repeat split; (eapply Forall_impl; [done|]); simpl.
  - intros i. by apply refers_mono.
  - intros f [? ?]. auto.
  - intros v [? ?]. auto.
  - intros l [? ?]. split; [auto|]. by eapply refers_mono.
Qed.

Lemma Issue_set_reporterId values r :
  Issue.reporterId (Issue.set values r) = Issue.reporterId r.
Proof.
  unfold Issue.set. generalize r at 2 3.
  induction values as [|a values IH]; intros acc; [done|].
  simpl. rewrite IH. by destruct a.
Qed.

Ltac unfold_foreign_keys :=
  unfold foreign_keys, issue_ids, user_ids; simpl;
  rewrite ?fmap_app, ?set_where_ids.

Lemma foreign_keys_insert_issue row :
  preserves (λ s s', foreign_keys s → foreign_keys s') (insert_issue row).
Proof.
  run_statement; unfold_foreign_keys. intros Hfk.
  apply (foreign_keys_in_mono _ (user_ids s) _ (issue_ids s ++ [Issue.id row]))
    in Hfk; [|done|set_solver].
  destruct Hfk as (F1 & F2 & F3 & F4). repeat split; try done.
  apply Forall_app. split; [done|]. apply Forall_singleton.
  apply refers_references. by apply negb_false_iff.
Qed.

Lemma foreign_keys_update_issues values w :
  preserves (λ s s', foreign_keys s → foreign_keys s') (update_issues values w).
Proof.
  run_statement; unfold_foreign_keys. intros (F1 & F2 & F3 & F4).
  repeat split; try done. simpl. unfold set_where. rewrite Forall_fmap.
  eapply Forall_impl; [done|]. intros r Hr. simpl.
  destruct (decide _); [by rewrite Issue_set_reporterId|done].
Qed.

Lemma foreign_keys_insert_issueStatusLog row :
  preserves (λ s s', foreign_keys s → foreign_keys s')
    (insert_issueStatusLog row).
Proof.
  run_statement; unfold_foreign_keys. intros (F1 & F2 & F3 & F4).
  repeat split; try done. simpl.
  apply Forall_app. split; [done|]. apply Forall_singleton.
  match goal with H : negb _ = false |- _ =>
    apply negb_false_iff, andb_true_iff in H as [Hi Hu] end.
  apply refers_references in Hi, Hu. split; [by apply Hi|done].
Qed.

Lemma foreign_keys_insert_issueFlag row :
  preserves (λ s s', foreign_keys s → foreign_keys s') (insert_issueFlag row).
Proof.
  run_statement; unfold_foreign_keys. intros (F1 & F2 & F3 & F4).
  repeat split; try done. simpl.
  apply Forall_app. split; [done|]. apply Forall_singleton.
  match goal with H : negb _ = false |- _ =>
    apply negb_false_iff, andb_true_iff in H as [Hi Hu] end.
  apply refers_references in Hi, Hu. split; [by apply Hi|by apply Hu].
Qed.

Lemma foreign_keys_insert_issueVote row :
  preserves (λ s s', foreign_keys s → foreign_keys s') (insert_issueVote row).
Proof.
  run_statement; unfold_foreign_keys. intros (F1 & F2 & F3 & F4).
  repeat split; try done. simpl.
  apply Forall_app. split; [done|]. apply Forall_singleton.
  match goal with H : negb _ = false |- _ =>
    apply negb_false_iff, andb_true_iff in H as [Hi Hu] end.
  apply refers_references in Hi, Hu. split; [by apply Hi|by apply Hu].
Qed.

Lemma foreign_keys_set_isBanned b w :
  preserves (λ s s', foreign_keys s → foreign_keys s')
    (update_users (User.set_isBanned (Some b)) w).
Proof.
  run_statement; unfold_foreign_keys. by rewrite users_set_where_ids.
Qed.

Lemma foreign_keys_upsertUser uuid now userData :
  preserves (λ s s', foreign_keys s → foreign_keys s')
    (upsertUser uuid now userData).
Proof.
  run_statement; unfold_foreign_keys.
  - rewrite users_set_where_ids; [done|].
    intros r Hr. by apply (upsert_set_id uuid now userData).
  - intros Hfk.
    eapply (foreign_keys_in_mono _ _ _ _ s) in Hfk; [exact Hfk|set_solver|done].
Qed.

Lemma foreign_keys_perform_handle :
  (∀ w s, foreign_keys s → foreign_keys (perform w s))
  ∧ (∀ q s, foreign_keys s → foreign_keys (handle q s).2).
Proof.
  split;
    [intros w s;
     apply (statements_perform (λ s s', foreign_keys s → foreign_keys s'))
    |intros q s;
     apply (statements_handle (λ s s', foreign_keys s → foreign_keys s'))];
    try apply _; intros;
    first [ apply foreign_keys_insert_issue | apply foreign_keys_update_issues
          | apply preserves_incrementIssueFlagCount; [apply _|intros]; apply foreign_keys_update_issues
          | apply foreign_keys_insert_issueStatusLog
          | apply foreign_keys_insert_issueFlag
          | apply foreign_keys_insert_issueVote
          | apply foreign_keys_set_isBanned | apply foreign_keys_upsertUser ].
Qed.

(** X16. In every store the server can be in, starting from the empty one,
    no two rows of a table share an id, and every reference of the schema
    names a row: the reporter of an issue, the issue and the user of a flag
    and of a vote, the issue and the author of an entry of the status
    log. *)
Theorem the_keys_hold_in_every_reachable_store (s : Store) :
  reachable s → primary_keys s ∧ foreign_keys s.
Proof.
  induction 1 as [|q s _ [IHp IHf]|w s _ [IHp IHf]].
  - split.
    + repeat split; apply NoDup_nil_2.
    + repeat split; apply Forall_nil_2.
  - split.
    + by apply primary_keys_perform_handle.
    + by apply foreign_keys_perform_handle.
  - split.
    + by apply primary_keys_perform_handle.
    + by apply foreign_keys_perform_handle.
Qed.

(** ** The threshold, in every store *)

Lemma moderated_frame s s' : issues s' = issues s → moderated s → moderated s'.
Proof. unfold moderated. by intros ->. Qed.

Lemma moderated_update_issues values w :
  (∀ r, hides_from_five r → hides_from_five (Issue.set values r)) →
  preserves (λ s s', moderated s → moderated s') (update_issues values w).
Proof.
  intros Hset. run_statement. unfold moderated, set_where. simpl.
  rewrite Forall_fmap. intros Hs. eapply Forall_impl; [exact Hs|].
  intros r Hr. simpl. destruct (decide _); [by apply Hset|done].
Qed.

Lemma moderated_createIssue uuid now issue :
  preserves (λ s s', moderated s → moderated s') (createIssue uuid now issue).
Proof.
  unfold createIssue. run_statement. unfold moderated. simpl.
  intros Hs. apply Forall_app. split; [done|]. apply Forall_singleton.
  intros n [= <-]. lia.
Qed.

Lemma Issue_set_flagCount_succ r :
  Issue.set [Issue.flagCount_to (λ r, (λ n, n + 1) <$> Issue.flagCount r)] r
  = Issue.set_flagCount ((λ n, n + 1) <$> Issue.flagCount r) r.
Proof. done. Qed.

Lemma moderated_incrementIssueFlagCount issueId :
  preserves (λ s s', moderated s → moderated s')
    (incrementIssueFlagCount issueId).
Proof.
  intros s. unfold exec, incrementIssueFlagCount. rewrite bind_unfold.
  destruct (update_issues_run
              [Issue.flagCount_to (λ r, (λ n, n + 1) <$> Issue.flagCount r)]
              (eq (col Issue.id) issueId) s) as [(e & -> & _)|[-> _]];
    [done|].
  rewrite bind_unfold, hide_where_ok. unfold moderated, set_where. simpl.
  rewrite !Forall_fmap. intros Hs. eapply Forall_impl; [exact Hs|].
  intros r Hr. simpl.
  destruct (decide (holds (eq (col Issue.id) issueId) r)) as [Hid|Hid].
  - destruct (decide _) as [Hw|Hw]; [by intros n _ _|].
    intros n Hn H5. destruct Hw. apply holds_flag_threshold.
    split; [|by eauto]. rewrite Issue_set_id. by apply holds_eq_col.
  - destruct (decide _) as [Hw|Hw]; [|done].
    apply holds_flag_threshold in Hw as [Hw _]. destruct Hid.
    by apply holds_eq_col.
Qed.

Lemma moderated_perform_handle :
  (∀ w s, moderated s → moderated (perform w s))
  ∧ (∀ q s, moderated s → moderated (handle q s).2).
Proof.
  split;
    [intros w s;
     apply (statements_perform (λ s s', moderated s → moderated s'))
    |intros q s;
     apply (statements_handle (λ s s', moderated s → moderated s'))];
    try apply _; intros;
    first [ apply moderated_createIssue
          | apply moderated_incrementIssueFlagCount
          | apply moderated_update_issues; intros r Hr n Hn H5;
            by apply (Hr n)
          | by apply moderated_update_issues
          | apply preserves_insert_issueStatusLog; [apply _|]
          | apply preserves_insert_issueFlag; [apply _|]
          | apply preserves_insert_issueVote; [apply _|]
          | apply preserves_update_users; [apply _|]
          | apply preserves_upsertUser; [apply _|] ];
    exact moderated_frame.
Qed.

Lemma reachable_moderated s : reachable s → moderated s.
Proof.
  induction 1 as [|q s _ IH|w s _ IH].
  - apply Forall_nil_2.
  - by apply moderated_perform_handle.
  - by apply moderated_perform_handle.
Qed.

(** X17. In every store the server can be in, every issue with a
    [flagCount] of 5 or more is hidden. *)
Theorem five_flags_hide_in_every_reachable_store (s : Store) (i : Issue.t)
    (n : Z) :
  reachable s → i ∈ issues s → Issue.flagCount i = Some n → 5 ≤ n →
  Issue.isHidden i = Some true.
Proof.
  intros Hmod%reachable_moderated Hi.
  by apply (proj1 (Forall_forall _ _) Hmod i Hi n).
Qed.

(** ** From the methods to the handlers *)

(** A relation that holds along each method a handler calls holds along
    every handler. *)
Section Methods.

Context (P : relation Store) `{!PreOrder P}.

Hypothesis PcreateIssue : ∀ uuid now issue,
  preserves P (createIssue uuid now issue).
Hypothesis PcreateStatusLog : ∀ uuid now log,
  preserves P (createStatusLog uuid now log).
Hypothesis PflagIssue : ∀ uuid now flag, preserves P (flagIssue uuid now flag).
Hypothesis PvoteForIssue : ∀ uuid now vote,
  preserves P (voteForIssue uuid now vote).
Hypothesis PupdateIssueStatus : ∀ uuid now id status changedBy notes,
  preserves P (updateIssueStatus uuid now id status changedBy notes).
Hypothesis PhideIssue : ∀ id, preserves P (hideIssue id).
Hypothesis PbanUser : ∀ id, preserves P (banUser id).
Hypothesis PunbanUser : ∀ id, preserves P (unbanUser id).


End Methods.

(** ** The counters count the rows *)

















(** ** Users *)

Lemma get_auth_user_run userId s :
  get_auth_user userId s
  = (match user_of s userId with
     | Some user => mkReply 200 (Sent user)
     | None => mkReply 404 (Refused "User not found")
     end, s).
Proof.
  unfold get_auth_user, try_catch_500. rewrite bind_unfold, getUser_run.
  by destruct (user_of s userId).
Qed.

Lemma user_of_snoc s row uid :
  user_of (with_users (users s ++ [row]) s) uid
  = match user_of s uid with
    | Some u => Some u
    | None => if decide (User.id row = uid) then Some row else None
    end.
Proof.
  rewrite !user_of_users. simpl. unfold select_where.
  rewrite filter_app, filter_cons, filter_nil.
  destruct (filter _ (users s)) as [|u t]; [|done]. simpl.
  destruct (decide (holds _ row)) as [Hw|Hw], (decide (User.id row = uid))
    as [Hid|Hid]; try done.
  - by apply -> (holds_eq_col User.id) in Hw.
  - destruct Hw. by apply holds_eq_col.
Qed.

(** X19. When [upsertUser] returns a row, [getUser] on the id of the row,
    and [GET /api/auth/user] for it, give that row; every other user is
    found as before and the other tables are untouched.  If the id was
    known, the row keeps the [isAdmin], [isBanned] and [createdAt] it had
    unless [userData] gives them, its [updatedAt] is the time of the call,
    and no user is added; if not, the columns left out take their defaults
    and the user comes last in the table. *)
Theorem upsertUser_then_getUser
    (uuid : string) (now : Timestamp) (userData : UpsertUser.t)
    (s s' : Store) (user : User.t) :
  upsertUser uuid now userData s = (Return user, s') →
  User.id user = default uuid (UpsertUser.id userData)
  ∧ getUser (User.id user) s' = (Return (Some user), s')
  ∧ get_auth_user (User.id user) s' = (mkReply 200 (Sent user), s')
  ∧ (∀ other, other ≠ User.id user → user_of s' other = user_of s other)
  ∧ match user_of s (User.id user) with
    | Some old =>
      User.isAdmin user = default (User.isAdmin old) (UpsertUser.isAdmin userData)
      ∧ User.isBanned user
        = default (User.isBanned old) (UpsertUser.isBanned userData)
      ∧ User.createdAt user
        = default (User.createdAt old) (UpsertUser.createdAt userData)
      ∧ User.updatedAt user = Some now
      ∧ user_ids s' = user_ids s
    | None =>
      User.isAdmin user = default (Some false) (UpsertUser.isAdmin userData)
      ∧ User.isBanned user
        = default (Some false) (UpsertUser.isBanned userData)
      ∧ User.createdAt user
        = default (Some now) (UpsertUser.createdAt userData)
      ∧ User.updatedAt user
        = default (Some now) (UpsertUser.updatedAt userData)
      ∧ user_ids s' = user_ids s ++ [User.id user]
    end
  ∧ issues s' = issues s ∧ issueFlags s' = issueFlags s
  ∧ issueVotes s' = issueVotes s ∧ issueStatusLogs s' = issueStatusLogs s.
Proof.
  unfold upsertUser. rewrite <- user_of_users.
  set (id := User.id (UpsertUser.to_row uuid now userData)).
  assert (id = default uuid (UpsertUser.id userData)) as Hid by done.
  assert (∀ r, User.id r = id → User.id (UpsertUser.set now userData r) = User.id r)
    as Hset.
  { intros r Hr. apply (upsert_set_id uuid now userData). by apply holds_eq_col. }
  destruct (user_of s id) as [old|] eqn:Hold.
  - destruct (email_taken _ _ _); [done|]. intros [= <- <-].
    assert (User.id old = id) as Hold_id.
    { rewrite user_of_users in Hold.
      destruct (select_where _ (users s)) as [|r t] eqn:E; [done|].
      injection Hold as ->.
      assert (old ∈ select_where (eq (col User.id) id) (users s)) as Hin
        by (rewrite E; apply list_elem_of_here).
      apply elem_of_select_where in Hin as [_ Hin].
      by apply -> (holds_eq_col User.id) in Hin. }
    assert (User.id (UpsertUser.set now userData old) = id) as Hnew
      by (by rewrite Hset).
    rewrite Hnew, getUser_run, get_auth_user_run, <- Hid.
    rewrite !user_of_set_where, Hold, decide_True by done.
    split; [done|]. split; [done|]. split; [done|]. split.
    { intros other Hne. rewrite user_of_set_where by done.
      by rewrite decide_False, option_fmap_id. }
    split; [|done]. repeat split; try done.
    unfold user_ids. simpl. apply users_set_where_ids.
    intros r Hr. by apply (upsert_set_id uuid now userData).
  - destruct (email_taken _ _ _); [done|]. intros [= <- <-].
    fold id. rewrite getUser_run, get_auth_user_run, Hold.
    rewrite !user_of_snoc, Hold, decide_True by done.
    split; [done|]. split; [done|]. split; [done|]. split.
    { intros other Hne. rewrite user_of_snoc.
      destruct (user_of s other); [done|]. by rewrite decide_False. }
    split; [|done]. repeat split; try done.
    unfold user_ids. simpl. by rewrite fmap_app.
Qed.

Lemma set_where_set_where {A} (f g : A → A) (w : Cond) (t : list A) :
  (∀ r, holds w r → holds w (g r)) →
  set_where f w (set_where g w t) = set_where (f ∘ g) w t.
Proof.
  intros Hg. unfold set_where. rewrite <- list_fmap_compose.
  apply list_fmap_ext. intros _ r _. simpl.
  destruct (decide (holds w r)) as [Hw|Hw].
  - by rewrite decide_True by (by apply Hg).
  - by rewrite decide_False.
Qed.

Lemma set_where_fixed {A} (f : A → A) (w : Cond) (t : list A) :
  (∀ r, r ∈ t → holds w r → f r = r) → set_where f w t = t.
Proof.
  intros Hf. unfold set_where. rewrite <- (list_fmap_id t) at 2.
  apply list_fmap_ext. intros k r Hr. simpl.
  destruct (decide _) as [Hw|]; [|done].
  apply Hf; [by eapply list_elem_of_lookup_2|done].
Qed.

Lemma set_isBanned_twice a b id s :
  exec (update_users (User.set_isBanned a) (eq (col User.id) id))
    (exec (update_users (User.set_isBanned b) (eq (col User.id) id)) s)
  = exec (update_users (User.set_isBanned a) (eq (col User.id) id)) s.
Proof.
  unfold exec, update_users, modify. destruct s as [us ? ? ? ?].
  unfold with_users. simpl. f_equal.
  rewrite set_where_set_where by done. unfold set_where.
  apply list_fmap_ext. intros _ r _. simpl. by destruct (decide _).
Qed.

(** X20. [unbanUser] after [banUser] on the same id leaves what
    [unbanUser] alone leaves, and the other way round; each of the two is
    idempotent; and when the [isBanned] of the user with the id was false,
    banning and then unbanning gives back the store as it was. *)
Theorem banUser_and_unbanUser_undo_each_other (id : string) (s : Store) :
  exec (unbanUser id) (exec (banUser id) s) = exec (unbanUser id) s
  ∧ exec (banUser id) (exec (unbanUser id) s) = exec (banUser id) s
  ∧ exec (banUser id) (exec (banUser id) s) = exec (banUser id) s
  ∧ exec (unbanUser id) (exec (unbanUser id) s) = exec (unbanUser id) s
  ∧ ((∀ u, u ∈ users s → User.id u = id → User.isBanned u = Some false) →
     exec (unbanUser id) (exec (banUser id) s) = s).
Proof.
  unfold banUser, unbanUser. rewrite !set_isBanned_twice.
  repeat split; try done.
  intros Hfree. unfold exec, update_users, modify. simpl.
  rewrite set_where_fixed; [apply with_users_same|].
  intros u Hu Hw. apply -> (holds_eq_col User.id) in Hw.
  specialize (Hfree u Hu Hw). destruct u. simpl in *.
  unfold User.set_isBanned. simpl. by rewrite Hfree.
Qed.

(** ** The proximity query at its bounds *)





(** ** What a ban does not stop *)

Lemma blind_ret {A} (a : A) : blind_to_user_columns (ret a).
Proof. by intros s s' Hs. Qed.

Lemma blind_throw {A} e : blind_to_user_columns (@throw A e).
Proof. by intros s s' Hs. Qed.

Lemma blind_gets {A} (f : Store → A) :
  (∀ s s', same_but_user_columns s s' → f s' = f s) →
  blind_to_user_columns (gets f).
Proof. intros Hf s s' Hs. unfold gets. simpl. split; [|done]. f_equal. auto. Qed.

Lemma blind_bind {A B} (m : Db A) (k : A → Db B) :
  blind_to_user_columns m → (∀ a, blind_to_user_columns (k a)) →
  blind_to_user_columns (bind m k).
Proof.
  intros Hm Hk s s' Hs. rewrite !bind_unfold.
  destruct (Hm s s' Hs) as [Ho Hs1].
  destruct (m s) as [o s1], (m s') as [o' s1']. simpl in *. subst o'.
  destruct o as [a|e]; [by apply Hk|done].
Qed.

Lemma blind_update_issues values w :
  blind_to_user_columns (update_issues values w).
Proof.
  intros s s' (Hu & Hi & Hf & Hv & Hl). unfold update_issues. rewrite Hi.
  by destruct (first_error _ _).
Qed.

Lemma blind_insert_issueFlag row : blind_to_user_columns (insert_issueFlag row).
Proof.
  intros s s' (Hu & Hi & Hf & Hv & Hl). unfold insert_issueFlag, issue_ids.
  rewrite Hu, Hi, Hf. by repeat case_match.
Qed.

Lemma blind_insert_issueVote row : blind_to_user_columns (insert_issueVote row).
Proof.
  intros s s' (Hu & Hi & Hf & Hv & Hl). unfold insert_issueVote, issue_ids.
  rewrite Hu, Hi, Hv. by repeat case_match.
Qed.

Ltac blind :=
  repeat first
    [ apply blind_ret | apply blind_throw
    | apply blind_update_issues | apply blind_insert_issueFlag
    | apply blind_insert_issueVote
    | apply blind_gets; intros ? ? (_ & _ & ? & ? & _); congruence
    | apply blind_bind; [|intros ?]
    | case_match ].

Lemma blind_post_flag uuid now userId issueId reason s s' :
  same_but_user_columns s s' →
  (post_flag uuid now userId issueId reason s').1
  = (post_flag uuid now userId issueId reason s).1
  ∧ same_but_user_columns (post_flag uuid now userId issueId reason s).2
      (post_flag uuid now userId issueId reason s').2.
Proof.
  intros Hs. unfold post_flag, try_catch.
  match goal with |- context [bind ?m ?k s] =>
    assert (blind_to_user_columns (bind m k)) as Hblind
  end.
  { unfold getUserFlaggedIssue, insertIssueFlagSchema_parse, flagIssue,
      incrementIssueFlagCount, respond. blind. }
  destruct (Hblind s s' Hs) as [Ho Hs1]. revert Ho Hs1.
  match goal with |- context [bind ?m ?k s] =>
    destruct (bind m k s) as [o s1], (bind m k s') as [o' s1']
  end.
  simpl. intros -> Hs1. by destruct o as [r|[|e]].
Qed.

Lemma blind_post_vote uuid now userId issueId s s' :
  same_but_user_columns s s' →
  (post_vote uuid now userId issueId s').1
  = (post_vote uuid now userId issueId s).1
  ∧ same_but_user_columns (post_vote uuid now userId issueId s).2
      (post_vote uuid now userId issueId s').2.
Proof.
  intros Hs. unfold post_vote, try_catch.
  match goal with |- context [bind ?m ?k s] =>
    assert (blind_to_user_columns (bind m k)) as Hblind
  end.
  { unfold getUserVoteForIssue, insertIssueVoteSchema_parse, voteForIssue,
      incrementIssueReportCount, respond. blind. }
  destruct (Hblind s s' Hs) as [Ho Hs1]. revert Ho Hs1.
  match goal with |- context [bind ?m ?k s] =>
    destruct (bind m k s) as [o s1], (bind m k s') as [o' s1']
  end.
  simpl. intros -> Hs1. by destruct o as [r|[|e]].
Qed.

Lemma same_but_user_columns_set_isBanned b id s :
  same_but_user_columns s
    (exec (update_users (User.set_isBanned (Some b)) (eq (col User.id) id)) s).
Proof.
  repeat split. unfold user_ids, exec, update_users, modify. simpl.
  by rewrite users_set_where_ids.
Qed.

Lemma Store_eq s s' :
  users s' = users s → issues s' = issues s → issueFlags s' = issueFlags s →
  issueVotes s' = issueVotes s → issueStatusLogs s' = issueStatusLogs s →
  s' = s.
Proof. destruct s, s'. simpl. by intros -> -> -> -> ->. Qed.

(** X22. The handlers of [POST /api/issues/:id/flag] and [.../vote] do not
    read [isBanned]: on a store on which [banUser] has run, for whatever
    user, they give the answer they give without it and write the same
    rows. *)
Theorem a_ban_does_not_stop_flags_or_votes
    (id : string) (uuid : string) (now : Timestamp) (userId issueId : string)
    (s : Store) :
  (∀ reason,
     post_flag uuid now userId issueId reason (exec (banUser id) s)
     = ((post_flag uuid now userId issueId reason s).1,
        exec (banUser id) (post_flag uuid now userId issueId reason s).2))
  ∧ post_vote uuid now userId issueId (exec (banUser id) s)
    = ((post_vote uuid now userId issueId s).1,
       exec (banUser id) (post_vote uuid now userId issueId s).2).
Proof.
  pose proof (same_but_user_columns_set_isBanned true id s) as Hs.
  fold (banUser id) in Hs. split.
  - intros reason.
    destruct (blind_post_flag uuid now userId issueId reason _ _ Hs)
      as (Hr & _ & Hi & Hf & Hv & Hl).
    apply injective_projections; [done|]. simpl.
    assert (users (post_flag uuid now userId issueId reason s).2 = users s)
      as Hu by (unfold post_flag; keeps_handler).
    assert (users (post_flag uuid now userId issueId reason
                     (exec (banUser id) s)).2
            = users (exec (banUser id) s))
      as Hu' by (unfold post_flag; keeps_handler).
    apply Store_eq; try done.
    rewrite Hu'. unfold exec, banUser, update_users, modify. simpl.
    by rewrite Hu.
  - destruct (blind_post_vote uuid now userId issueId _ _ Hs)
      as (Hr & _ & Hi & Hf & Hv & Hl).
    apply injective_projections; [done|]. simpl.
    assert (users (post_vote uuid now userId issueId s).2 = users s)
      as Hu by (unfold post_vote; keeps_handler).
    assert (users (post_vote uuid now userId issueId (exec (banUser id) s)).2
            = users (exec (banUser id) s))
      as Hu' by (unfold post_vote; keeps_handler).
    apply Store_eq; try done.
    rewrite Hu'. unfold exec, banUser, update_users, modify. simpl.
    by rewrite Hu.
Qed.

(** ** The tables a request may write *)

(** X23. The tables a request may write, whatever it is answered: a report
    the issues and the status log; a flag the issues and the flags; a vote
    the issues and the votes; a status change the issues and the status
    log; hiding the issues; banning and unbanning the users.  Every other
    table is after the request what it was before. *)
Theorem what_each_request_may_write (q : Request) (s : Store) :
  let s' := (handle q s).2 in
  match q with
  | PostIssues _ _ _ _ _ _ | PatchStatus _ _ _ _ _ _ =>
    users s' = users s ∧ issueFlags s' = issueFlags s
    ∧ issueVotes s' = issueVotes s
  | PostFlag _ _ _ _ _ =>
    users s' = users s ∧ issueVotes s' = issueVotes s
    ∧ issueStatusLogs s' = issueStatusLogs s
  | PostVote _ _ _ _ =>
    users s' = users s ∧ issueFlags s' = issueFlags s
    ∧ issueStatusLogs s' = issueStatusLogs s
  | PatchHide _ _ =>
    users s' = users s ∧ issueFlags s' = issueFlags s
    ∧ issueVotes s' = issueVotes s ∧ issueStatusLogs s' = issueStatusLogs s
  | PatchBan _ _ | PatchUnban _ _ =>
    issues s' = issues s ∧ issueFlags s' = issueFlags s
    ∧ issueVotes s' = issueVotes s ∧ issueStatusLogs s' = issueStatusLogs s
  end.
Proof.
  destruct q; simpl; repeat split;
    unfold post_issues, post_flag, post_vote, patch_status, patch_hide,
      patch_ban, patch_unban;
    keeps_handler.
Qed.

(** ** Moderation, end to end *)

Lemma get_admin_flagged_run adminId s :
  admin s adminId →
  get_admin_flagged adminId s
  = (mkReply 200
       (Sent (orderBy_desc Issue.flagCount
                (select_where (gte Issue.flagCount 1) (issues s)))), s).
Proof.
  intros Hadmin%is_admin_true. unfold get_admin_flagged, try_catch_500.
  by rewrite bind_unfold, getUser_run, Hadmin.
Qed.

(** X24. In a store the server can be in, an issue with five flags or more
    is in the list that [GET /api/admin/issues/flagged] gives an admin, is
    on no page of [getIssuesNearLocation], whatever the place, the radius
    and the filters, and is still served by [GET /api/issues/:id]. *)
Theorem five_flags_move_an_issue_from_the_public_to_the_admins
    (s : Store) (adminId : string) (i : Issue.t) (n : Z) :
  reachable s → admin s adminId →
  i ∈ issues s → Issue.flagCount i = Some n → 5 ≤ n →
  (∃ l, get_admin_flagged adminId s = (mkReply 200 (Sent l), s) ∧ i ∈ l)
  ∧ (∀ latitude longitude radiusKm filters page,
       getIssuesNearLocation latitude longitude radiusKm filters s
       = (Return page, s) →
       i ∉ page)
  ∧ get_issue (Issue.id i) s = (mkReply 200 (Sent i), s).
Proof.
  intros Hs Hadmin Hi Hn H5.
  assert (Issue.isHidden i = Some true) as Hhidden.
  { apply reachable_moderated in Hs.
    by apply (proj1 (Forall_forall _ _) Hs i Hi n). }
  split; [|split].
  - eexists. split; [by apply get_admin_flagged_run|].
    rewrite orderBy_desc_perm. apply elem_of_select_where. split; [done|].
    apply holds_gte. exists n. split; [done|lia].
  - intros latitude longitude radiusKm filters page [= <-] Hin.
    apply subseteq_take, subseteq_drop in Hin.
    rewrite orderBy_desc_perm in Hin.
    apply elem_of_select_where in Hin as [_ Hin].
    apply holds_nearby_where in Hin as (_ & Hvis & _). congruence.
  - rewrite get_issue_run.
    apply reachable_consistent in Hs as [Hids _].
    destruct (proj1 (stored_is_Some s (Issue.id i))) as [i' Hi'];
      [by apply list_elem_of_fmap_2|].
    rewrite Hi'. do 3 f_equal.
    apply stored_elem_of in Hi' as [Hin' Hid'].
    apply list_elem_of_lookup_1 in Hi as [j Hj], Hin' as [j' Hj'].
    assert (j' = j) as ->; [|congruence].
    eapply NoDup_lookup; [exact Hids|..];
      unfold issue_ids; rewrite list_lookup_fmap.
    + by rewrite Hj'.
    + by rewrite Hj, Hid'.
Qed.

(** ** The sample run is one the server can make *)

Lemma sample_users_logins :
  sample_users
  = foldl (λ s w, perform w s) empty_store
      [sample_login "alice" true; sample_login "bob" false;
       sample_login "carol" false; sample_login "dave" false;
       sample_login "erin" false; sample_login "frank" false].
Proof. reflexivity. Qed.

Lemma reachable_sample_store : reachable sample_store.
Proof.
  apply (reachable_handle (PostIssues "i1" "l1" 10 "bob" (sample_body None) [])).
  rewrite sample_users_logins. cbn [foldl].
  repeat apply reachable_perform. apply reachable_empty.
Qed.


Lemma reachable_flag_all issueId reqs s :
  reachable s → reachable (flag_all issueId reqs s).
Proof.
  unfold flag_all. revert s. induction reqs as [|q reqs IH]; intros s Hs;
    [done|].
  simpl. apply IH.
  apply (reachable_handle
           (PostFlag (fr_uuid q) (fr_now q) (fr_userId q) issueId (fr_reason q))).
  done.
Qed.


Lemma sample_flagged_issues : issues sample_flagged = [sample_hidden_issue].
Proof. by vm_compute. Qed.

Lemma the_keys_hold_in_every_reachable_store_witness :
  primary_keys sample_flagged ∧ foreign_keys sample_flagged.
Proof.
  apply the_keys_hold_in_every_reachable_store.
  apply reachable_flag_all, reachable_sample_store.
Defined.

Lemma five_flags_hide_in_every_reachable_store_witness :
  Issue.isHidden sample_hidden_issue = Some true.
Proof.
  apply (five_flags_hide_in_every_reachable_store sample_flagged
           sample_hidden_issue 5).
  - apply reachable_flag_all, reachable_sample_store.
  - rewrite sample_flagged_issues. apply list_elem_of_here.
  - reflexivity.
  - lia.
Defined.


Lemma five_flags_move_an_issue_from_the_public_to_the_admins_witness :
  (∃ l, get_admin_flagged "alice" sample_flagged
        = (mkReply 200 (Sent l), sample_flagged)
        ∧ sample_hidden_issue ∈ l)
  ∧ (∀ latitude longitude radiusKm filters page,
       getIssuesNearLocation latitude longitude radiusKm filters sample_flagged
       = (Return page, sample_flagged) →
       sample_hidden_issue ∉ page)
  ∧ get_issue (Issue.id sample_hidden_issue) sample_flagged
    = (mkReply 200 (Sent sample_hidden_issue), sample_flagged).
Proof.
  apply (five_flags_move_an_issue_from_the_public_to_the_admins sample_flagged
           "alice" sample_hidden_issue 5).
  - apply reachable_flag_all, reachable_sample_store.
  - by_evaluation.
  - rewrite sample_flagged_issues. apply list_elem_of_here.
  - reflexivity.
  - lia.
Defined.

Lemma upsertUser_then_getUser_witness :
  get_auth_user "bob" (exec (upsertUser "" 40 sample_relogin) sample_banned)
  = (mkReply 200 (Sent sample_bob),
     exec (upsertUser "" 40 sample_relogin) sample_banned)
  ∧ User.isBanned sample_bob = Some true.
Proof.
  destruct (upsertUser_then_getUser "" 40 sample_relogin sample_banned
              (exec (upsertUser "" 40 sample_relogin) sample_banned)
              sample_bob eq_refl)
    as (_ & _ & Hget & _ & Hold & _).
  split; [exact Hget|exact (proj1 (proj2 Hold))].
Defined.

(** ** The analytics add up *)

Lemma total_empty : total ∅ = 0.
Proof. apply map_fold_empty. Qed.

Lemma total_insert (m : gmap string Z) c n :
  m !! c = None → total (<[c := n]> m) = n + total m.
Proof. intros Hc. unfold total. rewrite map_fold_insert_L; [done| |done]. lia. Qed.

Section Totals.

Context {A K : Type} `{EqDecision K}.
Context (step : gmap string Z → K * Z → gmap string Z).
Context (name : K → option string).
Context (Hstep : ∀ acc stat,
           step acc stat = match name stat.1 with
                           | Some key => <[key := stat.2]> acc
                           | None => acc
                           end).
Context (Hname : ∀ k k' c, name k = Some c → name k' = Some c → k = k').

Lemma total_tally (g : K → Z) (ks : list K) : ∀ m : gmap string Z,
  NoDup ks →
  (∀ k c, k ∈ ks → name k = Some c → m !! c = None) →
  total (foldl step m ((λ k, (k, g k)) <$> ks)) = total m + named_sum name g ks.
Proof using Hstep Hname.
  induction ks as [|k ks IH]; intros m Hks Hm; simpl; [lia|].
  apply NoDup_cons in Hks as [Hk Hks]. rewrite Hstep. simpl.
  destruct (name k) as [c|] eqn:Hc.
  - rewrite IH; [|done|].
    + rewrite total_insert; [lia|]. eapply Hm; [apply list_elem_of_here|done].
    + intros k' c' Hk' Hc'. rewrite lookup_insert_ne.
      * eapply Hm; [by apply list_elem_of_further|done].
      * intros <-. apply Hk. by rewrite (Hname k k' c).
  - rewrite IH; [lia|done|].
    intros k' c' Hk' Hc'. eapply Hm; [by apply list_elem_of_further|done].
Qed.

Lemma named_sum_add (g h : K → Z) ks :
  named_sum name (λ k, g k + h k) ks = named_sum name g ks + named_sum name h ks.
Proof.
  induction ks as [|k ks IH]; simpl; [done|]. rewrite IH.
  destruct (name k); lia.
Qed.

Lemma named_sum_ext (g h : K → Z) ks :
  (∀ k, g k = h k) → named_sum name g ks = named_sum name h ks.
Proof.
  intros Hgh. induction ks as [|k ks IH]; simpl; [done|]. by rewrite IH, Hgh.
Qed.

Lemma named_sum_one (a : K) ks :
  NoDup ks → a ∈ ks →
  named_sum name (λ k, if decide (a = k) then 1 else 0) ks
  = match name a with Some _ => 1 | None => 0 end.
Proof.
  induction ks as [|k ks IH]; intros Hks Ha; [by apply elem_of_nil in Ha|].
  apply NoDup_cons in Hks as [Hk Hks]. simpl.
  destruct (decide (a = k)) as [->|Hne].
  - assert (named_sum name (λ k0, if decide (k = k0) then 1 else 0) ks = 0) as ->.
    { clear IH Hks Ha. induction ks as [|k' ks IH]; simpl; [done|].
      rewrite IH by (intros ?; apply Hk; by right).
      rewrite decide_False; [by destruct (name k')|].
      intros ->. apply Hk. by left. }
    destruct (name k); lia.
  - apply elem_of_cons in Ha as [?|Ha]; [done|].
    rewrite IH by done. destruct (name k), (name a); lia.
Qed.

(** The counts of the groups with a name add up to the number of rows
    whose group has one. *)
Lemma named_sum_count (key : A → K) (t : list A) ks :
  NoDup ks → (∀ r, r ∈ t → key r ∈ ks) →
  named_sum name (λ k, Z.of_nat (length (filter (λ r, key r = k) t))) ks
  = how_many (λ r, is_Some (name (key r))) t.
Proof.
  intros Hks. induction t as [|x t IH]; intros Hin; simpl.
  - unfold how_many. simpl. clear Hin Hks.
    induction ks as [|k ks IH]; simpl; [done|]. rewrite IH.
    by destruct (name k).
  - rewrite (named_sum_ext _
               (λ k, (if decide (key x = k) then 1 else 0)
                     + Z.of_nat (length (filter (λ r, key r = k) t)))).
    2:{ intros k. rewrite filter_cons.
        destruct (decide (key x = k)); simpl; lia. }
    rewrite named_sum_add, named_sum_one; [|done|apply Hin; by left].
    rewrite IH by (intros r Hr; apply Hin; by right).
    unfold how_many. rewrite filter_cons.
    destruct (decide (is_Some (name (key x)))) as [[c Hc]|Hn].
    + rewrite Hc. simpl. lia.
    + destruct (name (key x)); [destruct Hn; by eexists|lia].
Qed.

Lemma total_group_count (key : A → K) (t : list A) :
  total (foldl step ∅ (group_count key t))
  = how_many (λ r, is_Some (name (key r))) t.
Proof using Hstep Hname.
  unfold group_count. rewrite total_tally, total_empty.
  - rewrite named_sum_count; [lia|apply NoDup_remove_dups|].
    intros r Hr. apply elem_of_remove_dups. by apply list_elem_of_fmap_2.
  - apply NoDup_remove_dups.
  - intros k c _ _. apply lookup_empty.
Qed.

End Totals.

Lemma filter_all {A} (P : A → Prop) `{∀ x, Decision (P x)} (t : list A) :
  (∀ x, P x) → filter P t = t.
Proof.
  intros HP. induction t as [|x t IH]; [done|].
  by rewrite filter_cons_True, IH.
Qed.

(** X25. The analytics add up: the counts of [issuesByCategory] sum to
    [totalIssues]; those of [issuesByStatus] sum to the number of issues
    that are not hidden and have a status that is neither null nor the
    empty string, which is at most [totalIssues], and is [totalIssues] when
    every issue that is not hidden has such a status. *)
Theorem the_analytics_add_up (s : Store) :
  ∃ a, getIssueAnalytics s = (Return a, s)
       ∧ total (issuesByCategory a) = totalIssues a
       ∧ total (issuesByStatus a)
         = how_many (λ i, visible i ∧ has_status i) (issues s)
       ∧ total (issuesByStatus a) ≤ totalIssues a
       ∧ ((∀ i, i ∈ issues s → visible i → has_status i) →
          total (issuesByStatus a) = totalIssues a).
Proof.
  eexists. split; [reflexivity|]. simpl. rewrite select_visible.
  assert ((if bool_decide (Z.of_nat (length (filter visible (issues s))) = 0)
           then 0 else Z.of_nat (length (filter visible (issues s))))
          = how_many visible (issues s)) as ->.
  { unfold how_many. by case_bool_decide. }
  pose (name := λ k : option string,
          match k with
          | Some st => if truthy st then Some st else None
          | None => None
          end).
  assert (total
            (foldl (λ (acc : gmap string Z) (stat : option string * Z),
                      match stat.1 with
                      | Some status =>
                        if truthy status then <[status := stat.2]> acc else acc
                      | None => acc
                      end) ∅
               (group_count Issue.status (filter visible (issues s))))
          = how_many (λ i, visible i ∧ has_status i) (issues s)) as ->.
  { rewrite (total_group_count _ name).
    - unfold how_many. rewrite list_filter_filter. do 2 f_equal.
      apply list_filter_iff. intros i. unfold name, has_status, truthy.
      destruct (Issue.status i) as [st|]; simpl.
      + case_bool_decide; split.
        * intros [_ Hv]. split; [done|]. by exists st.
        * intros [Hv _]. split; [by eexists|done].
        * by intros [[? ?] _].
        * by intros [_ (st' & [= <-] & Hst)].
      + split; [by intros [[? ?] _]|by intros [_ (? & ? & _)]].
    - intros acc [[st|] n]; simpl; [|done]. by destruct (truthy st).
    - intros [k|] [k'|] c; unfold name; try done;
        repeat case_match; congruence. }
  split; [|split; [done|split]].
  - rewrite (total_group_count _ Some); [|done|by intros k k' c [= ->] [= ->]].
    unfold how_many. do 2 f_equal.
    apply filter_all. by eexists.
  - unfold how_many.
    rewrite (list_filter_iff (λ i, visible i ∧ has_status i)
               (λ i, has_status i ∧ visible i)) by (intros ?; tauto).
    rewrite <- (list_filter_filter has_status visible).
    pose proof (length_filter has_status (filter visible (issues s))). lia.
  - intros Hall. unfold how_many. do 2 f_equal.
    clear name. induction (issues s) as [|i t IH]; [done|].
    rewrite !filter_cons.
    rewrite IH by (intros i' Hi'; apply Hall; by right).
    destruct (decide (visible i)) as [Hv|Hv].
    + rewrite decide_True; [done|]. split; [done|]. apply Hall; [by left|done].
    + rewrite decide_False; [done|]. by intros [? _].
Qed.

(** ** Anonymous reports *)


